(** * Correlation of a parsed netlist with parsed timing data

    A shallow embedding of [mergeJsonForD3] (backend/src/mergeVerilogSdf.js)
    over a store of JavaScript objects, and the properties of the merge that
    the specification of the correlation engine states.

    The function receives two references into the JavaScript heap, clones the
    first through [JSON.parse(JSON.stringify(...))], indexes the records of
    the second by trimmed instance name in a [Map] and then writes [delays],
    [timingChecks] and [delay] properties into the objects of the clone.
    Objects have identity: what is written into the clone are the property
    values of the timing records themselves, so the store, the references
    and the writes are modelled explicitly. *)

From Stdlib Require Import Floats.
From stdpp Require Import gmap list strings.

(** ** Strings

    A JavaScript string is a sequence of UTF-16 code units. *)

Abbreviation jsstring := (list N).

Definition str (s : string) : jsstring :=
  (λ a, Ascii.N_of_ascii a) <$> String.list_ascii_of_string s.

(** [WhiteSpace] and [LineTerminator] code points of ECMAScript, the ones
    [String.prototype.trim] strips. *)
Definition is_white_space (c : N) : bool :=
  bool_decide (c ∈ [9; 10; 11; 12; 13; 32; 160; 5760; 8232; 8233; 8239;
                    8287; 12288; 65279]%N)
  || ((8192 <=? c)%N && (c <=? 8202)%N).

Fixpoint trim_start (s : jsstring) : jsstring :=
  match s with
  | c :: s' => if is_white_space c then trim_start s' else s
  | [] => []
  end.

Definition trim_end (s : jsstring) : jsstring :=
  reverse (trim_start (reverse s)).

(** [s.trim()] *)
Definition trim (s : jsstring) : jsstring := trim_end (trim_start s).

(** ** Values, objects and the store *)

Inductive val :=
  | VUndef
  | VNull
  | VBool (b : bool)
  | VNum (x : float)
  | VStr (s : jsstring)
  | VRef (l : nat).

(** An ordinary object is its list of own properties in property order; an
    array is its (dense) list of elements and the named properties it may
    carry besides. *)
Inductive cell :=
  | Obj (props : list (jsstring * val))
  | Arr (elems : list val) (props : list (jsstring * val)).

(** The store: the object at address [l] is [h !! l]; a new object gets the
    next address. *)
Abbreviation heap := (list cell).

Inductive exn := TypeError | SyntaxError.

(** [Stuck] is not a JavaScript outcome: it marks a dangling reference or
    exhausted fuel, which the theorems show not to occur. *)
Inductive result (A : Type) :=
  | Ok (a : A)
  | Throw (e : exn)
  | Stuck.
Arguments Ok {A} a.
Arguments Throw {A} e.
Arguments Stuck {A}.

Definition rbind {A B} (r : result A) (f : A → result B) : result B :=
  match r with
  | Ok a => f a
  | Throw e => Throw e
  | Stuck => Stuck
  end.

#[global] Instance result_ret : MRet result := λ A a, Ok a.
#[global] Instance result_bind : MBind result := λ A B f r, rbind r f.

(** Computations that read and write the store and may throw. *)
Definition M (A : Type) : Type := heap → result (A * heap).

#[global] Instance M_ret : MRet M := λ A a h, Ok (a, h).
#[global] Instance M_bind : MBind M := λ A B f m h,
  match m h with
  | Ok (a, h') => f a h'
  | Throw e => Throw e
  | Stuck => Stuck
  end.

(** A computation that only reads the store. *)
Definition reading {A} (f : heap → result A) : M A := λ h,
  match f h with
  | Ok a => Ok (a, h)
  | Throw e => Throw e
  | Stuck => Stuck
  end.

Definition throw {A} (e : exn) : M A := λ _, Throw e.

(** ** Primitive operations *)

(** ToBoolean *)
Definition truthy (v : val) : bool :=
  match v with
  | VUndef | VNull => false
  | VBool b => b
  | VNum x => negb (PrimFloat.is_zero x || PrimFloat.is_nan x)
  | VStr s => negb (bool_decide (s = []))
  | VRef _ => true
  end.

(** [v === s] for a string literal [s] *)
Definition is_str (v : val) (s : jsstring) : bool :=
  match v with
  | VStr s' => bool_decide (s' = s)
  | _ => false
  end.

(** [typeof v === "number"] *)
Definition is_number (v : val) : bool :=
  match v with
  | VNum _ => true
  | _ => false
  end.

Fixpoint lookup_prop {A} (k : jsstring) (ps : list (jsstring * A)) : option A :=
  match ps with
  | [] => None
  | (k', v) :: ps' => if bool_decide (k' = k) then Some v else lookup_prop k ps'
  end.

(** The properties after [o.k = x]: an own property keeps its place, a new
    one comes last. *)
Fixpoint assign (k : jsstring) (x : val) (ps : list (jsstring * val))
  : list (jsstring * val) :=
  match ps with
  | [] => [(k, x)]
  | (k', v) :: ps' =>
      if bool_decide (k' = k) then (k, x) :: ps' else (k', v) :: assign k x ps'
  end.

Definition props_of (c : cell) : list (jsstring * val) :=
  match c with
  | Obj ps => ps
  | Arr _ ps => ps
  end.

Definition with_props (c : cell) (ps : list (jsstring * val)) : cell :=
  match c with
  | Obj _ => Obj ps
  | Arr es _ => Arr es ps
  end.

(** [v.k] for the property names this program reads ([modules],
    [instances], [name], ...): none of them is an index, [length] or a
    property of a prototype, so a primitive has none of them. *)
Definition get_prop (h : heap) (v : val) (k : jsstring) : result val :=
  match v with
  | VUndef | VNull => Throw TypeError
  | VBool _ | VNum _ | VStr _ => Ok VUndef
  | VRef l =>
      match h !! l with
      | Some c => Ok (default VUndef (lookup_prop k (props_of c)))
      | None => Stuck
      end
  end.

Definition get (v : val) (k : jsstring) : M val := reading (λ h, get_prop h v k).

(** [v.k = x] in strict mode (the file is an ES module). *)
Definition set (v : val) (k : jsstring) (x : val) : M unit := λ h,
  match v with
  | VRef l =>
      match h !! l with
      | Some c => Ok (tt, <[l := with_props c (assign k x (props_of c))]> h)
      | None => Stuck
      end
  | _ => Throw TypeError
  end.

Definition elems_of (h : heap) (v : val) : option (list val) :=
  match v with
  | VRef l =>
      match h !! l with
      | Some (Arr es _) => Some es
      | _ => None
      end
  | _ => None
  end.

(** [Array.isArray(v)] *)
Definition is_array (h : heap) (v : val) : bool :=
  bool_decide (is_Some (elems_of h v)).

Definition isArray (v : val) : M bool := reading (λ h, Ok (is_array h v)).

(** [Object.values(v)] *)
Definition values_of (h : heap) (v : val) : result (list val) :=
  match v with
  | VUndef | VNull => Throw TypeError
  | VBool _ | VNum _ => Ok []
  | VStr s => Ok ((λ c, VStr [c]) <$> s)
  | VRef l =>
      match h !! l with
      | Some (Obj ps) => Ok ps.*2
      | Some (Arr es ps) => Ok (es ++ ps.*2)
      | None => Stuck
      end
  end.

Definition Object_values (v : val) : M (list val) := reading (λ h, values_of h v).

(** [xs.forEach(f)] over the elements [xs]. *)
Fixpoint forEach {A} (xs : list A) (f : A → M unit) : M unit :=
  match xs with
  | [] => mret tt
  | x :: xs' => _ ← f x; forEach xs' f
  end.

(** [v.forEach(f)]: only an array has the method (the store holds no
    functions). The callbacks of this program write no element and no
    [length], so the elements are read once. *)
Definition call_forEach (v : val) (f : val → M unit) : M unit := λ h,
  match v with
  | VRef l =>
      match h !! l with
      | Some (Arr es _) => forEach es f h
      | Some (Obj _) => Throw TypeError
      | None => Stuck
      end
  | _ => Throw TypeError
  end.

Fixpoint some (xs : list val) (f : val → M bool) : M bool :=
  match xs with
  | [] => mret false
  | x :: xs' => f x ≫= λ b : bool, if b then mret true else some xs' f
  end.

(** [v.some(f)] *)
Definition call_some (v : val) (f : val → M bool) : M bool := λ h,
  match v with
  | VRef l =>
      match h !! l with
      | Some (Arr es _) => some es f h
      | Some (Obj _) => Throw TypeError
      | None => Stuck
      end
  | _ => Throw TypeError
  end.

(** [v.trim()]: a method of strings only. *)
Definition call_trim (v : val) : result jsstring :=
  match v with
  | VStr s => Ok (trim s)
  | _ => Throw TypeError
  end.

(** [v[0]] of an array [v] whose length is positive. *)
Definition first_elem (h : heap) (v : val) : val :=
  match elems_of h v with
  | Some (x :: _) => x
  | _ => VUndef
  end.

(** ** JSON.stringify and JSON.parse

    The text that [JSON.stringify] writes and [JSON.parse] reads is kept as
    its syntax tree. *)

#[local] Unset Elimination Schemes.
Inductive json :=
  | JNull
  | JBool (b : bool)
  | JNum (x : float)
  | JStr (s : jsstring)
  | JArr (js : list json)
  | JObj (fs : list (jsstring * json)).
#[local] Set Elimination Schemes.

(** Elements of an array: [undefined] is written as [null]. *)
Fixpoint serialize_elems (f : val → result (option json)) (vs : list val)
  : result (list json) :=
  match vs with
  | [] => Ok []
  | v :: vs' =>
      j ← f v; js ← serialize_elems f vs'; Ok (default JNull j :: js)
  end.

(** Properties of an object: one whose value is [undefined] is left out. *)
Fixpoint serialize_props (f : val → result (option json))
    (ps : list (jsstring * val)) : result (list (jsstring * json)) :=
  match ps with
  | [] => Ok []
  | (k, v) :: ps' =>
      j ← f v; fs ← serialize_props f ps';
      Ok (match j with Some j' => (k, j') :: fs | None => fs end)
  end.

(** SerializeJSONProperty, without replacer, indentation or [toJSON]: [stack]
    holds the objects being serialized, and meeting one of them again is the
    TypeError of a cyclic structure. Each object entered costs one unit of
    [fuel]. *)
Fixpoint serialize (fuel : nat) (h : heap) (stack : list nat) (v : val)
  : result (option json) :=
  match v with
  | VUndef => Ok None
  | VNull => Ok (Some JNull)
  | VBool b => Ok (Some (JBool b))
  | VNum x =>
      Ok (Some (if PrimFloat.is_finite x
                then JNum (if PrimFloat.is_zero x then 0%float else x)
                else JNull))
  | VStr s => Ok (Some (JStr s))
  | VRef l =>
      match fuel with
      | 0 => Stuck
      | S fuel' =>
          if bool_decide (l ∈ stack) then Throw TypeError else
          match h !! l with
          | Some (Obj ps) =>
              fs ← serialize_props (serialize fuel' h (l :: stack)) ps;
              Ok (Some (JObj fs))
          | Some (Arr es _) =>
              js ← serialize_elems (serialize fuel' h (l :: stack)) es;
              Ok (Some (JArr js))
          | None => Stuck
          end
      end
  end.

(** [JSON.stringify(v)] in the store [h]; [None] is the result
    [undefined]. The objects on the stack are distinct objects of the store,
    so there are never more than [length h] of them. *)
Definition stringify (h : heap) (v : val) : result (option json) :=
  serialize (S (length h)) h [] v.

Definition JSON_stringify (v : val) : M (option json) :=
  reading (λ h, stringify h v).

Fixpoint build_all {A B} (f : A → heap → B * heap) (xs : list A) (h : heap)
  : list B * heap :=
  match xs with
  | [] => ([], h)
  | x :: xs' =>
      let '(y, h1) := f x h in
      let '(ys, h2) := build_all f xs' h1 in
      (y :: ys, h2)
  end.

(** The value of a JSON text: every object and array of the text is a new
    object of the store. [JSON.stringify] writes each own property once, so
    no name occurs twice in an object of the text. *)
Fixpoint build (j : json) (h : heap) : val * heap :=
  match j with
  | JNull => (VNull, h)
  | JBool b => (VBool b, h)
  | JNum x => (VNum x, h)
  | JStr s => (VStr s, h)
  | JArr js =>
      let '(vs, h') := build_all build js h in
      (VRef (length h'), h' ++ [Arr vs []])
  | JObj fs =>
      let '(ps, h') :=
        build_all (λ kj h0, let '(v, h1) := build kj.2 h0 in ((kj.1, v), h1))
                  fs h in
      (VRef (length h'), h' ++ [Obj ps])
  end.

(** [JSON.parse(text)]: the text [undefined] is no JSON text. *)
Definition JSON_parse (text : option json) : M val :=
  match text with
  | Some j => λ h, Ok (build j h)
  | None => throw SyntaxError
  end.

(** ** The merge *)

(** The [Map] of timing records by trimmed instance name: the callback of
    [sdfData.instances.forEach], lines 8-14. *)
Definition sdfInstancesMap_set (h : heap) (m : gmap jsstring val) (inst : val)
  : result (gmap jsstring val) :=
  if truthy inst then
    instanceName ← get_prop h inst (str "instanceName");
    if truthy instanceName then
      normalizedName ← call_trim instanceName;
      Ok (<[normalizedName := inst]> m)
    else Ok m
  else Ok m.

Fixpoint sdfInstancesMap_fill (h : heap) (m : gmap jsstring val)
    (insts : list val) : result (gmap jsstring val) :=
  match insts with
  | [] => Ok m
  | inst :: insts' =>
      m' ← sdfInstancesMap_set h m inst; sdfInstancesMap_fill h m' insts'
  end.

(** Lines 6-15. *)
Definition sdfInstancesMap_of (h : heap) (sdfData : val)
  : result (gmap jsstring val) :=
  instances ← get_prop h sdfData (str "instances");
  if truthy instances then
    match elems_of h instances with
    | Some insts => sdfInstancesMap_fill h ∅ insts
    | None => Ok ∅
    end
  else Ok ∅.

(** The callback of [instance.connections.forEach], lines 42-54. *)
Definition annotate_connection (sdfInstance conn : val) : M unit :=
  delays ← get sdfInstance (str "delays");
  elems ← reading (λ h, Ok (elems_of h delays));
  match elems with
  | Some (first :: _) =>
      d ← get first (str "delay"); set conn (str "delay") d
  | Some [] => mret tt
  | None =>
      if is_number delays then set conn (str "delay") delays else mret tt
  end.

(** The callback of [module.instances.forEach], lines 20-57. *)
Definition annotate_instance (sdfInstancesMap : gmap jsstring val)
    (instance : val) : M unit :=
  name ← get instance (str "name");
  if negb (truthy name) then mret tt else
  normalizedName ← reading (λ _, call_trim name);
  let sdfInstance := default VUndef (sdfInstancesMap !! normalizedName) in
  if truthy sdfInstance then
    cellType ← get sdfInstance (str "cellType");
    if is_str cellType (str "DFF") then
      delays ← get sdfInstance (str "delays");
      _ ← set instance (str "delays") delays;
      timingChecks ← get sdfInstance (str "timingChecks");
      set instance (str "timingChecks") timingChecks
    else if is_str cellType (str "LUT_K") then
      delays ← get sdfInstance (str "delays");
      set instance (str "delays") delays
    else
      type ← get instance (str "type");
      if is_str type (str "fpga_interconnect") then
        connections ← get instance (str "connections");
        if truthy connections then
          call_forEach connections (annotate_connection sdfInstance)
        else mret tt
      else mret tt
  else mret tt.

(** The callback of [Object.values(finalJSON.modules).forEach], lines
    18-59. *)
Definition annotate_module (sdfInstancesMap : gmap jsstring val)
    (module : val) : M unit :=
  instances ← get module (str "instances");
  isarr ← isArray instances;
  if truthy instances && isarr then
    call_forEach instances (annotate_instance sdfInstancesMap)
  else mret tt.

(** The condition of line 66. *)
Definition has_delay (instance : val) : M bool :=
  delays ← get instance (str "delays");
  if truthy delays then mret true else
  connections ← get instance (str "connections");
  if truthy connections then
    call_some connections (λ c, d ← get c (str "delay"); mret (truthy d))
  else mret false.

(** The callback of the second [module.instances.forEach], lines 65-69:
    [delaysCount] is a local variable that is never read, so what is kept of
    the callback is the evaluation of its condition. *)
Definition count_instance (instance : val) : M unit :=
  has_delay instance ≫= λ _ : bool, mret tt.

(** The callback of the second [Object.values(finalJSON.modules).forEach],
    lines 63-71. *)
Definition count_module (module : val) : M unit :=
  instances ← get module (str "instances");
  if truthy instances then call_forEach instances count_instance
  else mret tt.

Definition mergeJsonForD3 (verilogData sdfData : val) : M val :=
  text ← JSON_stringify verilogData;
  finalJSON ← JSON_parse text;
  sdfInstancesMap ← reading (λ h, sdfInstancesMap_of h sdfData);
  modules ← get finalJSON (str "modules");
  ms ← Object_values modules;
  _ ← forEach ms (annotate_module sdfInstancesMap);
  modules' ← get finalJSON (str "modules");
  ms' ← Object_values modules';
  _ ← forEach ms' count_module;
  mret finalJSON.

(** * Verification *)

(** ** Induction over JSON values *)

Lemma json_ind (P : json → Prop) :
  P JNull → (∀ b, P (JBool b)) → (∀ x, P (JNum x)) → (∀ s, P (JStr s)) →
  (∀ js, Forall P js → P (JArr js)) →
  (∀ fs, Forall (λ kj, P kj.2) fs → P (JObj fs)) →
  ∀ j, P j.
Proof.
  intros Hnull Hbool Hnum Hstr Harr Hobj.
  fix IH 1. intros [|b|x|s|js|fs].
  - exact Hnull.
  - apply Hbool.
  - apply Hnum.
  - apply Hstr.
  - apply Harr. induction js as [|j js IHjs]; constructor; [apply IH|exact IHjs].
  - apply Hobj.
    induction fs as [|[k j] fs IHfs]; constructor; [apply IH|exact IHfs].
Qed.

(** ** Running computations *)

Lemma bind_Ok {A B} (m : M A) (f : A → M B) h a h' :
  m h = Ok (a, h') → (m ≫= f) h = f a h'.
Proof. unfold mbind, M_bind. by intros ->. Qed.

Lemma reading_Ok {A} (f : heap → result A) h a :
  f h = Ok a → reading f h = Ok (a, h).
Proof. unfold reading. by intros ->. Qed.

Lemma get_Ok v k h x : get_prop h v k = Ok x → get v k h = Ok (x, h).
Proof. unfold get, reading. by intros ->. Qed.

(** ** Properties of an object *)

Lemma lookup_assign_eq k x ps : lookup_prop k (assign k x ps) = Some x.
Proof.
  induction ps as [|[k' v] ps IH]; simpl.
  - by rewrite bool_decide_eq_true_2.
  - case_bool_decide; simpl.
    + by rewrite bool_decide_eq_true_2.
    + by rewrite bool_decide_eq_false_2.
Qed.

Lemma lookup_assign_ne k k' x ps :
  k ≠ k' → lookup_prop k' (assign k x ps) = lookup_prop k' ps.
Proof.
  intros Hne. induction ps as [|[k'' v] ps IH]; simpl.
  - by rewrite bool_decide_eq_false_2.
  - case_bool_decide as Hk; simpl.
    + subst k''. by rewrite !bool_decide_eq_false_2.
    + case_bool_decide; [done|apply IH].
Qed.

Lemma lookup_prop_None {A} k (ps : list (jsstring * A)) :
  lookup_prop k ps = None ↔ k ∉ ps.*1.
Proof.
  induction ps as [|[k' v] ps IH]; simpl.
  - split; [intros _; apply not_elem_of_nil|done].
  - case_bool_decide as Hk.
    + subst. split; [done|]. intros []. apply list_elem_of_here.
    + rewrite IH, not_elem_of_cons. split; [by intros ?; split|by intros [_ ?]].
Qed.

Lemma lookup_prop_fmap {A B} (f : A → B) k (ps : list (jsstring * A)) :
  lookup_prop k ((λ kx, (kx.1, f kx.2)) <$> ps) = f <$> lookup_prop k ps.
Proof.
  induction ps as [|[k' v] ps IH]; simpl; [done|].
  by case_bool_decide.
Qed.

Lemma lookup_prop_Some_elem {A} k (ps : list (jsstring * A)) x :
  lookup_prop k ps = Some x → (k, x) ∈ ps.
Proof.
  induction ps as [|[k' v] ps IH]; simpl; [done|].
  case_bool_decide.
  - intros [= ->]. subst. apply list_elem_of_here.
  - intros ?. apply list_elem_of_further. by apply IH.
Qed.

Lemma props_with_props c ps : props_of (with_props c ps) = ps.
Proof. by destruct c. Qed.

(** ** Where [JSON.parse] puts the objects of a text

    A located tree is a JSON value with the address of each of its objects
    and arrays. *)

#[local] Unset Elimination Schemes.
Inductive ltree :=
  | LNull
  | LBool (b : bool)
  | LNum (x : float)
  | LStr (s : jsstring)
  | LArr (l : nat) (es : list ltree)
  | LObj (l : nat) (fs : list (jsstring * ltree)).
#[local] Set Elimination Schemes.

Lemma ltree_ind (P : ltree → Prop) :
  P LNull → (∀ b, P (LBool b)) → (∀ x, P (LNum x)) → (∀ s, P (LStr s)) →
  (∀ l es, Forall P es → P (LArr l es)) →
  (∀ l fs, Forall (λ kt, P kt.2) fs → P (LObj l fs)) →
  ∀ t, P t.
Proof.
  intros Hnull Hbool Hnum Hstr Harr Hobj.
  fix IH 1. intros [|b|x|s|l es|l fs].
  - exact Hnull.
  - apply Hbool.
  - apply Hnum.
  - apply Hstr.
  - apply Harr. induction es as [|t es IHes]; constructor; [apply IH|exact IHes].
  - apply Hobj.
    induction fs as [|[k t] fs IHfs]; constructor; [apply IH|exact IHfs].
Qed.

(** The value that refers to the root of a located tree. *)
Definition lval (t : ltree) : val :=
  match t with
  | LNull => VNull
  | LBool b => VBool b
  | LNum x => VNum x
  | LStr s => VStr s
  | LArr l _ => VRef l
  | LObj l _ => VRef l
  end.

Definition lprops (fs : list (jsstring * ltree)) : list (jsstring * val) :=
  (λ kt, (kt.1, lval kt.2)) <$> fs.

(** The objects of a located tree with their addresses, children first. *)
Fixpoint nodes (t : ltree) : list (nat * cell) :=
  match t with
  | LArr l es => concat (nodes <$> es) ++ [(l, Arr (lval <$> es) [])]
  | LObj l fs => concat ((λ kt, nodes kt.2) <$> fs) ++ [(l, Obj (lprops fs))]
  | _ => []
  end.

Definition locs (t : ltree) : list nat := (nodes t).*1.

(** The JSON value of a located tree. *)
Fixpoint erase (t : ltree) : json :=
  match t with
  | LNull => JNull
  | LBool b => JBool b
  | LNum x => JNum x
  | LStr s => JStr s
  | LArr _ es => JArr (erase <$> es)
  | LObj _ fs => JObj ((λ kt, (kt.1, erase kt.2)) <$> fs)
  end.

(** The number of objects and arrays of a JSON value. *)
Fixpoint jsize (j : json) : nat :=
  match j with
  | JArr js => S (sum_list (jsize <$> js))
  | JObj fs => S (sum_list ((λ kj, jsize kj.2) <$> fs))
  | _ => 0
  end.

Fixpoint locate_all {A B} (f : A → nat → B) (sz : A → nat) (xs : list A)
    (b : nat) : list B :=
  match xs with
  | [] => []
  | x :: xs' => f x b :: locate_all f sz xs' (b + sz x)
  end.

(** The located tree of the value that [build] makes of [j] in a store of
    [b] objects. *)
Fixpoint locate (j : json) (b : nat) : ltree :=
  match j with
  | JNull => LNull
  | JBool x => LBool x
  | JNum x => LNum x
  | JStr s => LStr s
  | JArr js =>
      LArr (b + sum_list (jsize <$> js)) (locate_all locate jsize js b)
  | JObj fs =>
      LObj (b + sum_list ((λ kj, jsize kj.2) <$> fs))
           (locate_all (λ kj b', (kj.1, locate kj.2 b')) (λ kj, jsize kj.2) fs b)
  end.

Lemma erase_locate j b : erase (locate j b) = j.
Proof.
  revert b. induction j as [|c|x|s|js IH|fs IH] using json_ind; intros b;
    simpl; try done; f_equal.
  - revert b. induction IH as [|j js Hj _ IHjs]; intros b; simpl; [done|].
    by rewrite Hj, IHjs.
  - revert b. induction IH as [|[k j] fs Hj _ IHfs]; intros b; simpl; [done|].
    simpl in Hj. by rewrite Hj, IHfs.
Qed.

Lemma locs_locate j b : locs (locate j b) = seq b (jsize j).
Proof.
  unfold locs. revert b.
  induction j as [|c|x|s|js IH|fs IH] using json_ind; intros b;
    simpl; try done.
  - rewrite fmap_app. simpl.
    change (b :: seq (S b) ?n) with (seq b (S n)).
    rewrite seq_S. f_equal. clear -IH.
    revert b. induction IH as [|j js Hj _ IHjs]; intros b; simpl; [done|].
    rewrite fmap_app, seq_app, Hj. f_equal. apply IHjs.
  - rewrite fmap_app. simpl.
    change (b :: seq (S b) ?n) with (seq b (S n)).
    rewrite seq_S. f_equal. clear -IH.
    revert b. induction IH as [|[k j] fs Hj _ IHfs]; intros b; simpl; [done|].
    simpl in Hj. rewrite fmap_app, seq_app, Hj. f_equal. apply IHfs.
Qed.

Lemma length_nodes_locate j b : length (nodes (locate j b)) = jsize j.
Proof.
  rewrite <-(length_fmap fst). fold (locs (locate j b)).
  by rewrite locs_locate, length_seq.
Qed.

Lemma NoDup_locs_locate j b : NoDup (locs (locate j b)).
Proof. rewrite locs_locate. apply NoDup_seq. Qed.

(** [build] puts the objects of the text behind those of the store, at the
    addresses [locate] gives. *)
Lemma build_locate j h :
  build j h = (lval (locate j (length h)), h ++ (nodes (locate j (length h))).*2).
Proof.
  revert h. induction j as [|c|x|s|js IH|fs IH] using json_ind; intros h;
    simpl; try by rewrite app_nil_r.
  - assert (build_all build js h =
      (lval <$> locate_all locate jsize js (length h),
       h ++ (concat (nodes <$> locate_all locate jsize js (length h))).*2)
      ∧ length (concat (nodes <$> locate_all locate jsize js (length h)))
        = sum_list (jsize <$> js)) as [-> Hlen].
    { clear -IH. revert h.
      induction IH as [|j js Hj _ IHjs]; intros h; simpl.
      - by rewrite app_nil_r.
      - rewrite Hj.
        specialize (IHjs (h ++ (nodes (locate j (length h))).*2)).
        rewrite length_app, length_fmap, length_nodes_locate in IHjs.
        destruct IHjs as [-> Hlen]. split.
        + by rewrite fmap_app, app_assoc.
        + rewrite length_app, length_nodes_locate. by f_equal. }
    rewrite length_app, length_fmap, Hlen, fmap_app. simpl.
    by rewrite app_assoc.
  - assert (build_all (λ kj h0, let '(v, h1) := build kj.2 h0 in ((kj.1, v), h1))
                      fs h =
      (lprops (locate_all (λ kj b', (kj.1, locate kj.2 b')) (λ kj, jsize kj.2)
                 fs (length h)),
       h ++ (concat ((λ kt, nodes kt.2) <$>
               locate_all (λ kj b', (kj.1, locate kj.2 b')) (λ kj, jsize kj.2)
                 fs (length h))).*2)
      ∧ length (concat ((λ kt, nodes kt.2) <$>
               locate_all (λ kj b', (kj.1, locate kj.2 b')) (λ kj, jsize kj.2)
                 fs (length h)))
        = sum_list ((λ kj, jsize kj.2) <$> fs)) as [-> Hlen].
    { clear -IH. revert h.
      induction IH as [|[k j] fs Hj _ IHfs]; intros h; simpl.
      - by rewrite app_nil_r.
      - simpl in Hj. rewrite Hj.
        specialize (IHfs (h ++ (nodes (locate j (length h))).*2)).
        rewrite length_app, length_fmap, length_nodes_locate in IHfs.
        destruct IHfs as [-> Hlen]. split.
        + by rewrite fmap_app, app_assoc.
        + rewrite length_app, length_nodes_locate. by f_equal. }
    rewrite length_app, length_fmap, Hlen, fmap_app. simpl.
    by rewrite app_assoc.
Qed.

(** ** Reading a store without running a computation *)

(** [v.k], [undefined] where the read would throw. *)
Definition field (h : heap) (v : val) (k : jsstring) : val :=
  match get_prop h v k with
  | Ok x => x
  | _ => VUndef
  end.

(** The elements of the array [v]; none when [v] is no array. *)
Definition items (h : heap) (v : val) : list val := default [] (elems_of h v).

(** [Object.values(v)], empty where it would throw. *)
Definition members (h : heap) (v : val) : list val :=
  match values_of h v with
  | Ok vs => vs
  | _ => []
  end.

(** The instance objects of the netlist [v]: [i]-th instance of the [mi]-th
    module in the order of [Object.values(v.modules)]. *)
Definition instance_at (h : heap) (v : val) (mi i : nat) : option val :=
  module ← members h (field h v (str "modules")) !! mi;
  items h (field h module (str "instances")) !! i.

(** The connection objects of an instance. *)
Definition connections_of (h : heap) (instance : val) : list val :=
  items h (field h instance (str "connections")).

(** The same questions asked of a JSON value and of a located tree. *)
Definition jfield (j : json) (k : jsstring) : option json :=
  match j with
  | JObj fs => lookup_prop k fs
  | _ => None
  end.

Definition jitems (j : option json) : list json :=
  match j with
  | Some (JArr js) => js
  | _ => []
  end.

Definition jmembers (j : option json) : list json :=
  match j with
  | Some (JObj fs) => fs.*2
  | _ => []
  end.

Definition jinstance (j : json) (mi i : nat) : option json :=
  module ← jmembers (jfield j (str "modules")) !! mi;
  jitems (jfield module (str "instances")) !! i.

Definition jconnections (instance : json) : list json :=
  jitems (jfield instance (str "connections")).

Definition lfield (t : ltree) (k : jsstring) : option ltree :=
  match t with
  | LObj _ fs => lookup_prop k fs
  | _ => None
  end.

Definition litems (t : option ltree) : list ltree :=
  match t with
  | Some (LArr _ es) => es
  | _ => []
  end.

Definition lmembers (t : option ltree) : list ltree :=
  match t with
  | Some (LObj _ fs) => fs.*2
  | _ => []
  end.

Definition linstance (t : ltree) (mi i : nat) : option ltree :=
  module ← lmembers (lfield t (str "modules")) !! mi;
  litems (lfield module (str "instances")) !! i.

Definition lconnections (instance : ltree) : list ltree :=
  litems (lfield instance (str "connections")).

Definition root_loc (t : ltree) : nat :=
  match t with
  | LArr l _ | LObj l _ => l
  | _ => 0
  end.

(** ** Well-formed inputs *)

(** ToBoolean of the value of a JSON text. *)
Definition jtruthy (j : json) : bool :=
  match j with
  | JNull => false
  | JBool b => b
  | JNum x => negb (PrimFloat.is_zero x || PrimFloat.is_nan x)
  | JStr s => negb (bool_decide (s = []))
  | JArr _ | JObj _ => true
  end.

Definition is_jobj (j : json) : bool :=
  match j with
  | JObj _ => true
  | _ => false
  end.

(** A property that is absent, falsy or a string. *)
Definition optional_string (j : option json) : bool :=
  match j with
  | None | Some (JStr _) => true
  | Some x => negb (jtruthy x)
  end.

(** A property that is absent, falsy or an array whose elements pass
    [check]. *)
Definition optional_array (check : json → bool) (j : option json) : bool :=
  match j with
  | None => true
  | Some (JArr js) => forallb check js
  | Some x => negb (jtruthy x)
  end.

(** An instance is an object; its [name], when there is one, is a string
    (or falsy), and its [connections], when there are some, are an array of
    objects. *)
Definition instance_ok (j : json) : bool :=
  is_jobj j
  && optional_string (jfield j (str "name"))
  && optional_array is_jobj (jfield j (str "connections")).

(** A module is an object whose [instances], when there are some, are an
    array of instances. *)
Definition module_ok (j : json) : bool :=
  is_jobj j && optional_array instance_ok (jfield j (str "instances")).

(** A netlist is an object whose [modules] is an object of modules. *)
Definition netlist_ok (j : json) : bool :=
  match jfield j (str "modules") with
  | Some (JObj ms) => forallb module_ok ms.*2
  | _ => false
  end.

Definition val_in (n : nat) (v : val) : bool :=
  match v with
  | VRef l => bool_decide (l < n)
  | _ => true
  end.

Definition cell_vals (c : cell) : list val :=
  match c with
  | Obj ps => ps.*2
  | Arr es ps => es ++ ps.*2
  end.

(** A store of a JavaScript program: every reference kept in an object is
    the address of an object, and no object has two properties of one
    name. *)
Definition heap_wf (h : heap) : bool :=
  forallb (λ c, forallb (val_in (length h)) (cell_vals c)
                && bool_decide (NoDup (props_of c).*1)) h.

Definition is_nullish (v : val) : bool :=
  match v with
  | VUndef | VNull => true
  | _ => false
  end.

Definition is_string (v : val) : bool :=
  match v with
  | VStr _ => true
  | _ => false
  end.

(** A timing record: its [instanceName], when it has one, is a string (or
    falsy), and the first entry of a [delays] array is an object or a
    primitive value other than [null] and [undefined]. *)
Definition record_ok (h : heap) (inst : val) : bool :=
  let instanceName := field h inst (str "instanceName") in
  (negb (truthy instanceName) || is_string instanceName)
  && match elems_of h (field h inst (str "delays")) with
     | Some (first :: _) => negb (is_nullish first)
     | _ => true
     end.

(** A timing model is an object of the store; the elements of its
    [instances], when that is an array, are timing records. *)
Definition timing_ok (h : heap) (sdfData : val) : bool :=
  negb (is_nullish sdfData) && val_in (length h) sdfData
  && forallb (record_ok h) (items h (field h sdfData (str "instances"))).

(** ** Writes

    The merge writes three property names, and only those. *)

Definition annotations : list jsstring :=
  [str "delays"; str "timingChecks"; str "delay"].

(** A write [o.k = x] to the object at address [l]. *)
Definition write : Type := nat * jsstring * val.

Definition do_write (h : heap) (w : write) : heap :=
  match h !! w.1.1 with
  | Some c => <[w.1.1 := with_props c (assign w.1.2 w.2 (props_of c))]> h
  | None => h
  end.

Definition apply_writes (ws : list write) (h : heap) : heap :=
  foldl do_write h ws.

(** The writes of a list of writes that go to the object at [l]. *)
Definition writes_at (l : nat) (ws : list write) : list (jsstring * val) :=
  omap (λ w : write, if bool_decide (w.1.1 = l) then Some (w.1.2, w.2) else None)
       ws.

Definition assign_all (kxs : list (jsstring * val)) (ps : list (jsstring * val))
  : list (jsstring * val) :=
  foldl (λ ps kx, assign kx.1 kx.2 ps) ps kxs.

(** The delay that [annotate_connection] gives every connection for a
    timing record, if it gives one. *)
Definition connection_delay (h : heap) (sdfInstance : val) : option val :=
  let delays := field h sdfInstance (str "delays") in
  match elems_of h delays with
  | Some (first :: _) => Some (field h first (str "delay"))
  | Some [] => None
  | None => if is_number delays then Some delays else None
  end.

(** The writes of [annotate_instance] for the instance at the root of [t],
    with the timing records read in [h]. *)
Definition instance_writes (h : heap) (m : gmap jsstring val) (t : ltree)
  : list write :=
  match lfield t (str "name") with
  | Some (LStr s) =>
      if bool_decide (s = []) then [] else
      match m !! trim s with
      | Some rec =>
          if is_str (field h rec (str "cellType")) (str "DFF") then
            [(root_loc t, str "delays", field h rec (str "delays"));
             (root_loc t, str "timingChecks", field h rec (str "timingChecks"))]
          else if is_str (field h rec (str "cellType")) (str "LUT_K") then
            [(root_loc t, str "delays", field h rec (str "delays"))]
          else
            match lfield t (str "type") with
            | Some (LStr ty) =>
                if bool_decide (ty = str "fpga_interconnect") then
                  match connection_delay h rec with
                  | Some d =>
                      (λ c, (root_loc c, str "delay", d)) <$> lconnections t
                  | None => []
                  end
                else []
            | _ => []
            end
      | None => []
      end
  | _ => []
  end.

Definition module_writes (h : heap) (m : gmap jsstring val) (t : ltree)
  : list write :=
  concat (instance_writes h m <$> litems (lfield t (str "instances"))).

Definition netlist_writes (h : heap) (m : gmap jsstring val) (t : ltree)
  : list write :=
  concat (module_writes h m <$> lmembers (lfield t (str "modules"))).

Lemma length_do_write h w : length (do_write h w) = length h.
Proof. unfold do_write. destruct (h !! _); [apply length_insert|done]. Qed.

Lemma length_apply_writes ws h : length (apply_writes ws h) = length h.
Proof.
  revert h. induction ws as [|w ws IH]; intros h; simpl; [done|].
  unfold apply_writes in *. simpl. by rewrite IH, length_do_write.
Qed.

Lemma apply_writes_app ws1 ws2 h :
  apply_writes (ws1 ++ ws2) h = apply_writes ws2 (apply_writes ws1 h).
Proof. apply foldl_app. Qed.

Lemma do_write_lookup h w l :
  do_write h w !! l =
  (λ c, with_props c (assign_all (writes_at l [w]) (props_of c))) <$> h !! l.
Proof.
  destruct w as [[l' k] x]. unfold do_write, writes_at. simpl.
  destruct (h !! l') as [c'|] eqn:Hl'.
  - case_bool_decide as Hll; subst; simpl.
    + rewrite list_lookup_insert_eq by (by eapply lookup_lt_Some).
      by rewrite Hl'.
    + rewrite list_lookup_insert_ne by done.
      destruct (h !! l) as [c|]; simpl; [|done]. by destruct c.
  - case_bool_decide as Hll; subst; simpl.
    + by rewrite Hl'.
    + destruct (h !! l) as [c|]; simpl; [|done]. by destruct c.
Qed.

Lemma writes_at_app l ws1 ws2 :
  writes_at l (ws1 ++ ws2) = writes_at l ws1 ++ writes_at l ws2.
Proof. apply omap_app. Qed.

(** The object at [l] after a list of writes: its properties with the writes
    to [l] done in order. *)
Lemma apply_writes_lookup ws h l :
  apply_writes ws h !! l =
  (λ c, with_props c (assign_all (writes_at l ws) (props_of c))) <$> h !! l.
Proof.
  revert h. induction ws as [|w ws IH]; intros h.
  - simpl. destruct (h !! l) as [c|]; simpl; [|done]. by destruct c.
  - change (w :: ws) with ([w] ++ ws).
    rewrite apply_writes_app, IH, writes_at_app.
    change (apply_writes [w] h) with (do_write h w).
    rewrite do_write_lookup. destruct (h !! l) as [c|]; simpl; [|done].
    f_equal. rewrite props_with_props. unfold assign_all.
    rewrite foldl_app. by destruct c.
Qed.

(** ** Subtrees *)

Definition children (t : ltree) : list ltree :=
  match t with
  | LArr _ es => es
  | LObj _ fs => fs.*2
  | _ => []
  end.

Definition root_cell (t : ltree) : list (nat * cell) :=
  match t with
  | LArr l es => [(l, Arr (lval <$> es) [])]
  | LObj l fs => [(l, Obj (lprops fs))]
  | _ => []
  end.

Lemma nodes_children t : nodes t = concat (nodes <$> children t) ++ root_cell t.
Proof.
  destruct t as [| | | |l es|l fs]; simpl; try done.
  by rewrite <-list_fmap_compose.
Qed.

Lemma sublist_concat_elem {A B} (f : A → list B) x xs :
  x ∈ xs → f x `sublist_of` concat (f <$> xs).
Proof.
  induction 1 as [x xs|x y xs _ IH]; simpl.
  - by apply sublist_inserts_r.
  - by apply sublist_inserts_l.
Qed.

Lemma child_sublist t t' : t' ∈ children t → nodes t' `sublist_of` nodes t.
Proof.
  intros Hin. rewrite (nodes_children t). apply sublist_inserts_r.
  by apply sublist_concat_elem.
Qed.

Lemma child_subseteq t t' : t' ∈ children t → nodes t' ⊆ nodes t.
Proof. intros Hin x Hx. eapply elem_of_sublist; [done|by apply child_sublist]. Qed.

Lemma root_cell_nodes t x : x ∈ root_cell t → x ∈ nodes t.
Proof. rewrite nodes_children, elem_of_app. auto. Qed.

Lemma lfield_child t k t' : lfield t k = Some t' → t' ∈ children t.
Proof.
  destruct t as [| | | |l es|l fs]; simpl; try done.
  intros Hk%lookup_prop_Some_elem.
  by apply (list_elem_of_fmap_2 snd) in Hk.
Qed.

Lemma litems_child t t' : t' ∈ litems (Some t) → t' ∈ children t.
Proof.
  destruct t as [| | | |l es|l fs]; simpl; try done; by intros ?%elem_of_nil.
Qed.

Lemma lmembers_child t t' : t' ∈ lmembers (Some t) → t' ∈ children t.
Proof.
  destruct t as [| | | |l es|l fs]; simpl; try done; by intros ?%elem_of_nil.
Qed.

(** Navigation commutes with [erase]. *)
Lemma jfield_erase t k : jfield (erase t) k = erase <$> lfield t k.
Proof.
  destruct t as [| | | |l es|l fs]; simpl; try done.
  apply lookup_prop_fmap.
Qed.

Lemma jitems_erase t : jitems (erase <$> t) = erase <$> litems t.
Proof. by destruct t as [[| | | |l es|l fs]|]. Qed.

Lemma jmembers_erase t : jmembers (erase <$> t) = erase <$> lmembers t.
Proof.
  destruct t as [[| | | |l es|l fs]|]; simpl; try done.
  by rewrite <-!list_fmap_compose.
Qed.

Lemma jinstance_erase t mi i : jinstance (erase t) mi i = erase <$> linstance t mi i.
Proof.
  unfold jinstance, linstance.
  rewrite jfield_erase, jmembers_erase, list_lookup_fmap.
  destruct (lmembers _ !! mi) as [tm|]; simpl; [|done].
  by rewrite jfield_erase, jitems_erase, list_lookup_fmap.
Qed.

Lemma jconnections_erase t : jconnections (erase t) = erase <$> lconnections t.
Proof. unfold jconnections, lconnections. by rewrite jfield_erase, jitems_erase. Qed.

(** ** Stores that agree with a located tree

    While the merge runs, the objects of the clone are those [build] made,
    up to the properties the merge writes. *)

Definition cell_elems (c : cell) : option (list val) :=
  match c with
  | Arr es _ => Some es
  | Obj _ => None
  end.

Definition cell_sim (c c' : cell) : Prop :=
  cell_elems c = cell_elems c'
  ∧ ∀ k, k ∉ annotations → lookup_prop k (props_of c) = lookup_prop k (props_of c').

Definition tracks (h : heap) (ns : list (nat * cell)) : Prop :=
  ∀ l c, (l, c) ∈ ns → ∃ c', h !! l = Some c' ∧ cell_sim c c'.

Lemma cell_sim_refl c : cell_sim c c.
Proof. by split. Qed.

Lemma cell_sim_trans c1 c2 c3 : cell_sim c1 c2 → cell_sim c2 c3 → cell_sim c1 c3.
Proof.
  intros [He1 Hp1] [He2 Hp2]. split; [congruence|].
  intros k Hk. by rewrite Hp1, Hp2.
Qed.

Lemma tracks_subseteq h ns ns' : ns' ⊆ ns → tracks h ns → tracks h ns'.
Proof. intros Hsub Ht l c Hin. apply Ht, Hsub, Hin. Qed.

Lemma cell_sim_assign_all c kxs :
  Forall (λ kx, kx.1 ∈ annotations) kxs →
  cell_sim c (with_props c (assign_all kxs (props_of c))).
Proof.
  intros Hks. split; [by destruct c|]. intros k Hk.
  rewrite props_with_props. unfold assign_all.
  generalize (props_of c). clear c.
  induction Hks as [|[k' x] kxs Hk' _ IH]; intros ps; simpl; [done|].
  rewrite <-IH. symmetry. apply lookup_assign_ne. simpl in Hk'. congruence.
Qed.

Definition write_ok (n : nat) (w : write) : Prop :=
  w.1.2 ∈ annotations ∧ n ≤ w.1.1.

Lemma writes_at_annotations n l ws :
  Forall (write_ok n) ws → Forall (λ kx, kx.1 ∈ annotations) (writes_at l ws).
Proof.
  induction 1 as [|[[l' k] x] ws [Hk _] _ IH]; simpl; [constructor|].
  unfold writes_at. simpl. case_bool_decide; [constructor|]; done.
Qed.

Lemma tracks_apply_writes n h ns ws :
  Forall (write_ok n) ws → tracks h ns → tracks (apply_writes ws h) ns.
Proof.
  intros Hws Ht l c Hin. destruct (Ht l c Hin) as (c' & Hl & Hsim).
  rewrite apply_writes_lookup, Hl. simpl. eexists; split; [done|].
  eapply cell_sim_trans; [done|].
  apply cell_sim_assign_all. by eapply writes_at_annotations.
Qed.

Lemma writes_at_old n l ws :
  Forall (write_ok n) ws → l < n → writes_at l ws = [].
Proof.
  induction 1 as [|[[l' k] x] ws [_ Hl] _ IH]; intros Hlt; [done|].
  unfold writes_at in *. simpl in *.
  rewrite bool_decide_eq_false_2 by lia. by apply IH.
Qed.

Lemma apply_writes_old n h ws l :
  Forall (write_ok n) ws → l < n → apply_writes ws h !! l = h !! l.
Proof.
  intros Hws Hl. rewrite apply_writes_lookup, (writes_at_old n) by done.
  destruct (h !! l) as [c|]; simpl; [|done]. by destruct c.
Qed.

(** *** Reads of the clone *)

Definition lget (t : ltree) (k : jsstring) : val :=
  default VUndef (lval <$> lfield t k).

Lemma tracks_root h t l c :
  tracks h (nodes t) → root_cell t = [(l, c)] →
  ∃ c', h !! l = Some c' ∧ cell_sim c c'.
Proof.
  intros Ht Hroot. apply Ht, root_cell_nodes. rewrite Hroot.
  apply list_elem_of_here.
Qed.

Lemma tracks_get h t k :
  tracks h (nodes t) → t ≠ LNull → k ∉ annotations →
  get_prop h (lval t) k = Ok (lget t k).
Proof.
  intros Ht Hnull Hk. destruct t as [| | | |l es|l fs]; try done.
  - destruct (tracks_root h _ _ _ Ht eq_refl) as (c' & Hl & _ & Hps).
    simpl. rewrite Hl, <-Hps by done. done.
  - destruct (tracks_root h _ _ _ Ht eq_refl) as (c' & Hl & _ & Hps).
    simpl. rewrite Hl, <-Hps by done. simpl. unfold lget. simpl.
    unfold lprops. by rewrite lookup_prop_fmap.
Qed.

Lemma tracks_get_any h t k :
  tracks h (nodes t) → t ≠ LNull → ∃ x, get_prop h (lval t) k = Ok x.
Proof.
  intros Ht Hnull. destruct t as [| | | |l es|l fs]; try done; simpl; eauto.
  - destruct (tracks_root h _ _ _ Ht eq_refl) as (c' & -> & _). eauto.
  - destruct (tracks_root h _ _ _ Ht eq_refl) as (c' & -> & _). eauto.
Qed.

Lemma tracks_elems h t :
  tracks h (nodes t) →
  elems_of h (lval t) = match t with LArr _ es => Some (lval <$> es) | _ => None end.
Proof.
  intros Ht. destruct t as [| | | |l es|l fs]; try done.
  - destruct (tracks_root h _ _ _ Ht eq_refl) as (c' & Hl & He & _).
    simpl. rewrite Hl. by destruct c'; simplify_eq/=.
  - destruct (tracks_root h _ _ _ Ht eq_refl) as (c' & Hl & He & _).
    simpl. rewrite Hl. by destruct c'; simplify_eq/=.
Qed.

Lemma tracks_field h t k :
  tracks h (nodes t) → k ∉ annotations → field h (lval t) k = lget t k.
Proof.
  intros Ht Hk. destruct t as [| | | |l es|l fs] eqn:Ht'; [done|..];
    unfold field; by rewrite tracks_get.
Qed.

Lemma tracks_items h t :
  tracks h (nodes t) → items h (lval t) = lval <$> litems (Some t).
Proof.
  intros Ht. unfold items. rewrite tracks_elems by done.
  by destruct t.
Qed.

(** *** Reads of the old objects *)

Definition agrees (n : nat) (h h0 : heap) : Prop :=
  ∀ l, l < n → h !! l = h0 !! l.

Lemma val_in_ref n l : val_in n (VRef l) = true ↔ l < n.
Proof. simpl. apply bool_decide_eq_true. Qed.

Lemma heap_wf_lookup h l c :
  heap_wf h = true → h !! l = Some c →
  Forall (λ v, val_in (length h) v = true) (cell_vals c).
Proof.
  unfold heap_wf. rewrite forallb_forall. intros Hwf Hl.
  apply list_elem_of_lookup_2, list_elem_of_In, Hwf in Hl.
  apply andb_prop in Hl as [Hl _].
  apply Forall_forall. intros v Hv. rewrite forallb_forall in Hl.
  by apply Hl, list_elem_of_In.
Qed.

Lemma lookup_prop_elem_snd {A} k (ps : list (jsstring * A)) x :
  lookup_prop k ps = Some x → x ∈ ps.*2.
Proof.
  intros Hk%lookup_prop_Some_elem. by apply (list_elem_of_fmap_2 snd) in Hk.
Qed.

Lemma props_vals_cell_vals c x : x ∈ (props_of c).*2 → x ∈ cell_vals c.
Proof. destruct c; simpl; [done|]. rewrite elem_of_app. auto. Qed.

Lemma field_closed h v k : heap_wf h = true → val_in (length h) (field h v k) = true.
Proof.
  intros Hwf. unfold field, get_prop. destruct v as [| | | | |l]; try done.
  destruct (h !! l) as [c|] eqn:Hl; [|done].
  destruct (lookup_prop k (props_of c)) as [x|] eqn:Hk; [|done]. simpl.
  pose proof (heap_wf_lookup _ _ _ Hwf Hl) as Hc.
  rewrite Forall_forall in Hc. apply Hc.
  by eapply props_vals_cell_vals, lookup_prop_elem_snd.
Qed.

Lemma elems_closed h v es :
  heap_wf h = true → elems_of h v = Some es →
  Forall (λ x, val_in (length h) x = true) es.
Proof.
  intros Hwf. unfold elems_of. destruct v as [| | | | |l]; try done.
  destruct (h !! l) as [[ps|es' ps]|] eqn:Hl; try done. intros [= ->].
  pose proof (heap_wf_lookup _ _ _ Hwf Hl) as Hc. simpl in Hc.
  by apply Forall_app in Hc as [? _].
Qed.

Lemma items_closed h v :
  heap_wf h = true → Forall (λ x, val_in (length h) x = true) (items h v).
Proof.
  intros Hwf. unfold items. destruct (elems_of h v) as [es|] eqn:He; simpl.
  - by eapply elems_closed.
  - constructor.
Qed.

Lemma agrees_get h h0 v k :
  agrees (length h0) h h0 → val_in (length h0) v = true →
  get_prop h v k = get_prop h0 v k.
Proof.
  intros Hag Hv. destruct v as [| | | | |l]; try done.
  apply val_in_ref in Hv. simpl. by rewrite Hag.
Qed.

Lemma agrees_elems h h0 v :
  agrees (length h0) h h0 → val_in (length h0) v = true →
  elems_of h v = elems_of h0 v.
Proof.
  intros Hag Hv. destruct v as [| | | | |l]; try done.
  apply val_in_ref in Hv. simpl. by rewrite Hag.
Qed.

Lemma get_closed h v k :
  val_in (length h) v = true → is_nullish v = false →
  get_prop h v k = Ok (field h v k).
Proof.
  intros Hv Hnull. unfold field. destruct v as [| | | | |l]; try done.
  apply val_in_ref, lookup_lt_is_Some in Hv as [c Hc]. simpl. by rewrite Hc.
Qed.

Lemma agrees_get_closed h h0 v k :
  agrees (length h0) h h0 → val_in (length h0) v = true → is_nullish v = false →
  get v k h = Ok (field h0 v k, h).
Proof.
  intros Hag Hv Hnull. apply get_Ok.
  rewrite (agrees_get h h0) by done. by apply get_closed.
Qed.

Lemma agrees_apply_writes n h h0 ws :
  Forall (write_ok n) ws → agrees n h h0 → agrees n (apply_writes ws h) h0.
Proof.
  intros Hws Hag l Hl. rewrite (apply_writes_old n) by done. by apply Hag.
Qed.

Lemma agrees_app h new : agrees (length h) (h ++ new) h.
Proof. intros l Hl. by apply lookup_app_l. Qed.

(** ** The lookup of timing records *)

(** The key under which a timing record enters the lookup, if it enters. *)
Definition normalized_name (h : heap) (inst : val) : option jsstring :=
  if truthy inst then
    match field h inst (str "instanceName") with
    | VStr s => if bool_decide (s = []) then None else Some (trim s)
    | _ => None
    end
  else None.

(** The timing records of a timing model, in source order. *)
Definition records (h : heap) (sdfData : val) : list val :=
  items h (field h sdfData (str "instances")).

Definition matched (h : heap) (k : jsstring) (rec : val) : Prop :=
  val_in (length h) rec = true ∧ is_nullish rec = false
  ∧ record_ok h rec = true ∧ normalized_name h rec = Some k.

Definition map_ok (h : heap) (m : gmap jsstring val) : Prop :=
  ∀ k rec, m !! k = Some rec → matched h k rec.

Lemma truthy_not_nullish v : truthy v = true → is_nullish v = false.
Proof. by destruct v. Qed.

Lemma sdfInstancesMap_set_Ok h m inst :
  val_in (length h) inst = true → record_ok h inst = true →
  sdfInstancesMap_set h m inst =
    Ok (match normalized_name h inst with
        | Some k => <[k := inst]> m
        | None => m
        end).
Proof.
  intros Hin Hok. unfold sdfInstancesMap_set, normalized_name.
  destruct (truthy inst) eqn:Htr; [|done].
  rewrite get_closed by (auto using truthy_not_nullish). simpl.
  unfold mbind, result_bind. simpl.
  apply andb_prop in Hok as [Hname _].
  destruct (field h inst (str "instanceName")) as [| |b|x|s|l]; try done.
  - by destruct b.
  - by destruct (truthy (VNum x)).
  - simpl. by case_bool_decide.
Qed.

Lemma sdfInstancesMap_set_inv h m inst m' :
  sdfInstancesMap_set h m inst = Ok m' →
  m' = match normalized_name h inst with
       | Some k => <[k := inst]> m
       | None => m
       end.
Proof.
  unfold sdfInstancesMap_set, normalized_name.
  destruct (truthy inst) eqn:Htr; [|by intros [= ->]].
  unfold field. destruct (get_prop h inst (str "instanceName")) as [x| |];
    simpl; try done. unfold mbind, result_bind. simpl.
  destruct x as [| |b|x|s|l]; simpl; try (by intros [= ->]).
  - destruct b; simpl; [done|by intros [= ->]].
  - destruct (negb _); simpl; [done|by intros [= ->]].
  - case_bool_decide; simpl; by intros [= ->].
Qed.

Lemma sdfInstancesMap_fill_Ok h m insts :
  Forall (λ x, val_in (length h) x = true) insts →
  forallb (record_ok h) insts = true → map_ok h m →
  ∃ m', sdfInstancesMap_fill h m insts = Ok m' ∧ map_ok h m'.
Proof.
  intros Hin. revert m. induction Hin as [|inst insts Hi _ IH]; intros m Hok Hm.
  - by exists m.
  - simpl in *. apply andb_prop in Hok as [Hok1 Hok2].
    rewrite sdfInstancesMap_set_Ok by done.
    unfold mbind, result_bind. simpl. apply IH; [done|].
    destruct (normalized_name h inst) as [k|] eqn:Hk; [|done].
    intros k' rec. destruct (decide (k = k')) as [->|Hne].
    + rewrite lookup_insert_eq. intros [= <-]. repeat split; try done.
      unfold normalized_name in Hk. destruct (truthy inst) eqn:?; [|done].
      by apply truthy_not_nullish.
    + rewrite lookup_insert_ne by done. apply Hm.
Qed.

Lemma sdfInstancesMap_of_Ok h sdfData :
  heap_wf h = true → timing_ok h sdfData = true →
  ∃ m, sdfInstancesMap_of h sdfData = Ok m ∧ map_ok h m.
Proof.
  intros Hwf Hok. unfold timing_ok in Hok.
  apply andb_prop in Hok as [Hok Hrecs]. apply andb_prop in Hok as [Hnull Hin].
  apply negb_true_iff in Hnull.
  unfold sdfInstancesMap_of. rewrite get_closed by done.
  unfold mbind, result_bind. simpl.
  assert (map_ok h ∅) as Hempty by (by intros k rec; rewrite lookup_empty).
  destruct (truthy _); [|by exists ∅].
  unfold items in Hrecs.
  destruct (elems_of h _) as [es|] eqn:Hes; [|by exists ∅].
  apply sdfInstancesMap_fill_Ok; [by eapply elems_closed|done..].
Qed.

(** Objects added to the store do not change the lookup. *)
Lemma sdfInstancesMap_set_agrees h h0 m inst :
  agrees (length h0) h h0 → val_in (length h0) inst = true →
  sdfInstancesMap_set h m inst = sdfInstancesMap_set h0 m inst.
Proof.
  intros Hag Hin. unfold sdfInstancesMap_set.
  by rewrite (agrees_get h h0).
Qed.

Lemma sdfInstancesMap_fill_agrees h h0 m insts :
  agrees (length h0) h h0 → Forall (λ x, val_in (length h0) x = true) insts →
  sdfInstancesMap_fill h m insts = sdfInstancesMap_fill h0 m insts.
Proof.
  intros Hag Hin. revert m. induction Hin as [|inst insts Hi _ IH]; intros m.
  - done.
  - simpl. rewrite (sdfInstancesMap_set_agrees h h0) by done.
    destruct (sdfInstancesMap_set h0 m inst); simpl; [apply IH|done..].
Qed.

Lemma sdfInstancesMap_of_agrees h h0 sdfData :
  heap_wf h0 = true → agrees (length h0) h h0 →
  val_in (length h0) sdfData = true →
  sdfInstancesMap_of h sdfData = sdfInstancesMap_of h0 sdfData.
Proof.
  intros Hwf Hag Hin. unfold sdfInstancesMap_of.
  rewrite (agrees_get h h0) by done.
  destruct (get_prop h0 sdfData (str "instances")) as [x| |] eqn:Hx; try done.
  unfold mbind, result_bind. simpl. destruct (truthy x); [|done].
  assert (val_in (length h0) x = true) as Hxin.
  { pose proof (field_closed h0 sdfData (str "instances") Hwf) as Hf.
    unfold field in Hf. by rewrite Hx in Hf. }
  rewrite (agrees_elems h h0) by done.
  destruct (elems_of h0 x) as [es|] eqn:Hes; [|done].
  apply sdfInstancesMap_fill_agrees; [done|by eapply elems_closed].
Qed.

(** Every record of the lookup is a record of the timing model, under the
    key made of its [instanceName]. *)
Lemma sdfInstancesMap_fill_lookup h m insts m' :
  sdfInstancesMap_fill h m insts = Ok m' →
  ∀ k rec, m' !! k = Some rec →
    m !! k = Some rec ∨ (normalized_name h rec = Some k ∧ rec ∈ insts).
Proof.
  revert m. induction insts as [|inst insts IH]; intros m; simpl.
  - intros [= ->] k rec Hk. by left.
  - destruct (sdfInstancesMap_set h m inst) as [m1| |] eqn:Hset; try done.
    unfold mbind, result_bind. simpl. intros Hfill k rec Hk.
    destruct (IH _ Hfill k rec Hk) as [Hm1|[Hn Hin]].
    + apply sdfInstancesMap_set_inv in Hset as ->.
      destruct (normalized_name h inst) as [k'|] eqn:Hk'; [|by left].
      destruct (decide (k' = k)) as [->|Hne].
      * rewrite lookup_insert_eq in Hm1. injection Hm1 as ->.
        right. split; [done|apply list_elem_of_here].
      * rewrite lookup_insert_ne in Hm1 by done. by left.
    + right. split; [done|by apply list_elem_of_further].
Qed.

Lemma sdfInstancesMap_of_lookup h sdfData m k rec :
  sdfInstancesMap_of h sdfData = Ok m → m !! k = Some rec →
  normalized_name h rec = Some k ∧ rec ∈ records h sdfData.
Proof.
  unfold sdfInstancesMap_of, records, items, field.
  destruct (get_prop h sdfData (str "instances")) as [x| |]; try done.
  unfold mbind, result_bind. simpl.
  destruct (truthy x); [|by intros [= <-]; rewrite lookup_empty].
  destruct (elems_of h x) as [es|]; [|by intros [= <-]; rewrite lookup_empty].
  intros Hfill Hk.
  destruct (sdfInstancesMap_fill_lookup _ _ _ _ Hfill k rec Hk) as [Hm|?];
    [by rewrite lookup_empty in Hm|done].
Qed.

(** A record is overwritten only by a later record of the same key. *)
Lemma sdfInstancesMap_fill_other h m insts m' k :
  sdfInstancesMap_fill h m insts = Ok m' →
  Forall (λ r, normalized_name h r ≠ Some k) insts →
  m' !! k = m !! k.
Proof.
  intros Hfill Hne. revert m Hfill.
  induction Hne as [|inst insts Hi _ IH]; intros m; simpl.
  - by intros [= ->].
  - destruct (sdfInstancesMap_set h m inst) as [m1| |] eqn:Hset; try done.
    unfold mbind, result_bind. simpl. intros Hfill%IH. rewrite Hfill.
    apply sdfInstancesMap_set_inv in Hset as ->.
    destruct (normalized_name h inst) as [k'|]; [|done].
    apply lookup_insert_ne. congruence.
Qed.

Lemma sdfInstancesMap_fill_last h m pre r post m' k :
  sdfInstancesMap_fill h m (pre ++ r :: post) = Ok m' →
  normalized_name h r = Some k →
  Forall (λ r', normalized_name h r' ≠ Some k) post →
  m' !! k = Some r.
Proof.
  revert m. induction pre as [|p pre IH]; intros m; simpl.
  - destruct (sdfInstancesMap_set h m r) as [m1| |] eqn:Hset; try done.
    unfold mbind, result_bind. simpl. intros Hfill Hk Hpost.
    rewrite (sdfInstancesMap_fill_other _ _ _ _ _ Hfill Hpost).
    apply sdfInstancesMap_set_inv in Hset as ->. rewrite Hk.
    apply lookup_insert_eq.
  - destruct (sdfInstancesMap_set h m p) as [m1| |] eqn:Hset; try done.
    unfold mbind, result_bind. simpl. apply IH.
Qed.

(** ** The loops over the clone *)

(** What holds of the store [h] while the merge runs: the objects of the
    store [h0] it was called with are as they were, the objects [ns] of the
    clone are as [build] made them up to the properties the merge writes,
    and they are new objects. *)
Record inv (h0 : heap) (ns : list (nat * cell)) (h : heap) : Prop := {
  inv_agrees : agrees (length h0) h h0;
  inv_tracks : tracks h ns;
  inv_fresh : ∀ l c, (l, c) ∈ ns → length h0 ≤ l
}.

Lemma inv_apply_writes h0 ns h ws :
  Forall (write_ok (length h0)) ws → inv h0 ns h → inv h0 ns (apply_writes ws h).
Proof.
  intros Hws [Hag Htr Hfr]. split.
  - by apply agrees_apply_writes.
  - by eapply tracks_apply_writes.
  - done.
Qed.

Lemma inv_subseteq h0 ns ns' h : ns' ⊆ ns → inv h0 ns h → inv h0 ns' h.
Proof.
  intros Hsub [Hag Htr Hfr]. split; [done|by eapply tracks_subseteq|].
  intros l c Hin. eapply Hfr, Hsub, Hin.
Qed.

Lemma mret_run {A} (a : A) (h : heap) : (mret a : M A) h = Ok (a, h).
Proof. done. Qed.

Lemma set_do_write h l k x :
  is_Some (h !! l) → set (VRef l) k x h = Ok (tt, do_write h (l, k, x)).
Proof. intros [c Hc]. unfold set, do_write. simpl. by rewrite Hc. Qed.

Lemma truthy_lval t : truthy (lval t) = jtruthy (erase t).
Proof. by destruct t. Qed.

Lemma erase_jobj t : is_jobj (erase t) = true → ∃ l fs, t = LObj l fs.
Proof. destruct t; try done. eauto. Qed.

Lemma str_delay_annotation : str "delay" ∈ annotations.
Proof. unfold annotations. set_solver. Qed.

Lemma str_delays_annotation : str "delays" ∈ annotations.
Proof. unfold annotations. set_solver. Qed.

Lemma str_timingChecks_annotation : str "timingChecks" ∈ annotations.
Proof. unfold annotations. set_solver. Qed.

Lemma matched_truthy h k rec : matched h k rec → truthy rec = true.
Proof.
  intros (_ & _ & _ & Hn). unfold normalized_name in Hn.
  by destruct (truthy rec).
Qed.

Section callbacks.
Context (h0 : heap) (ns : list (nat * cell)).
Context (Hwf : heap_wf h0 = true).

Definition connection_writes (rec : val) (cs : list ltree) : list write :=
  match connection_delay h0 rec with
  | Some d => (λ c, (root_loc c, str "delay", d)) <$> cs
  | None => []
  end.

Lemma connection_writes_ok rec cs :
  Forall (λ c, is_jobj (erase c) = true ∧ root_cell c ⊆ ns) cs →
  (∀ l c, (l, c) ∈ ns → length h0 ≤ l) →
  Forall (write_ok (length h0)) (connection_writes rec cs).
Proof.
  intros Hcs Hfr. unfold connection_writes.
  destruct (connection_delay h0 rec) as [d|]; [|constructor].
  apply Forall_fmap. eapply Forall_impl; [done|].
  intros c [[l [fs ->]]%erase_jobj Hroot]. split.
  - apply str_delay_annotation.
  - simpl. eapply Hfr, Hroot, list_elem_of_here.
Qed.

Lemma annotate_connection_run k rec c h :
  inv h0 ns h → matched h0 k rec →
  is_jobj (erase c) = true → root_cell c ⊆ ns →
  annotate_connection rec (lval c) h
  = Ok (tt, apply_writes (connection_writes rec [c]) h).
Proof.
  intros [Hag Htr Hfr] (Hin & Hnull & Hok & _) [l [fs ->]]%erase_jobj Hroot.
  unfold annotate_connection, connection_writes, connection_delay.
  erewrite bind_Ok by (by apply agrees_get_closed).
  erewrite bind_Ok by (by apply reading_Ok).
  rewrite (agrees_elems h h0) by (done || by apply field_closed).
  apply andb_prop in Hok as [_ Hfirst].
  assert (is_Some (h !! l)) as Hl.
  { destruct (Htr l (Obj (lprops fs))) as (c' & Hc' & _); [|by eauto].
    apply Hroot, list_elem_of_here. }
  destruct (elems_of h0 (field h0 rec (str "delays"))) as [[|first es]|] eqn:He.
  - done.
  - apply negb_true_iff in Hfirst.
    pose proof (elems_closed _ _ _ Hwf He) as Hes.
    apply Forall_cons in Hes as [Hfin _].
    erewrite bind_Ok by (by apply agrees_get_closed).
    by apply set_do_write.
  - destruct (is_number _); [|done]. by apply set_do_write.
Qed.

Lemma forEach_connections_run k rec cs h :
  inv h0 ns h → matched h0 k rec →
  Forall (λ c, is_jobj (erase c) = true ∧ root_cell c ⊆ ns) cs →
  forEach (lval <$> cs) (annotate_connection rec) h
  = Ok (tt, apply_writes (connection_writes rec cs) h).
Proof.
  intros Hinv Hrec Hcs. revert h Hinv.
  induction Hcs as [|c cs [Hc Hroot] Hcs IH]; intros h Hinv.
  - simpl. unfold connection_writes. by destruct (connection_delay h0 rec).
  - simpl. erewrite bind_Ok by (by eapply annotate_connection_run).
    rewrite IH.
    + f_equal. f_equal. rewrite <-apply_writes_app. f_equal.
      unfold connection_writes. by destruct (connection_delay h0 rec).
    + apply inv_apply_writes; [|done].
      apply connection_writes_ok; [|by destruct Hinv].
      by constructor.
Qed.
End callbacks.

Lemma name_not_annotation : str "name" ∉ annotations.
Proof. compute_done. Qed.

Lemma type_not_annotation : str "type" ∉ annotations.
Proof. compute_done. Qed.

Lemma connections_not_annotation : str "connections" ∉ annotations.
Proof. compute_done. Qed.

Lemma instances_not_annotation : str "instances" ∉ annotations.
Proof. compute_done. Qed.

Lemma modules_not_annotation : str "modules" ∉ annotations.
Proof. compute_done. Qed.

Lemma is_str_lget t k s :
  is_str (lget t k) s =
  match lfield t k with
  | Some (LStr s') => bool_decide (s' = s)
  | _ => false
  end.
Proof. unfold lget. by destruct (lfield t k) as [[]|]. Qed.

(** The three shapes of an optional array of the clone. *)
Lemma optional_array_cases check (t : option ltree) :
  optional_array check (erase <$> t) = true →
  t = None
  ∨ (∃ l es, t = Some (LArr l es) ∧ Forall (λ e, check (erase e) = true) es)
  ∨ (∃ t', t = Some t' ∧ truthy (lval t') = false ∧ litems t = []).
Proof.
  intros Hok. destruct t as [t|]; [|by left]. right.
  destruct t as [|b|x|s|l es|l fs]; simpl in Hok.
  - right. by exists LNull.
  - right. exists (LBool b). apply negb_true_iff in Hok. by rewrite truthy_lval.
  - right. exists (LNum x). apply negb_true_iff in Hok. by rewrite truthy_lval.
  - right. exists (LStr s). apply negb_true_iff in Hok. by rewrite truthy_lval.
  - left. exists l, es. split; [done|].
    apply Forall_forall. intros e He. rewrite forallb_forall in Hok.
    apply Hok, list_elem_of_In. by apply list_elem_of_fmap_2.
  - done.
Qed.

Lemma optional_string_cases (t : option ltree) :
  optional_string (erase <$> t) = true →
  (∃ s, t = Some (LStr s) ∧ s ≠ []) ∨ truthy (default VUndef (lval <$> t)) = false.
Proof.
  intros Hok. destruct t as [t|]; [|by right].
  destruct t as [|b|x|s|l es|l fs]; simpl in *; try done.
  - by right.
  - right. by apply negb_true_iff.
  - right. by apply negb_true_iff.
  - destruct (decide (s = [])) as [->|Hs]; [by right|left; eauto].
Qed.

Lemma instance_writes_nameless h m t :
  truthy (lget t (str "name")) = false → instance_writes h m t = [].
Proof.
  unfold instance_writes, lget.
  destruct (lfield t (str "name")) as [[| | |s| |]|]; try done.
  simpl. by case_bool_decide.
Qed.

Section instances.
Context (h0 : heap) (ns : list (nat * cell)) (m : gmap jsstring val).
Context (Hwf : heap_wf h0 = true) (Hm : map_ok h0 m).

Lemma inv_get t k h :
  inv h0 ns h → nodes t ⊆ ns → t ≠ LNull → k ∉ annotations →
  get (lval t) k h = Ok (lget t k, h).
Proof.
  intros Hinv Hsub Hnull Hk. apply get_Ok, tracks_get; [|done..].
  eapply tracks_subseteq; [done|]. by destruct Hinv.
Qed.

Lemma inv_root t l c :
  (∀ h, inv h0 ns h → nodes t ⊆ ns → root_cell t = [(l, c)] →
        is_Some (h !! l) ∧ length h0 ≤ l).
Proof.
  intros h [_ Htr Hfr] Hsub Hroot.
  assert ((l, c) ∈ ns) as Hin.
  { apply Hsub, root_cell_nodes. rewrite Hroot. apply list_elem_of_here. }
  split; [|by eapply Hfr].
  destruct (Htr l c Hin) as (c' & Hc' & _). eauto.
Qed.

(** An array that is a property of an object of the clone. *)
Lemma inv_array_field t k l es h :
  inv h0 ns h → nodes t ⊆ ns → lfield t k = Some (LArr l es) →
  ∃ ps, h !! l = Some (Arr (lval <$> es) ps).
Proof.
  intros [_ Htr _] Hsub Hk.
  assert (tracks h (nodes (LArr l es))) as Htr'.
  { eapply tracks_subseteq; [|done]. intros x Hx. apply Hsub.
    eapply child_subseteq; [by eapply lfield_child|done]. }
  pose proof (tracks_elems h _ Htr') as He. simpl in He.
  destruct (h !! l) as [[ps|es' ps]|]; try done. simplify_eq. eauto.
Qed.

Lemma nodes_field_item t k l es e :
  nodes t ⊆ ns → lfield t k = Some (LArr l es) → e ∈ es → nodes e ⊆ ns.
Proof.
  intros Hsub Hk He x Hx. apply Hsub.
  eapply child_subseteq; [by eapply lfield_child|].
  eapply child_subseteq; [exact He|done].
Qed.

(** The connections of a well-formed instance are objects of the clone. *)
Lemma instance_connections t :
  instance_ok (erase t) = true → nodes t ⊆ ns →
  Forall (λ c, is_jobj (erase c) = true ∧ root_cell c ⊆ ns) (lconnections t).
Proof.
  intros Hok Hsub. unfold instance_ok in Hok.
  apply andb_prop in Hok as [_ Hconns]. rewrite jfield_erase in Hconns.
  unfold lconnections.
  destruct (optional_array_cases _ _ Hconns)
    as [->|[(l & es & Hk & Hes)|(t' & Hk & _ & ->)]]; [constructor| |constructor].
  rewrite Hk. simpl. apply Forall_forall. intros c Hc. split.
  - rewrite Forall_forall in Hes. by apply Hes.
  - intros x Hx. eapply nodes_field_item; [done..|]. by apply root_cell_nodes.
Qed.

Lemma instance_writes_ok t :
  instance_ok (erase t) = true → nodes t ⊆ ns →
  (∀ l c, (l, c) ∈ ns → length h0 ≤ l) →
  Forall (write_ok (length h0)) (instance_writes h0 m t).
Proof.
  intros Hok Hsub Hfr.
  pose proof (instance_connections t Hok Hsub) as Hcs.
  apply andb_prop in Hok as [Hok _]. apply andb_prop in Hok as [Hobj _].
  apply erase_jobj in Hobj as (l & fs & ->).
  assert (length h0 ≤ l) as Hl.
  { eapply Hfr, Hsub, root_cell_nodes, list_elem_of_here. }
  unfold instance_writes.
  destruct (lfield _ (str "name")) as [[| | |s| |]|]; try constructor.
  case_bool_decide; [constructor|].
  destruct (m !! trim s) as [rec|]; [|constructor].
  destruct (is_str _ (str "DFF")).
  { constructor; [split; [apply str_delays_annotation|done]|].
    apply Forall_singleton. split; [apply str_timingChecks_annotation|done]. }
  destruct (is_str _ (str "LUT_K")).
  { apply Forall_singleton. split; [apply str_delays_annotation|done]. }
  destruct (lfield _ (str "type")) as [[| | |ty| |]|]; try constructor.
  case_bool_decide; [|constructor].
  by apply (connection_writes_ok h0 ns).
Qed.

Lemma annotate_instance_run t h :
  inv h0 ns h → instance_ok (erase t) = true → nodes t ⊆ ns →
  annotate_instance m (lval t) h
  = Ok (tt, apply_writes (instance_writes h0 m t) h).
Proof.
  intros Hinv Hok Hsub.
  pose proof (instance_connections t Hok Hsub) as Hcs.
  unfold instance_ok in Hok. apply andb_prop in Hok as [Hok Hconn].
  apply andb_prop in Hok as [Hobj Hname].
  destruct (erase_jobj _ Hobj) as (l & fs & Ht).
  assert (t ≠ LNull) as Hnn by (by rewrite Ht).
  destruct (inv_root t l (Obj (lprops fs)) h) as [Hl Hfresh];
    [done|done|by rewrite Ht|].
  unfold annotate_instance.
  erewrite bind_Ok by (by apply inv_get, name_not_annotation).
  rewrite jfield_erase in Hname.
  destruct (optional_string_cases _ Hname) as [(s & Hn & Hs)|Hfalsy].
  2:{ fold (lget t (str "name")) in Hfalsy. rewrite Hfalsy. simpl.
      by rewrite instance_writes_nameless. }
  unfold instance_writes, lget. rewrite Hn. simpl.
  rewrite !bool_decide_eq_false_2 by done. simpl.
  erewrite bind_Ok by (by apply reading_Ok).
  destruct (m !! trim s) as [rec|] eqn:Hrec; simpl; [|done].
  pose proof (Hm _ _ Hrec) as Hmatched.
  rewrite (matched_truthy _ _ _ Hmatched).
  destruct Hmatched as (Hin & Hnull & Hrok & Hnorm).
  erewrite bind_Ok by (by apply agrees_get_closed; [destruct Hinv|..]).
  destruct (is_str _ (str "DFF")) eqn:Hdff.
  { erewrite bind_Ok by (by apply agrees_get_closed; [destruct Hinv|..]).
    subst t. cbn [lval root_loc].
    erewrite bind_Ok by (by apply set_do_write).
    assert (inv h0 ns (do_write h (l, str "delays", field h0 rec (str "delays"))))
      as Hinv'.
    { apply (inv_apply_writes h0 ns h [_]); [|done].
      apply Forall_singleton. split; [apply str_delays_annotation|done]. }
    erewrite bind_Ok by (by apply agrees_get_closed; [destruct Hinv'|..]).
    rewrite set_do_write; [done|].
    rewrite do_write_lookup. destruct Hl as [c ->]. simpl. eauto. }
  destruct (is_str _ (str "LUT_K")) eqn:Hlut.
  { erewrite bind_Ok by (by apply agrees_get_closed; [destruct Hinv|..]).
    subst t. cbn [lval root_loc]. by rewrite set_do_write. }
  erewrite bind_Ok by (by apply inv_get, type_not_annotation).
  rewrite is_str_lget.
  destruct (lfield t (str "type")) as [[| | |ty| |]|]; try done.
  case_bool_decide; [|done].
  erewrite bind_Ok by (by apply inv_get, connections_not_annotation).
  rewrite jfield_erase in Hconn. unfold lget, lconnections in *.
  destruct (optional_array_cases _ _ Hconn)
    as [Hk|[(lc & cs & Hk & Hes)|(t' & Hk & Hfalsy & Hitems)]].
  - rewrite Hk. simpl. unfold connection_writes in *.
    by destruct (connection_delay h0 rec).
  - destruct (inv_array_field t _ lc cs h Hinv Hsub Hk) as [ps Hlc].
    rewrite Hk in *. simpl. unfold call_forEach. rewrite Hlc.
    by eapply forEach_connections_run.
  - rewrite Hitems. rewrite Hk. simpl. rewrite Hfalsy.
    by destruct (connection_delay h0 rec).
Qed.
End instances.

Section loops.
Context (h0 : heap) (ns : list (nat * cell)) (m : gmap jsstring val).
Context (Hwf : heap_wf h0 = true) (Hm : map_ok h0 m).

(** A [forEach] whose callback does a list of writes for each element
    does the writes for all elements in order. *)
Lemma forEach_run (f : val → M unit) (w : ltree → list write)
    (P : ltree → Prop) ts h :
  (∀ t h', P t → inv h0 ns h' →
     f (lval t) h' = Ok (tt, apply_writes (w t) h')
     ∧ Forall (write_ok (length h0)) (w t)) →
  Forall P ts → inv h0 ns h →
  forEach (lval <$> ts) f h = Ok (tt, apply_writes (concat (w <$> ts)) h)
  ∧ Forall (write_ok (length h0)) (concat (w <$> ts)).
Proof.
  intros Hf Hts. revert h. induction Hts as [|t ts Ht _ IH]; intros h Hinv.
  - by split; [|constructor].
  - simpl. destruct (Hf t h Ht Hinv) as [Hrun Hws].
    erewrite bind_Ok by done.
    destruct (IH (apply_writes (w t) h)) as [IH1 Hws'].
    { by apply inv_apply_writes. }
    split; [|by apply Forall_app].
    rewrite apply_writes_app. exact IH1.
Qed.

Lemma module_instances t :
  module_ok (erase t) = true → nodes t ⊆ ns →
  Forall (λ ti, instance_ok (erase ti) = true ∧ nodes ti ⊆ ns)
         (litems (lfield t (str "instances"))).
Proof.
  intros Hok Hsub. unfold module_ok in Hok.
  apply andb_prop in Hok as [_ Hinsts]. rewrite jfield_erase in Hinsts.
  destruct (optional_array_cases _ _ Hinsts)
    as [->|[(l & es & Hk & Hes)|(t' & Hk & _ & ->)]]; [constructor| |constructor].
  rewrite Hk. simpl. apply Forall_forall. intros ti Hti. split.
  - rewrite Forall_forall in Hes. by apply Hes.
  - by eapply nodes_field_item.
Qed.

Lemma forEach_instances_run t h :
  inv h0 ns h → module_ok (erase t) = true → nodes t ⊆ ns →
  forEach (lval <$> litems (lfield t (str "instances")))
          (annotate_instance m) h
  = Ok (tt, apply_writes (module_writes h0 m t) h)
  ∧ Forall (write_ok (length h0)) (module_writes h0 m t).
Proof.
  intros Hinv Hok Hsub. eapply forEach_run; [|by apply module_instances|done].
  intros ti h' [Hti Hsubi] Hinv'. split.
  - by apply (annotate_instance_run h0 ns).
  - eapply (instance_writes_ok h0 ns); [done..|]. by destruct Hinv'.
Qed.

Lemma annotate_module_run t h :
  inv h0 ns h → module_ok (erase t) = true → nodes t ⊆ ns →
  annotate_module m (lval t) h = Ok (tt, apply_writes (module_writes h0 m t) h)
  ∧ Forall (write_ok (length h0)) (module_writes h0 m t).
Proof.
  intros Hinv Hok Hsub.
  destruct (forEach_instances_run t h Hinv Hok Hsub) as [Hrun Hws].
  split; [|done].
  unfold module_ok in Hok. apply andb_prop in Hok as [Hobj Hshape].
  destruct (erase_jobj _ Hobj) as (l & fs & Ht).
  assert (t ≠ LNull) as Hnn by (by rewrite Ht).
  unfold annotate_module.
  erewrite bind_Ok by (by eapply inv_get, instances_not_annotation).
  erewrite bind_Ok by (by apply reading_Ok).
  rewrite jfield_erase in Hshape. unfold lget, module_writes in *.
  destruct (optional_array_cases _ _ Hshape)
    as [Hk|[(la & tis & Hk & Hes)|(t' & Hk & Hfalsy & Hitems)]].
  - by rewrite Hk.
  - destruct (inv_array_field h0 ns t _ la tis h Hinv Hsub Hk) as [ps Hla].
    rewrite Hk in *. simpl in *. unfold is_array, call_forEach. simpl.
    rewrite Hla, bool_decide_eq_true_2 by eauto. cbv beta. by rewrite Hla.
  - rewrite Hitems. rewrite Hk. simpl. by rewrite Hfalsy.
Qed.

(** *** The counting pass reads and does not write *)

Lemma some_delay_run cs h :
  inv h0 ns h →
  Forall (λ c, is_jobj (erase c) = true ∧ root_cell c ⊆ ns) cs →
  ∃ b, some (lval <$> cs) (λ c, d ← get c (str "delay"); mret (truthy d)) h
       = Ok (b, h).
Proof.
  intros Hinv Hcs. induction Hcs as [|c cs [Hc Hroot] _ [b IH]]; simpl.
  - by exists false.
  - apply erase_jobj in Hc as (l & fs & ->).
    destruct Hinv as [_ Htr _].
    destruct (Htr l (Obj (lprops fs))) as (c' & Hc' & _).
    { apply Hroot, list_elem_of_here. }
    assert (get (VRef l) (str "delay") h
            = Ok (default VUndef (lookup_prop (str "delay") (props_of c')), h))
      as Hget.
    { apply get_Ok. simpl. by rewrite Hc'. }
    erewrite bind_Ok by (by erewrite bind_Ok by done).
    destruct (truthy _); eauto.
Qed.

Lemma has_delay_run t h :
  inv h0 ns h → instance_ok (erase t) = true → nodes t ⊆ ns →
  ∃ b, has_delay (lval t) h = Ok (b, h).
Proof.
  intros Hinv Hok Hsub.
  pose proof (instance_connections ns t Hok Hsub) as Hcs.
  unfold instance_ok in Hok. apply andb_prop in Hok as [Hok Hconn].
  apply andb_prop in Hok as [Hobj _].
  destruct (erase_jobj _ Hobj) as (l & fs & Ht).
  assert (t ≠ LNull) as Hnn by (by rewrite Ht).
  assert (tracks h (nodes t)) as Htr.
  { destruct Hinv as [_ Htr _]. by eapply tracks_subseteq. }
  destruct (tracks_get_any h t (str "delays") Htr Hnn) as [d Hd].
  unfold has_delay.
  erewrite bind_Ok by (by apply get_Ok).
  destruct (truthy d); [by eexists|].
  erewrite bind_Ok by (by eapply inv_get, connections_not_annotation).
  rewrite jfield_erase in Hconn. unfold lget, lconnections in *.
  destruct (optional_array_cases _ _ Hconn)
    as [Hk|[(lc & cs & Hk & Hes)|(t' & Hk & Hfalsy & Hitems)]].
  - rewrite Hk. by eexists.
  - destruct (inv_array_field h0 ns t _ lc cs h Hinv Hsub Hk) as [ps Hlc].
    rewrite Hk in *. simpl in *. unfold call_some. rewrite Hlc.
    by apply some_delay_run.
  - rewrite Hk. simpl. rewrite Hfalsy. by eexists.
Qed.

Lemma count_instance_run t h :
  inv h0 ns h → instance_ok (erase t) = true → nodes t ⊆ ns →
  count_instance (lval t) h = Ok (tt, h).
Proof.
  intros Hinv Hok Hsub.
  destruct (has_delay_run t h Hinv Hok Hsub) as [b Hb].
  unfold count_instance. by erewrite bind_Ok by done.
Qed.

Lemma count_module_run t h :
  inv h0 ns h → module_ok (erase t) = true → nodes t ⊆ ns →
  count_module (lval t) h = Ok (tt, h).
Proof.
  intros Hinv Hok Hsub.
  pose proof (module_instances t Hok Hsub) as Hinsts.
  assert (forEach (lval <$> litems (lfield t (str "instances")))
            count_instance h = Ok (tt, h)) as Hrun.
  { clear Hok. induction Hinsts as [|ti tis [Hti Hsubi] _ IH]; [done|].
    simpl. by erewrite bind_Ok by (by apply count_instance_run). }
  unfold module_ok in Hok. apply andb_prop in Hok as [Hobj Hshape].
  destruct (erase_jobj _ Hobj) as (l & fs & Ht).
  assert (t ≠ LNull) as Hnn by (by rewrite Ht).
  unfold count_module.
  erewrite bind_Ok by (by eapply inv_get, instances_not_annotation).
  rewrite jfield_erase in Hshape. unfold lget in *.
  destruct (optional_array_cases _ _ Hshape)
    as [Hk|[(la & tis & Hk & Hes)|(t' & Hk & Hfalsy & Hitems)]].
  - by rewrite Hk.
  - destruct (inv_array_field h0 ns t _ la tis h Hinv Hsub Hk) as [ps Hla].
    rewrite Hk in *. simpl in *. unfold call_forEach. by rewrite Hla.
  - rewrite Hk. simpl. by rewrite Hfalsy.
Qed.

Lemma forEach_count_run ts h :
  inv h0 ns h →
  Forall (λ t, module_ok (erase t) = true ∧ nodes t ⊆ ns) ts →
  forEach (lval <$> ts) count_module h = Ok (tt, h).
Proof.
  intros Hinv Hts. induction Hts as [|t ts [Hok Hsub] _ IH]; [done|].
  simpl. by erewrite bind_Ok by (by apply count_module_run).
Qed.

Lemma forEach_modules_run ts h :
  inv h0 ns h →
  Forall (λ t, module_ok (erase t) = true ∧ nodes t ⊆ ns) ts →
  forEach (lval <$> ts) (annotate_module m) h
  = Ok (tt, apply_writes (concat (module_writes h0 m <$> ts)) h)
  ∧ Forall (write_ok (length h0)) (concat (module_writes h0 m <$> ts)).
Proof.
  intros Hinv Hts. eapply forEach_run; [|done..].
  intros t h' [Hok Hsub] Hinv'. by apply annotate_module_run.
Qed.
End loops.

(** ** Where the writes go *)

Lemma fmap_concat {A B} (f : A → B) (ls : list (list A)) :
  f <$> concat ls = concat ((λ l : list A, f <$> l) <$> ls).
Proof.
  induction ls as [|l ls IH]; [done|].
  rewrite fmap_cons. simpl. by rewrite fmap_app, IH.
Qed.

Lemma elem_of_concat {A} (x : A) (ls : list (list A)) l :
  l ∈ ls → x ∈ l → x ∈ concat ls.
Proof.
  intros Hl Hx. apply list_elem_of_In, in_concat. exists l.
  by rewrite <-!list_elem_of_In.
Qed.

Lemma locs_children t :
  locs t = concat (locs <$> children t) ++ (root_cell t).*1.
Proof.
  unfold locs. rewrite nodes_children, fmap_app, fmap_concat.
  by rewrite <-list_fmap_compose.
Qed.

Lemma child_locs_sublist t t' : t' ∈ children t → locs t' `sublist_of` locs t.
Proof. intros Hin. unfold locs. by apply fmap_sublist, child_sublist. Qed.

Lemma root_loc_in_locs t : is_jobj (erase t) = true → root_loc t ∈ locs t.
Proof.
  intros (l & fs & ->)%erase_jobj. rewrite locs_children. simpl.
  apply elem_of_app. right. apply list_elem_of_here.
Qed.

Lemma root_loc_not_in_children t l :
  NoDup (locs t) → (root_cell t).*1 = [l] → l ∉ concat (locs <$> children t).
Proof.
  rewrite locs_children. intros [_ [Hdisj _]]%NoDup_app Hroot Hin.
  apply (Hdisj l Hin). rewrite Hroot. apply list_elem_of_here.
Qed.

Definition lands_in (L : list nat) (ws : list write) : Prop :=
  Forall (λ w : write, w.1.1 ∈ L) ws.

Lemma lands_in_sublist L L' ws : L `sublist_of` L' → lands_in L ws → lands_in L' ws.
Proof.
  intros Hsub Hws. eapply Forall_impl; [done|].
  intros w Hw. simpl in *. eapply elem_of_sublist; [exact Hw|exact Hsub].
Qed.

Lemma lands_in_concat (w : ltree → list write) ts :
  Forall (λ t, lands_in (locs t) (w t)) ts →
  lands_in (concat (locs <$> ts)) (concat (w <$> ts)).
Proof.
  induction 1 as [|t ts Ht _ IH]; simpl; [constructor|].
  apply Forall_app. split.
  - eapply lands_in_sublist; [|done]. by apply sublist_inserts_r.
  - eapply lands_in_sublist; [|done]. by apply sublist_inserts_l.
Qed.

Lemma writes_at_notin L ws l : lands_in L ws → l ∉ L → writes_at l ws = [].
Proof.
  intros Hws Hl. induction Hws as [|[[l' k] x] ws Hw _ IH]; [done|].
  unfold writes_at in *. simpl in *.
  rewrite bool_decide_eq_false_2; [done|]. by intros ->.
Qed.

(** Trees with disjoint objects: the writes to an object of one of them are
    those of its tree. *)
Lemma writes_at_concat (w : ltree → list write) ts i t l :
  NoDup (concat (locs <$> ts)) →
  Forall (λ t, lands_in (locs t) (w t)) ts →
  ts !! i = Some t → l ∈ locs t →
  writes_at l (concat (w <$> ts)) = writes_at l (w t).
Proof.
  intros Hnd Hws. revert i.
  induction Hws as [|t0 ts Ht0 Hts IH]; intros i Hi Hl; [done|].
  rewrite !fmap_cons, !concat_cons in *.
  apply NoDup_app in Hnd as (_ & Hdisj & Hnd).
  rewrite writes_at_app. destruct i as [|i].
  - injection Hi as ->.
    rewrite (writes_at_notin _ (concat (w <$> ts)) l (lands_in_concat w ts Hts)).
    + by rewrite app_nil_r.
    + by apply Hdisj.
  - rewrite lookup_cons_ne_0 in Hi by done. simpl in Hi.
    rewrite (writes_at_notin _ _ l Ht0); [by eapply IH|].
    intros Hl0. apply (Hdisj l Hl0).
    apply (elem_of_concat _ _ (locs t)); [|done].
    apply list_elem_of_fmap_2. by eapply list_elem_of_lookup_2.
Qed.

Lemma instance_writes_lands h m t :
  instance_ok (erase t) = true → lands_in (locs t) (instance_writes h m t).
Proof.
  intros Hok.
  pose proof (instance_connections (nodes t) t Hok (reflexivity _)) as Hcs.
  unfold instance_ok in Hok. apply andb_prop in Hok as [Hok _].
  apply andb_prop in Hok as [Hobj _]. apply root_loc_in_locs in Hobj.
  unfold instance_writes.
  destruct (lfield _ (str "name")) as [[| | |s| |]|]; try constructor.
  case_bool_decide; [constructor|].
  destruct (m !! trim s) as [rec|]; [|constructor].
  destruct (is_str _ (str "DFF")); [by repeat constructor|].
  destruct (is_str _ (str "LUT_K")); [by repeat constructor|].
  destruct (lfield _ (str "type")) as [[| | |ty| |]|]; try constructor.
  case_bool_decide; [|constructor].
  destruct (connection_delay h rec) as [d|]; [|constructor].
  apply Forall_fmap. eapply Forall_impl; [done|].
  intros c [Hc Hroot]. simpl.
  apply erase_jobj in Hc as (l & fs & ->). simpl.
  apply (list_elem_of_fmap_2 fst (nodes t) (l, Obj (lprops fs))).
  apply Hroot, list_elem_of_here.
Qed.

Lemma module_writes_lands h m t :
  module_ok (erase t) = true → lands_in (locs t) (module_writes h m t).
Proof.
  intros Hok.
  pose proof (module_instances (nodes t) t Hok (reflexivity _)) as Hinsts.
  unfold module_writes. unfold lands_in. apply Forall_concat, Forall_fmap.
  eapply Forall_impl; [done|]. intros ti [Hti Hsub]. simpl.
  eapply Forall_impl; [by apply instance_writes_lands|].
  intros w Hw. simpl in Hw.
  apply list_elem_of_fmap in Hw as ([l c] & -> & Hin).
  apply (list_elem_of_fmap_2 fst). by apply Hsub.
Qed.

(** ** The run of the merge *)

Lemma lookup_built h j l c :
  (l, c) ∈ nodes (locate j (length h)) →
  (h ++ (nodes (locate j (length h))).*2) !! l = Some c ∧ length h ≤ l.
Proof.
  intros [i Hi]%list_elem_of_lookup_1.
  assert (locs (locate j (length h)) !! i = Some l) as Hl.
  { unfold locs. by rewrite list_lookup_fmap, Hi. }
  rewrite locs_locate in Hl. apply lookup_seq in Hl as [-> Hlt].
  split; [|lia].
  rewrite lookup_app_r by lia.
  replace (length h + i - length h) with i by lia.
  by rewrite list_lookup_fmap, Hi.
Qed.

Lemma inv_built h j :
  inv h (nodes (locate j (length h))) (h ++ (nodes (locate j (length h))).*2).
Proof.
  split.
  - apply agrees_app.
  - intros l c Hin. exists c. split; [by apply lookup_built|apply cell_sim_refl].
  - intros l c Hin. by apply lookup_built in Hin as [_ ?].
Qed.

(** The shape of a netlist. *)
Lemma netlist_shape t :
  netlist_ok (erase t) = true →
  ∃ lm fsm, lfield t (str "modules") = Some (LObj lm fsm)
            ∧ is_jobj (erase t) = true
            ∧ Forall (λ tm, module_ok (erase tm) = true) fsm.*2.
Proof.
  unfold netlist_ok. rewrite jfield_erase.
  destruct (lfield t (str "modules")) as [[| | | | |lm fsm]|] eqn:Hm; try done.
  simpl. intros Hok. exists lm, fsm. split; [done|]. split.
  - by destruct t.
  - apply Forall_forall. intros tm Htm. rewrite forallb_forall in Hok.
    apply Hok, list_elem_of_In.
    apply list_elem_of_fmap in Htm as (kt & -> & Hkt).
    apply list_elem_of_fmap. exists (kt.1, erase kt.2). split; [done|].
    apply list_elem_of_fmap. by exists kt.
Qed.

Lemma NoDup_sub_locs t t' : NoDup (locs t) → t' ∈ children t → NoDup (locs t').
Proof. intros Hnd Hin. eapply sublist_NoDup; [done|by apply child_locs_sublist]. Qed.

Lemma NoDup_children_locs t :
  NoDup (locs t) → NoDup (concat (locs <$> children t)).
Proof. rewrite locs_children. by intros [? _]%NoDup_app. Qed.

Section run.
Context (h : heap) (sdfData : val) (jn : json).
Context (Hwf : heap_wf h = true) (Htiming : timing_ok h sdfData = true).
Context (Hnet : netlist_ok jn = true).

(** The clone and the store right after [JSON.parse]. *)
Definition clone : ltree := locate jn (length h).
Definition cloned : heap := h ++ (nodes clone).*2.

Lemma clone_modules :
  ∃ lm fsm, lfield clone (str "modules") = Some (LObj lm fsm)
            ∧ is_jobj (erase clone) = true
            ∧ Forall (λ tm, module_ok (erase tm) = true ∧ nodes tm ⊆ nodes clone)
                     fsm.*2.
Proof.
  destruct (netlist_shape clone) as (lm & fsm & Hm & Hobj & Hmods).
  { unfold clone. by rewrite erase_locate. }
  exists lm, fsm. split; [done|]. split; [done|].
  apply Forall_forall. intros tm Htm. split.
  - rewrite Forall_forall in Hmods. by apply Hmods.
  - intros x Hx. eapply child_subseteq; [by eapply lfield_child|].
    eapply child_subseteq; [exact Htm|done].
Qed.

Lemma NoDup_clone : NoDup (locs clone).
Proof. apply NoDup_locs_locate. Qed.

(** No write goes to the object [modules]. *)
Lemma writes_at_modules m lm fsm :
  lfield clone (str "modules") = Some (LObj lm fsm) →
  Forall (λ tm, module_ok (erase tm) = true) fsm.*2 →
  writes_at lm (netlist_writes h m clone) = [].
Proof.
  intros Hm Hmods. unfold netlist_writes. rewrite Hm. simpl.
  eapply writes_at_notin.
  - apply lands_in_concat. eapply Forall_impl; [done|].
    intros tm Htm. by apply module_writes_lands.
  - apply (root_loc_not_in_children (LObj lm fsm)); [|done].
    eapply NoDup_sub_locs; [apply NoDup_clone|by eapply lfield_child].
Qed.

Lemma merge_run verilogData :
  stringify h verilogData = Ok (Some jn) →
  ∃ m, sdfInstancesMap_of h sdfData = Ok m ∧ map_ok h m
       ∧ mergeJsonForD3 verilogData sdfData h
         = Ok (lval clone, apply_writes (netlist_writes h m clone) cloned).
Proof.
  intros Hjson.
  destruct (sdfInstancesMap_of_Ok h sdfData Hwf Htiming) as (m & Hmap & Hm).
  exists m. split; [done|]. split; [done|].
  destruct clone_modules as (lm & fsm & Hmods & Hobj & Hms).
  pose proof (inv_built h jn) as Hinv. fold clone in Hinv. fold cloned in Hinv.
  assert (clone ≠ LNull) as Hnn.
  { intros Hc. by rewrite Hc in Hobj. }
  unfold mergeJsonForD3.
  erewrite bind_Ok by (by apply reading_Ok).
  erewrite bind_Ok by (simpl; by rewrite build_locate).
  fold clone. fold cloned.
  erewrite bind_Ok.
  2:{ apply reading_Ok. rewrite (sdfInstancesMap_of_agrees _ h); [done..| |].
      - apply agrees_app.
      - unfold timing_ok in Htiming. apply andb_prop in Htiming as [Ht _].
        by apply andb_prop in Ht as [_ ?]. }
  erewrite bind_Ok by (by eapply inv_get, modules_not_annotation).
  unfold lget. rewrite Hmods. simpl.
  assert ((lm, Obj (lprops fsm)) ∈ nodes clone) as Hlm.
  { eapply child_subseteq; [by eapply lfield_child|].
    apply root_cell_nodes, list_elem_of_here. }
  assert (values_of cloned (VRef lm) = Ok (lval <$> fsm.*2)) as Hvalues.
  { simpl. unfold cloned, clone. apply lookup_built in Hlm as [-> _].
    unfold lprops. by rewrite <-!list_fmap_compose. }
  erewrite bind_Ok by (by apply reading_Ok).
  destruct (forEach_modules_run h (nodes clone) m Hwf Hm fsm.*2 cloned Hinv Hms)
    as [Hrun Hws].
  erewrite bind_Ok by done.
  assert (inv h (nodes clone)
            (apply_writes (concat (module_writes h m <$> fsm.*2)) cloned))
    as Hinv' by (by apply inv_apply_writes).
  erewrite bind_Ok by (by eapply inv_get, modules_not_annotation).
  unfold lget. rewrite Hmods. simpl.
  assert (values_of (apply_writes (concat (module_writes h m <$> fsm.*2)) cloned)
            (VRef lm) = Ok (lval <$> fsm.*2)) as Hvalues'.
  { simpl. rewrite apply_writes_lookup.
    unfold cloned, clone in *. apply lookup_built in Hlm as [-> _]. simpl.
    pose proof (writes_at_modules m lm fsm Hmods) as Hnone.
    unfold netlist_writes, clone in Hnone. rewrite Hmods in Hnone.
    simpl in Hnone. rewrite Hnone.
    - simpl. unfold lprops. by rewrite <-!list_fmap_compose.
    - eapply Forall_impl; [done|]. by intros tm [? _]. }
  erewrite bind_Ok by (by apply reading_Ok).
  erewrite bind_Ok by (by apply (forEach_count_run h (nodes clone))).
  unfold netlist_writes. by rewrite Hmods.
Qed.
End run.

(** ** Reading the result *)

(** The own property [k] of the object [v], if it has one. *)
Definition own (h : heap) (v : val) (k : jsstring) : option val :=
  match v with
  | VRef l => c ← h !! l; lookup_prop k (props_of c)
  | _ => None
  end.

(** The object [v] is in [h'] what it is in [h]. *)
Definition same_object (h h' : heap) (v : val) : Prop :=
  match v with
  | VRef l => h' !! l = h !! l
  | _ => True
  end.

(** [sdfInstancesMap.get(k)] for the lookup built from [sdfData]. *)
Definition sdfInstancesMap_get (h : heap) (sdfData : val) (k : jsstring)
  : option val :=
  match sdfInstancesMap_of h sdfData with
  | Ok m => m !! k
  | _ => None
  end.

Lemma field_own h v k : field h v k = default VUndef (own h v k).
Proof.
  unfold field, own, get_prop. destruct v as [| | | | |l]; try done.
  by destruct (h !! l).
Qed.

Lemma tracks_items_field h t k :
  tracks h (nodes t) → k ∉ annotations →
  items h (field h (lval t) k) = lval <$> litems (lfield t k).
Proof.
  intros Htr Hk. rewrite tracks_field by done. unfold lget.
  destruct (lfield t k) as [t'|] eqn:Hk'; [|done]. simpl.
  apply tracks_items. eapply tracks_subseteq; [|done].
  eapply child_subseteq. by eapply lfield_child.
Qed.

Section result.
Context (h : heap) (sdfData : val) (jn : json) (m : gmap jsstring val).
Context (Hwf : heap_wf h = true) (Hnet : netlist_ok jn = true).
Context (Hm : map_ok h m).

Local Abbreviation lt := (clone h jn).
Local Abbreviation h1 := (cloned h jn).

(** The store when the merge returns. *)
Definition merged : heap := apply_writes (netlist_writes h m lt) h1.

Lemma netlist_writes_ok :
  Forall (write_ok (length h)) (netlist_writes h m lt).
Proof.
  destruct (clone_modules h jn Hnet) as (lm & fsm & Hmods & Hobj & Hms).
  unfold netlist_writes. rewrite Hmods. simpl.
  by destruct (forEach_modules_run h (nodes lt) m Hwf Hm fsm.*2 h1
                 (inv_built h jn) Hms) as [_ Hws].
Qed.

Lemma inv_merged : inv h (nodes lt) merged.
Proof.
  apply inv_apply_writes; [apply netlist_writes_ok|apply inv_built].
Qed.

Lemma merged_old l : l < length h → merged !! l = h !! l.
Proof. intros Hl. by apply inv_merged. Qed.

(** An object of the lt when the merge returns. *)
Lemma merged_node l c :
  (l, c) ∈ nodes lt →
  merged !! l
  = Some (with_props c (assign_all (writes_at l (netlist_writes h m lt))
                                   (props_of c))).
Proof.
  intros Hin. unfold merged. rewrite apply_writes_lookup.
  unfold cloned, clone.
  by apply lookup_built in Hin as [-> _].
Qed.

Lemma merged_unwritten l c :
  (l, c) ∈ nodes lt → writes_at l (netlist_writes h m lt) = [] →
  merged !! l = h1 !! l.
Proof.
  intros Hin Hnone. rewrite (merged_node l c) by done. rewrite Hnone. simpl.
  unfold cloned, clone.
  apply lookup_built in Hin as [-> _]. by destruct c.
Qed.

Section instance.
Context (mi i : nat) (ti : ltree).
Context (Hti : linstance lt mi i = Some ti).

Lemma linstance_module :
  ∃ lm fsm tm,
    lfield lt (str "modules") = Some (LObj lm fsm)
    ∧ fsm.*2 !! mi = Some tm
    ∧ litems (lfield tm (str "instances")) !! i = Some ti
    ∧ module_ok (erase tm) = true ∧ tm ∈ children (LObj lm fsm).
Proof.
  destruct (clone_modules h jn Hnet) as (lm & fsm & Hmods & Hobj & Hms).
  unfold linstance in Hti. rewrite Hmods in Hti. simpl in Hti.
  destruct (fsm.*2 !! mi) as [tm|] eqn:Hmi; [|done]. simpl in Hti.
  exists lm, fsm, tm. repeat split; try done.
  - rewrite Forall_forall in Hms.
    apply list_elem_of_lookup_2 in Hmi. by apply Hms in Hmi as [? _].
  - simpl. by eapply list_elem_of_lookup_2.
Qed.

Lemma instance_in_module tm :
  litems (lfield tm (str "instances")) !! i = Some ti →
  ∃ la tis, lfield tm (str "instances") = Some (LArr la tis)
            ∧ tis !! i = Some ti.
Proof.
  destruct (lfield tm (str "instances")) as [[| | | |la tis|]|]; try done.
  simpl. eauto.
Qed.

Lemma instance_nodes : nodes ti ⊆ nodes lt.
Proof.
  destruct linstance_module as (lm & fsm & tm & Hmods & Hmi & Hi & Hok & Htm).
  destruct (instance_in_module tm Hi) as (la & tis & Hla & Htis).
  intros x Hx.
  eapply child_subseteq; [by eapply lfield_child|].
  eapply child_subseteq; [exact Htm|].
  eapply child_subseteq; [by eapply lfield_child|].
  eapply child_subseteq; [|done]. simpl. by eapply list_elem_of_lookup_2.
Qed.

Lemma instance_ok_clone : instance_ok (erase ti) = true.
Proof.
  destruct linstance_module as (lm & fsm & tm & Hmods & Hmi & Hi & Hok & Htm).
  pose proof (module_instances (nodes tm) tm Hok (reflexivity _)) as Hinsts.
  rewrite Forall_forall in Hinsts.
  apply list_elem_of_lookup_2 in Hi. by apply Hinsts in Hi as [? _].
Qed.

(** The writes to an object of an instance are those of the callback
    for that instance. *)
Lemma writes_at_instance l :
  l ∈ locs ti →
  writes_at l (netlist_writes h m lt) = writes_at l (instance_writes h m ti).
Proof.
  intros Hl.
  destruct linstance_module as (lm & fsm & tm & Hmods & Hmi & Hi & Hok & Htm).
  destruct (instance_in_module tm Hi) as (la & tis & Hla & Htis).
  destruct (clone_modules h jn Hnet) as (lm' & fsm' & Hmods' & Hobj & Hms).
  rewrite Hmods in Hmods'. simplify_eq.
  assert (NoDup (locs (LObj lm' fsm'))) as Hnd.
  { eapply NoDup_sub_locs; [apply NoDup_clone|by eapply lfield_child]. }
  assert (NoDup (locs tm)) as Hndm by (by eapply NoDup_sub_locs).
  assert (NoDup (locs (LArr la tis))) as Hnda.
  { eapply NoDup_sub_locs; [done|by eapply lfield_child]. }
  assert (l ∈ locs (LArr la tis)) as Hl'.
  { eapply elem_of_sublist; [done|]. apply child_locs_sublist.
    simpl. by eapply list_elem_of_lookup_2. }
  assert (l ∈ locs tm) as Hl''.
  { eapply elem_of_sublist; [done|]. apply child_locs_sublist.
    by eapply lfield_child. }
  unfold netlist_writes. rewrite Hmods. simpl.
  rewrite (writes_at_concat _ _ mi tm l); try done.
  - unfold module_writes. rewrite Hla. simpl.
    rewrite (writes_at_concat _ _ i ti l); try done.
    + by apply (NoDup_children_locs (LArr la tis)).
    + pose proof (module_instances (nodes tm) tm Hok (reflexivity _)) as Hinsts.
      rewrite Hla in Hinsts. simpl in Hinsts.
      eapply Forall_impl; [done|]. intros t [Ht _].
      by apply instance_writes_lands.
  - by apply (NoDup_children_locs (LObj lm' fsm')).
  - eapply Forall_impl; [done|]. intros t [Ht _].
    by apply module_writes_lands.
Qed.

Lemma instance_at_merged :
  instance_at merged (lval lt) mi i = Some (lval ti).
Proof.
  destruct linstance_module as (lm & fsm & tm & Hmods & Hmi & Hi & Hok & Htm).
  pose proof inv_merged as [_ Htr _].
  unfold instance_at.
  rewrite tracks_field by (done || apply modules_not_annotation).
  unfold lget. rewrite Hmods. simpl.
  assert ((lm, Obj (lprops fsm)) ∈ nodes lt) as Hlm.
  { eapply child_subseteq; [by eapply lfield_child|].
    apply root_cell_nodes, list_elem_of_here. }
  unfold members. simpl. rewrite (merged_unwritten lm _ Hlm).
  2:{ apply (writes_at_modules h jn m lm fsm Hmods).
      destruct (clone_modules h jn Hnet) as (lm' & fsm' & Hmods' & _ & Hms).
      rewrite Hmods in Hmods'. simplify_eq.
      eapply Forall_impl; [done|]. by intros t [? _]. }
  unfold cloned, clone.
  apply lookup_built in Hlm as [-> _].
  assert ((lprops fsm).*2 = lval <$> fsm.*2) as ->.
  { unfold lprops. by rewrite <-!list_fmap_compose. }
  rewrite list_lookup_fmap, Hmi. simpl.
  assert (tracks merged (nodes tm)) as Htrm.
  { eapply tracks_subseteq; [|done]. intros x Hx.
    eapply child_subseteq; [by eapply lfield_child|].
    by eapply child_subseteq. }
  rewrite tracks_items_field by (done || apply instances_not_annotation).
  by rewrite list_lookup_fmap, Hi.
Qed.

Lemma connections_of_merged :
  connections_of merged (lval ti) = lval <$> lconnections ti.
Proof.
  pose proof inv_merged as [_ Htr _]. unfold connections_of.
  apply tracks_items_field; [|apply connections_not_annotation].
  eapply tracks_subseteq; [apply instance_nodes|done].
Qed.
End instance.
End result.

(** ** What the merge does to an instance *)

Lemma lookup_assign_all_notin k kxs ps :
  k ∉ kxs.*1 → lookup_prop k (assign_all kxs ps) = lookup_prop k ps.
Proof.
  unfold assign_all. revert ps.
  induction kxs as [|[k' x] kxs IH]; intros ps Hk; [done|].
  simpl in *. apply not_elem_of_cons in Hk as [Hne Hk].
  rewrite IH by done. by apply lookup_assign_ne.
Qed.

Lemma erase_str t s : erase t = JStr s → t = LStr s.
Proof. destruct t; try done. by intros [= ->]. Qed.

Lemma lfield_str t k s :
  jfield (erase t) k = Some (JStr s) → lfield t k = Some (LStr s).
Proof.
  rewrite jfield_erase. destruct (lfield t k) as [t'|]; [|done].
  simpl. by intros [= ->%erase_str].
Qed.

Lemma lfield_None t k : jfield (erase t) k = None → lfield t k = None.
Proof. rewrite jfield_erase. by destruct (lfield t k). Qed.

Lemma concat_singletons {A B} (f : A → B) (xs : list A) :
  concat ((λ x, [f x]) <$> xs) = f <$> xs.
Proof. induction xs as [|x xs IH]; [done|]. rewrite !fmap_cons. simpl. by rewrite IH. Qed.

(** The store after line 3: the store of the call and the clone. *)
Definition parsed (h : heap) (jn : json) : heap := (build jn h).2.

Lemma parsed_cloned h jn : parsed h jn = cloned h jn.
Proof. unfold parsed. by rewrite build_locate. Qed.

Section annotated.
Context (h : heap) (jn : json) (m : gmap jsstring val).
Context (Hwf : heap_wf h = true) (Hnet : netlist_ok jn = true).
Context (Hm : map_ok h m).
Context (mi i : nat).

Local Abbreviation h' := (merged h jn m).

Lemma instance_object ti :
  linstance (clone h jn) mi i = Some ti →
  ∃ l fs, ti = LObj l fs ∧ NoDup (locs ti)
          ∧ (l, Obj (lprops fs)) ∈ nodes (clone h jn).
Proof.
  intros Hti.
  pose proof (instance_ok_clone h jn Hnet mi i ti Hti) as Hok.
  pose proof (instance_nodes h jn Hnet mi i ti Hti) as Hsub.
  unfold instance_ok in Hok. apply andb_prop in Hok as [Hok _].
  apply andb_prop in Hok as [(l & fs & ->)%erase_jobj _].
  exists l, fs. split; [done|]. split.
  - eapply sublist_NoDup; [apply NoDup_clone|].
    destruct (linstance_module h jn Hnet mi i _ Hti)
      as (lm & fsm & tm & Hmods & Hmi & Hi & _ & Htm).
    destruct (instance_in_module i _ tm Hi) as (la & tis & Hla & Htis).
    etrans; [|apply child_locs_sublist; by eapply lfield_child].
    etrans; [|apply child_locs_sublist; exact Htm].
    etrans; [|apply child_locs_sublist; by eapply lfield_child].
    apply child_locs_sublist. simpl. by eapply list_elem_of_lookup_2.
  - apply Hsub, root_cell_nodes, list_elem_of_here.
Qed.

(** The connections of the instance are distinct objects of the clone,
    other than the instance. *)
Lemma connection_objects ti :
  linstance (clone h jn) mi i = Some ti →
  Forall (λ c, ∃ lc fsc, c = LObj lc fsc ∧ lc ∈ locs ti
                         ∧ lc ≠ root_loc ti
                         ∧ (lc, Obj (lprops fsc)) ∈ nodes (clone h jn))
         (lconnections ti)
  ∧ NoDup (concat (locs <$> lconnections ti)).
Proof.
  intros Hti.
  pose proof (instance_ok_clone h jn Hnet mi i ti Hti) as Hok.
  pose proof (instance_nodes h jn Hnet mi i ti Hti) as Hsub.
  destruct (instance_object ti Hti) as (l & fs & -> & Hnd & _).
  pose proof (instance_connections (nodes (LObj l fs)) _ Hok (reflexivity _))
    as Hcs.
  unfold lconnections in *.
  destruct (lfield (LObj l fs) (str "connections")) as [tc|] eqn:Htc;
    [|split; constructor].
  destruct tc as [| | | |lc cs|]; try (split; constructor). simpl in *.
  assert (LArr lc cs ∈ children (LObj l fs)) as Hchild
    by (by eapply lfield_child).
  assert (NoDup (locs (LArr lc cs))) as Hnda by (by eapply NoDup_sub_locs).
  split; [|by apply (NoDup_children_locs (LArr lc cs))].
  apply Forall_forall. intros c Hc. rewrite Forall_forall in Hcs.
  destruct (Hcs c Hc) as [(lc' & fsc & ->)%erase_jobj Hroot].
  assert (lc' ∈ concat (locs <$> children (LObj l fs))) as Hin.
  { apply (elem_of_concat _ _ (locs (LArr lc cs)));
      [by apply list_elem_of_fmap_2|].
    eapply elem_of_sublist; [|apply (child_locs_sublist (LArr lc cs)), Hc].
    by apply (root_loc_in_locs (LObj lc' fsc)). }
  exists lc', fsc. repeat split.
  - rewrite locs_children. apply elem_of_app. by left.
  - simpl. intros ->.
    by apply (root_loc_not_in_children (LObj l fs) l Hnd).
  - apply Hsub, Hroot, list_elem_of_here.
Qed.

(** The instance object when the merge returns. *)
Lemma instance_merged ti l fs :
  linstance (clone h jn) mi i = Some ti →
  ti = LObj l fs →
  h' !! l = Some (Obj (assign_all (writes_at l (instance_writes h m ti))
                                  (lprops fs))).
Proof.
  intros Hti ->.
  destruct (instance_object _ Hti) as (l' & fs' & [= <- <-] & Hnd & Hin).
  rewrite (merged_node h jn m l _ Hin). simpl.
  rewrite (writes_at_instance h jn m Hnet mi i _ Hti); [done|].
  by apply (root_loc_in_locs (LObj l fs)).
Qed.

Lemma connection_merged ti c lc fsc :
  linstance (clone h jn) mi i = Some ti →
  c ∈ lconnections ti → c = LObj lc fsc →
  h' !! lc = Some (Obj (assign_all (writes_at lc (instance_writes h m ti))
                                   (lprops fsc))).
Proof.
  intros Hti Hc ->. destruct (connection_objects ti Hti) as [Hcs _].
  rewrite Forall_forall in Hcs.
  destruct (Hcs _ Hc) as (lc' & fsc' & [= <- <-] & Hlc & _ & Hin).
  rewrite (merged_node h jn m lc _ Hin). simpl.
  by rewrite (writes_at_instance h jn m Hnet mi i _ Hti).
Qed.

(** An instance for which the callback writes nothing is, with its
    connections, as [JSON.parse] made it. *)
Lemma unannotated ti :
  linstance (clone h jn) mi i = Some ti →
  instance_writes h m ti = [] →
  same_object (parsed h jn) h' (lval ti)
  ∧ Forall (same_object (parsed h jn) h') (connections_of h' (lval ti)).
Proof.
  intros Hti Hnone. rewrite parsed_cloned.
  destruct (connection_objects ti Hti) as [Hcs _].
  destruct (instance_object ti Hti) as (l & fs & -> & Hnd & Hin).
  split.
  - simpl. apply (merged_unwritten h jn m l _ Hin).
    rewrite (writes_at_instance h jn m Hnet mi i _ Hti), Hnone; [done|].
    by apply (root_loc_in_locs (LObj l fs)).
  - rewrite (connections_of_merged h jn m Hwf Hnet Hm mi i _ Hti).
    apply Forall_fmap. eapply Forall_impl; [done|].
    intros c (lc & fsc & -> & Hlc & _ & Hinc). simpl.
    apply (merged_unwritten h jn m lc _ Hinc).
    by rewrite (writes_at_instance h jn m Hnet mi i _ Hti), Hnone.
Qed.

(** Writes to the instance object leave its connections as they were. *)
Lemma connections_unannotated ti ws :
  linstance (clone h jn) mi i = Some ti →
  instance_writes h m ti = ws → lands_in [root_loc ti] ws →
  Forall (same_object (parsed h jn) h') (connections_of h' (lval ti)).
Proof.
  intros Hti Hws Hroot. rewrite parsed_cloned.
  rewrite (connections_of_merged h jn m Hwf Hnet Hm mi i _ Hti).
  apply Forall_fmap. destruct (connection_objects ti Hti) as [Hcs _].
  eapply Forall_impl; [done|].
  intros c (lc & fsc & -> & Hlc & Hne & Hinc). simpl.
  apply (merged_unwritten h jn m lc _ Hinc).
  rewrite (writes_at_instance h jn m Hnet mi i _ Hti), Hws by done.
  eapply writes_at_notin; [done|]. by intros ->%list_elem_of_singleton.
Qed.
End annotated.

(** ** Inputs of the merge *)

(** The inputs the theorems are about: a store of a JavaScript program, a
    timing model in it, and a netlist in it whose JSON text is [jn]. *)
Definition valid_inputs (h : heap) (verilogData sdfData : val) (jn : json)
  : Prop :=
  heap_wf h = true ∧ timing_ok h sdfData = true
  ∧ stringify h verilogData = Ok (Some jn) ∧ netlist_ok jn = true.

Lemma own_same h h' v k : same_object h h' v → own h' v k = own h v k.
Proof. destruct v; simpl; try done. by intros ->. Qed.

Lemma own_parsed_root h jn t k :
  root_cell t ⊆ nodes (clone h jn) →
  own (parsed h jn) (lval t) k = lval <$> lfield t k.
Proof.
  intros Hsub. rewrite parsed_cloned.
  destruct t as [| | | |l es|l fs]; try done; simpl.
  - assert ((l, Arr (lval <$> es) []) ∈ nodes (clone h jn)) as Hin.
    { apply Hsub, list_elem_of_here. }
    unfold cloned, clone in *. by apply lookup_built in Hin as [-> _].
  - assert ((l, Obj (lprops fs)) ∈ nodes (clone h jn)) as Hin.
    { apply Hsub, list_elem_of_here. }
    unfold cloned, clone in *. apply lookup_built in Hin as [-> _].
    simpl. apply lookup_prop_fmap.
Qed.

Lemma own_parsed h jn t k :
  nodes t ⊆ nodes (clone h jn) →
  own (parsed h jn) (lval t) k = lval <$> lfield t k.
Proof.
  intros Hsub. apply own_parsed_root. intros x Hx.
  by apply Hsub, root_cell_nodes.
Qed.

(** An object that is as [JSON.parse] made it has the properties of the
    text, and no other. *)
Lemma same_object_absent h jn h' t k :
  root_cell t ⊆ nodes (clone h jn) →
  same_object (parsed h jn) h' (lval t) → jfield (erase t) k = None →
  own h' (lval t) k = None.
Proof.
  intros Hroot Hsame Habs. rewrite (own_same _ _ _ _ Hsame).
  rewrite own_parsed_root by done. by rewrite (lfield_None _ _ Habs).
Qed.

(** What the run of the merge gives for the instance [i] of module [mi]. *)
Lemma merge_instance h verilogData sdfData jn mi i ji :
  valid_inputs h verilogData sdfData jn → jinstance jn mi i = Some ji →
  ∃ m ti,
    sdfInstancesMap_of h sdfData = Ok m ∧ map_ok h m
    ∧ linstance (clone h jn) mi i = Some ti ∧ erase ti = ji
    ∧ mergeJsonForD3 verilogData sdfData h
      = Ok (lval (clone h jn), merged h jn m)
    ∧ instance_at (merged h jn m) (lval (clone h jn)) mi i = Some (lval ti).
Proof.
  intros (Hwf & Htiming & Hjson & Hnet) Hji.
  destruct (merge_run h sdfData jn Hwf Htiming Hnet verilogData Hjson)
    as (m & Hmap & Hm & Hrun).
  assert (jinstance (erase (clone h jn)) mi i = Some ji) as Hji'.
  { unfold clone. by rewrite erase_locate. }
  rewrite jinstance_erase in Hji'.
  destruct (linstance (clone h jn) mi i) as [ti|] eqn:Hti; [|done].
  injection Hji' as Hji'. exists m, ti.
  split; [done|]. split; [done|]. split; [done|]. split; [done|].
  split; [done|]. by apply instance_at_merged.
Qed.

Lemma sdfInstancesMap_get_Ok h sdfData m k :
  sdfInstancesMap_of h sdfData = Ok m → sdfInstancesMap_get h sdfData k = m !! k.
Proof. unfold sdfInstancesMap_get. by intros ->. Qed.

Lemma is_str_true v s : is_str v s = true ↔ v = VStr s.
Proof.
  destruct v; simpl; try (split; done).
  rewrite bool_decide_eq_true. split; [by intros ->|by intros [= ->]].
Qed.

(** The writes of the callback, case by case. *)
Section cases.
Context (h : heap) (m : gmap jsstring val) (t : ltree).

Lemma instance_writes_unmatched s :
  lfield t (str "name") = Some (LStr s) → m !! trim s = None →
  instance_writes h m t = [].
Proof.
  intros Hn Hs. unfold instance_writes. rewrite Hn, Hs.
  by case_bool_decide.
Qed.

Lemma instance_writes_DFF s rec :
  lfield t (str "name") = Some (LStr s) → s ≠ [] → m !! trim s = Some rec →
  field h rec (str "cellType") = VStr (str "DFF") →
  instance_writes h m t
  = [(root_loc t, str "delays", field h rec (str "delays"));
     (root_loc t, str "timingChecks", field h rec (str "timingChecks"))].
Proof.
  intros Hn Hs Hrec Hct. unfold instance_writes.
  rewrite Hn, Hrec, Hct, bool_decide_eq_false_2 by done. done.
Qed.

Lemma instance_writes_LUT_K s rec :
  lfield t (str "name") = Some (LStr s) → s ≠ [] → m !! trim s = Some rec →
  field h rec (str "cellType") = VStr (str "LUT_K") →
  instance_writes h m t
  = [(root_loc t, str "delays", field h rec (str "delays"))].
Proof.
  intros Hn Hs Hrec Hct. unfold instance_writes.
  rewrite Hn, Hrec, Hct, bool_decide_eq_false_2 by done. done.
Qed.

Lemma instance_writes_interconnect s rec :
  lfield t (str "name") = Some (LStr s) → s ≠ [] → m !! trim s = Some rec →
  field h rec (str "cellType") ≠ VStr (str "DFF") →
  field h rec (str "cellType") ≠ VStr (str "LUT_K") →
  lfield t (str "type") = Some (LStr (str "fpga_interconnect")) →
  instance_writes h m t = connection_writes h rec (lconnections t).
Proof.
  intros Hn Hs Hrec Hdff Hlut Hty. unfold instance_writes.
  rewrite Hn, Hrec, Hty, bool_decide_eq_false_2 by done.
  destruct (is_str _ (str "DFF")) eqn:H1; [by apply is_str_true in H1|].
  destruct (is_str _ (str "LUT_K")) eqn:H2; [by apply is_str_true in H2|].
  by rewrite bool_decide_eq_true_2.
Qed.

Lemma instance_writes_other s rec :
  lfield t (str "name") = Some (LStr s) → m !! trim s = Some rec →
  field h rec (str "cellType") ≠ VStr (str "DFF") →
  field h rec (str "cellType") ≠ VStr (str "LUT_K") →
  lfield t (str "type") ≠ Some (LStr (str "fpga_interconnect")) →
  instance_writes h m t = [].
Proof.
  intros Hn Hrec Hdff Hlut Hty. unfold instance_writes. rewrite Hn, Hrec.
  case_bool_decide; [done|].
  destruct (is_str _ (str "DFF")) eqn:H1; [by apply is_str_true in H1|].
  destruct (is_str _ (str "LUT_K")) eqn:H2; [by apply is_str_true in H2|].
  destruct (lfield t (str "type")) as [[| | |ty| |]|]; try done.
  case_bool_decide; [|done]. by subst.
Qed.
End cases.

(** ** The merge policy *)

Lemma timingChecks_ne_delays : str "timingChecks" ≠ str "delays".
Proof. by compute. Qed.

Lemma writes_at_root l k x ws :
  writes_at l ((l, k, x) :: ws) = (k, x) :: writes_at l ws.
Proof. unfold writes_at. simpl. by rewrite bool_decide_eq_true_2. Qed.

Lemma merge_dff h verilogData sdfData jn mi i ji s rec :
  valid_inputs h verilogData sdfData jn →
  jinstance jn mi i = Some ji →
  jfield ji (str "name") = Some (JStr s) → s ≠ [] →
  sdfInstancesMap_get h sdfData (trim s) = Some rec →
  field h rec (str "cellType") = VStr (str "DFF") →
  ∃ v' h' inst,
    mergeJsonForD3 verilogData sdfData h = Ok (v', h')
    ∧ instance_at h' v' mi i = Some inst
    ∧ own h' inst (str "delays") = Some (field h rec (str "delays"))
    ∧ own h' inst (str "timingChecks")
      = Some (field h rec (str "timingChecks"))
    ∧ ∀ l, l < length h → h' !! l = h !! l.
Proof.
  intros Hvalid Hji Hname Hs Hrec Hct.
  destruct (merge_instance _ _ _ _ _ _ _ Hvalid Hji)
    as (m & ti & Hmap & Hm & Hti & <- & Hrun & Hat).
  destruct Hvalid as (Hwf & _ & _ & Hnet).
  rewrite (sdfInstancesMap_get_Ok _ _ m) in Hrec by done.
  apply lfield_str in Hname.
  destruct (instance_object h jn Hnet mi i ti Hti) as (l & fs & Heq & _ & _).
  pose proof (instance_merged h jn m Hnet mi i ti l fs Hti Heq) as Hl.
  rewrite (instance_writes_DFF h m ti s rec) in Hl by done.
  rewrite Heq in Hl. cbn [root_loc] in Hl. rewrite !writes_at_root in Hl.
  exists (lval (clone h jn)), (merged h jn m), (lval ti).
  split; [done|]. split; [done|]. rewrite Heq. simpl. rewrite Hl. simpl.
  split; [|split].
  - rewrite lookup_assign_ne by apply timingChecks_ne_delays.
    apply lookup_assign_eq.
  - apply lookup_assign_eq.
  - intros l' Hl'. by apply merged_old.
Qed.

Lemma merge_lut h verilogData sdfData jn mi i ji s rec :
  valid_inputs h verilogData sdfData jn →
  jinstance jn mi i = Some ji →
  jfield ji (str "name") = Some (JStr s) → s ≠ [] →
  sdfInstancesMap_get h sdfData (trim s) = Some rec →
  field h rec (str "cellType") = VStr (str "LUT_K") →
  ∃ v' h' inst,
    mergeJsonForD3 verilogData sdfData h = Ok (v', h')
    ∧ instance_at h' v' mi i = Some inst
    ∧ own h' inst (str "delays") = Some (field h rec (str "delays"))
    ∧ (∀ k, k ≠ str "delays" → own h' inst k = own (parsed h jn) inst k)
    ∧ (jfield ji (str "timingChecks") = None →
       own h' inst (str "timingChecks") = None)
    ∧ Forall (same_object (parsed h jn) h') (connections_of h' inst).
Proof.
  intros Hvalid Hji Hname Hs Hrec Hct.
  destruct (merge_instance _ _ _ _ _ _ _ Hvalid Hji)
    as (m & ti & Hmap & Hm & Hti & <- & Hrun & Hat).
  destruct Hvalid as (Hwf & _ & _ & Hnet).
  rewrite (sdfInstancesMap_get_Ok _ _ m) in Hrec by done.
  apply lfield_str in Hname.
  destruct (instance_object h jn Hnet mi i ti Hti) as (l & fs & Heq & _ & _).
  pose proof (instance_merged h jn m Hnet mi i ti l fs Hti Heq) as Hl.
  pose proof (instance_writes_LUT_K h m ti s rec Hname Hs Hrec Hct) as Hws.
  pose proof (own_parsed h jn ti) as Hparsed.
  rewrite Hws in Hl.
  rewrite Heq in Hl. cbn [root_loc] in Hl. rewrite !writes_at_root in Hl.
  exists (lval (clone h jn)), (merged h jn m), (lval ti).
  split; [done|]. split; [done|].
  assert (∀ k, k ≠ str "delays" →
               own (merged h jn m) (lval ti) k = own (parsed h jn) (lval ti) k)
    as Hother.
  { intros k Hk. rewrite Hparsed by (by eapply instance_nodes).
    rewrite Heq. simpl. rewrite Hl. simpl.
    rewrite lookup_assign_ne by done. apply lookup_prop_fmap. }
  split; [|split; [done|split]].
  - rewrite Heq. simpl. rewrite Hl. simpl. apply lookup_assign_eq.
  - intros Habs. rewrite Hother by apply timingChecks_ne_delays.
    rewrite Hparsed by (by eapply instance_nodes).
    by rewrite (lfield_None _ _ Habs).
  - eapply connections_unannotated; [done..|].
    by apply Forall_singleton, list_elem_of_singleton.
Qed.

(** C3, as the code has it. An instance whose name is not empty and matches
    a timing record of cell type [DFF] gets the record's [delays] and the
    record's [timingChecks]: the very values of the record's properties, and
    the objects of the timing model are as they were. *)
Theorem dff_record_attaches_delays_and_timingChecks
    h verilogData sdfData jn mi i ji s rec :
  valid_inputs h verilogData sdfData jn →
  jinstance jn mi i = Some ji →
  jfield ji (str "name") = Some (JStr s) → s ≠ [] →
  sdfInstancesMap_get h sdfData (trim s) = Some rec →
  field h rec (str "cellType") = VStr (str "DFF") →
  ∃ v' h' inst,
    mergeJsonForD3 verilogData sdfData h = Ok (v', h')
    ∧ instance_at h' v' mi i = Some inst
    ∧ own h' inst (str "delays") = Some (field h rec (str "delays"))
    ∧ own h' inst (str "timingChecks")
      = Some (field h rec (str "timingChecks"))
    ∧ ∀ l, l < length h → h' !! l = h !! l.
Proof. apply merge_dff. Qed.

(** C4, as the code has it. An instance whose name is not empty and matches
    a timing record of cell type [LUT_K] gets the record's [delays] and
    nothing else: every other property of the instance, and every
    connection, is as [JSON.parse] made it, so an instance without
    [timingChecks] stays without, whatever the record has. *)
Theorem lut_record_attaches_delays_only
    h verilogData sdfData jn mi i ji s rec :
  valid_inputs h verilogData sdfData jn →
  jinstance jn mi i = Some ji →
  jfield ji (str "name") = Some (JStr s) → s ≠ [] →
  sdfInstancesMap_get h sdfData (trim s) = Some rec →
  field h rec (str "cellType") = VStr (str "LUT_K") →
  ∃ v' h' inst,
    mergeJsonForD3 verilogData sdfData h = Ok (v', h')
    ∧ instance_at h' v' mi i = Some inst
    ∧ own h' inst (str "delays") = Some (field h rec (str "delays"))
    ∧ (∀ k, k ≠ str "delays" → own h' inst k = own (parsed h jn) inst k)
    ∧ (jfield ji (str "timingChecks") = None →
       own h' inst (str "timingChecks") = None)
    ∧ Forall (same_object (parsed h jn) h') (connections_of h' inst).
Proof. apply merge_lut. Qed.

(** ** A netlist and a timing model *)

Module Example.
Definition jstr (s : string) : json := JStr (str s).

Definition connection (port net : string) : json :=
  JObj [(str "port", jstr port); (str "net", jstr net)].

Definition instance (name type : string) (connections : list json) : json :=
  JObj [(str "name", jstr name); (str "type", jstr type);
        (str "connections", JArr connections)].

Definition netlist : json :=
  JObj [(str "modules", JObj [(str "top", JObj [
    (str "name", jstr "top");
    (str "ports", JArr [jstr "clk"; jstr "out"]);
    (str "instances", JArr [
       instance "ff1" "DFF" [connection "D" "n1"; connection "Q" "n2"];
       instance "lut1" "LUT_K" [connection "in" "n2"];
       instance "r1" "fpga_interconnect"
         [connection "datain" "n1"; connection "dataout" "n2";
          connection "aux" "n3"];
       instance "r2" "fpga_interconnect" [connection "datain" "n2"];
       instance "r3" "fpga_interconnect" [connection "datain" "n3"];
       instance "r4" "fpga_interconnect" [connection "datain" "n4"];
       instance "mux1" "MUX" [connection "sel" "n5"];
       instance "zz" "DFF" [connection "D" "n6"];
       instance "" "DFF" [connection "D" "n7"];
       JObj [(str "type", jstr "DFF")];
       instance "r5" "fpga_interconnect" [connection "datain" "n8"]])])])].

Definition path_delay (d : float) : json := JObj [(str "delay", JNum d)].

Definition record (instanceName cellType : string) (delays : json)
    (timingChecks : list json) : json :=
  JObj [(str "instanceName", jstr instanceName);
        (str "cellType", jstr cellType);
        (str "delays", delays);
        (str "timingChecks", JArr timingChecks)].

Definition check (kind : string) (value : float) : json :=
  JObj [(str "type", jstr kind); (str "value", JNum value)].

Definition timing : json :=
  JObj [(str "instances", JArr [
    record "ff1" "DFF" (JObj [(str "value", JNum 1)]) [check "setup" 1];
    record "  ff1 " "DFF" (JObj [(str "value", JNum 3)])
      [check "setup" 2; check "hold" 4];
    record "lut1" "LUT_K" (JArr [path_delay 1]) [check "setup" 6];
    record "r1" "fpga_interconnect" (JArr [path_delay 5; path_delay 9]) [];
    record "r2" "fpga_interconnect" (JNum 7) [];
    record "r3" "fpga_interconnect" (JArr []) [];
    record "r4" "DFF" (JArr [path_delay 5]) [];
    record "mux1" "MUX" (JNum 2) [];
    record "" "DFF" (JNum 4) [];
    JObj [(str "cellType", jstr "DFF"); (str "delays", JNum 4)];
    record "r5" "LUT_K" (JNum 7) [check "setup" 8]])].

(** The store with the two models, as the parsers leave them. *)
Definition verilogData : val := (build netlist []).1.
Definition sdfData : val := (build timing (build netlist []).2).1.
Definition store : heap := (build timing (build netlist []).2).2.

(** The [n]-th timing record and the [n]-th instance of the module. *)
Definition record_of (n : nat) : val :=
  default VUndef (records store sdfData !! n).

Definition instance_of (n : nat) : json :=
  default JNull (jinstance netlist 0 n).

Lemma valid : valid_inputs store verilogData sdfData netlist.
Proof. repeat split; vm_compute; reflexivity. Qed.
End Example.

Lemma dff_record_attaches_delays_and_timingChecks_witness :
  ∃ v' h' inst,
    mergeJsonForD3 Example.verilogData Example.sdfData Example.store
    = Ok (v', h')
    ∧ instance_at h' v' 0 0 = Some inst
    ∧ own h' inst (str "delays")
      = Some (field Example.store (Example.record_of 1) (str "delays"))
    ∧ own h' inst (str "timingChecks")
      = Some (field Example.store (Example.record_of 1) (str "timingChecks"))
    ∧ ∀ l, l < length Example.store → h' !! l = Example.store !! l.
Proof.
  apply (dff_record_attaches_delays_and_timingChecks
           Example.store Example.verilogData Example.sdfData Example.netlist
           0 0 (Example.instance_of 0) (str "ff1") (Example.record_of 1)).
  - repeat split; vm_compute; reflexivity.
  - vm_compute; reflexivity.
  - vm_compute; reflexivity.
  - vm_compute; discriminate.
  - vm_compute; reflexivity.
  - vm_compute; reflexivity.
Defined.

Lemma lut_record_attaches_delays_only_witness :
  ∃ v' h' inst,
    mergeJsonForD3 Example.verilogData Example.sdfData Example.store
    = Ok (v', h')
    ∧ instance_at h' v' 0 1 = Some inst
    ∧ own h' inst (str "delays")
      = Some (field Example.store (Example.record_of 2) (str "delays"))
    ∧ (∀ k, k ≠ str "delays" →
         own h' inst k = own (parsed Example.store Example.netlist) inst k)
    ∧ (jfield (Example.instance_of 1) (str "timingChecks") = None →
       own h' inst (str "timingChecks") = None)
    ∧ Forall (same_object (parsed Example.store Example.netlist) h')
             (connections_of h' inst).
Proof.
  apply (lut_record_attaches_delays_only
           Example.store Example.verilogData Example.sdfData Example.netlist
           0 1 (Example.instance_of 1) (str "lut1") (Example.record_of 2)).
  - repeat split; vm_compute; reflexivity.
  - vm_compute; reflexivity.
  - vm_compute; reflexivity.
  - vm_compute; discriminate.
  - vm_compute; reflexivity.
  - vm_compute; reflexivity.
Defined.

(** The instance [inst] of the result and its connections are the objects
    [JSON.parse] made of the instance [ji] of the netlist: nothing was
    written to them, and they have the properties of the text and no
    other. *)
Definition left_unannotated (h : heap) (jn : json) (h' : heap) (inst : val)
    (ji : json) : Prop :=
  same_object (parsed h jn) h' inst
  ∧ Forall (same_object (parsed h jn) h') (connections_of h' inst)
  ∧ (∀ k, jfield ji k = None → own h' inst k = None)
  ∧ length (connections_of h' inst) = length (jconnections ji)
  ∧ (∀ j c jc k,
       connections_of h' inst !! j = Some c → jconnections ji !! j = Some jc →
       jfield jc k = None → own h' c k = None).

Lemma merge_leaves_unannotated h verilogData sdfData jn mi i ji :
  valid_inputs h verilogData sdfData jn → jinstance jn mi i = Some ji →
  (∀ m ti, sdfInstancesMap_of h sdfData = Ok m → erase ti = ji →
           instance_writes h m ti = []) →
  ∃ v' h' inst,
    mergeJsonForD3 verilogData sdfData h = Ok (v', h')
    ∧ instance_at h' v' mi i = Some inst
    ∧ left_unannotated h jn h' inst ji.
Proof.
  intros Hvalid Hji Hnone.
  destruct (merge_instance _ _ _ _ _ _ _ Hvalid Hji)
    as (m & ti & Hmap & Hm & Hti & Herase & Hrun & Hat).
  destruct Hvalid as (Hwf & _ & _ & Hnet).
  specialize (Hnone m ti Hmap Herase). subst ji.
  destruct (unannotated h jn m Hwf Hnet Hm mi i ti Hti Hnone) as [Hsame Hconns].
  destruct (instance_object h jn Hnet mi i ti Hti) as (l & fs & Heq & _ & Hin).
  destruct (connection_objects h jn Hnet mi i ti Hti) as [Hcs _].
  exists (lval (clone h jn)), (merged h jn m), (lval ti).
  split; [done|]. split; [done|]. split; [done|]. split; [done|].
  split; [|split].
  - intros k Habs. apply (same_object_absent h jn); [|done..].
    rewrite Heq. by intros x ->%list_elem_of_singleton.
  - rewrite (connections_of_merged h jn m Hwf Hnet Hm mi i _ Hti).
    by rewrite jconnections_erase, !length_fmap.
  - intros j c jc k.
    rewrite (connections_of_merged h jn m Hwf Hnet Hm mi i _ Hti) in *.
    rewrite jconnections_erase, !list_lookup_fmap.
    destruct (lconnections ti !! j) as [tc|] eqn:Hj; [|done]. simpl.
    intros [= <-] [= <-] Habs.
    rewrite Forall_forall in Hcs.
    destruct (Hcs tc) as (lc & fsc & Hc & _ & _ & Hinc);
      [by eapply list_elem_of_lookup_2|].
    apply (same_object_absent h jn); [| |done].
    + rewrite Hc. by intros x ->%list_elem_of_singleton.
    + rewrite Forall_forall in Hconns. apply Hconns.
      apply list_elem_of_fmap_2. by eapply list_elem_of_lookup_2.
Qed.

(** C5. An instance whose name matches a timing record whose cell type is
    neither [DFF] nor [LUT_K], and whose own type is not
    [fpga_interconnect], is left as it is, and the merge returns. *)
Theorem other_cell_type_is_skipped
    h verilogData sdfData jn mi i ji s rec :
  valid_inputs h verilogData sdfData jn →
  jinstance jn mi i = Some ji →
  jfield ji (str "name") = Some (JStr s) →
  sdfInstancesMap_get h sdfData (trim s) = Some rec →
  field h rec (str "cellType") ≠ VStr (str "DFF") →
  field h rec (str "cellType") ≠ VStr (str "LUT_K") →
  jfield ji (str "type") ≠ Some (JStr (str "fpga_interconnect")) →
  ∃ v' h' inst,
    mergeJsonForD3 verilogData sdfData h = Ok (v', h')
    ∧ instance_at h' v' mi i = Some inst
    ∧ left_unannotated h jn h' inst ji.
Proof.
  intros Hvalid Hji Hname Hrec Hdff Hlut Hty.
  apply merge_leaves_unannotated; [done..|].
  intros m ti Hmap <-.
  rewrite (sdfInstancesMap_get_Ok _ _ m) in Hrec by done.
  eapply instance_writes_other; [by apply lfield_str|done..|].
  intros Hty'. apply Hty. by rewrite jfield_erase, Hty'.
Qed.

(** C6. An instance whose trimmed name is not a key of the lookup is left
    as it is, and the merge returns: an instance without [delays] or
    [timingChecks] and connections without [delay] stay without. *)
Theorem unmatched_instance_is_left_unannotated
    h verilogData sdfData jn mi i ji s :
  valid_inputs h verilogData sdfData jn →
  jinstance jn mi i = Some ji →
  jfield ji (str "name") = Some (JStr s) →
  sdfInstancesMap_get h sdfData (trim s) = None →
  ∃ v' h' inst,
    mergeJsonForD3 verilogData sdfData h = Ok (v', h')
    ∧ instance_at h' v' mi i = Some inst
    ∧ left_unannotated h jn h' inst ji.
Proof.
  intros Hvalid Hji Hname Hrec.
  apply merge_leaves_unannotated; [done..|].
  intros m ti Hmap <-.
  rewrite (sdfInstancesMap_get_Ok _ _ m) in Hrec by done.
  eapply instance_writes_unmatched; [by apply lfield_str|done].
Qed.

(** C10. A timing record whose [instanceName] is missing or empty is under
    no key of the lookup, whatever the timing model and the netlist. An
    instance whose [name] is missing or empty is left as it is, and the
    merge returns. *)
Theorem nameless_entities_are_skipped :
  (∀ h sdfData rec k,
     field h rec (str "instanceName") = VUndef
     ∨ field h rec (str "instanceName") = VStr [] →
     sdfInstancesMap_get h sdfData k ≠ Some rec)
  ∧ (∀ h verilogData sdfData jn mi i ji,
       valid_inputs h verilogData sdfData jn →
       jinstance jn mi i = Some ji →
       jfield ji (str "name") = None
       ∨ jfield ji (str "name") = Some (JStr []) →
       ∃ v' h' inst,
         mergeJsonForD3 verilogData sdfData h = Ok (v', h')
         ∧ instance_at h' v' mi i = Some inst
         ∧ left_unannotated h jn h' inst ji).
Proof.
  split.
  - intros h sdfData rec k Hnameless Hget. unfold sdfInstancesMap_get in Hget.
    destruct (sdfInstancesMap_of h sdfData) as [m| |] eqn:Hmap; try done.
    apply (sdfInstancesMap_of_lookup _ _ _ _ _ Hmap) in Hget as [Hn _].
    unfold normalized_name in Hn. destruct (truthy rec); [|done].
    by destruct Hnameless as [Hf|Hf]; rewrite Hf in Hn.
  - intros h verilogData sdfData jn mi i ji Hvalid Hji Hname.
    apply merge_leaves_unannotated; [done..|].
    intros m ti Hmap <-. apply instance_writes_nameless. unfold lget.
    destruct Hname as [Hn|Hn].
    + by rewrite (lfield_None _ _ Hn).
    + by rewrite (lfield_str _ _ _ Hn).
Qed.

(** ** Interconnect instances *)

Lemma str_delay_eq k : k ≠ str "delay" → str "delay" ≠ k.
Proof. done. Qed.

Lemma writes_at_connection_writes_root h rec cs l :
  Forall (λ c, root_loc c ≠ l) cs → writes_at l (connection_writes h rec cs) = [].
Proof.
  intros Hcs. unfold connection_writes.
  destruct (connection_delay h rec) as [d|]; [|done].
  induction Hcs as [|c cs Hc _ IH]; [done|].
  rewrite fmap_cons. unfold writes_at in *. simpl.
  by rewrite bool_decide_eq_false_2.
Qed.

Lemma writes_at_connection_writes h rec cs j c d :
  NoDup (concat (locs <$> cs)) →
  Forall (λ c, is_jobj (erase c) = true) cs →
  cs !! j = Some c → connection_delay h rec = Some d →
  writes_at (root_loc c) (connection_writes h rec cs) = [(str "delay", d)].
Proof.
  intros Hnd Hcs Hj Hd. unfold connection_writes. rewrite Hd.
  rewrite <-(concat_singletons (λ c, (root_loc c, str "delay", d))).
  rewrite (writes_at_concat _ cs j c).
  - apply writes_at_root.
  - done.
  - eapply Forall_impl; [done|]. intros c' Hc'.
    apply Forall_singleton. by apply root_loc_in_locs.
  - done.
  - apply root_loc_in_locs. rewrite Forall_forall in Hcs.
    by eapply Hcs, list_elem_of_lookup_2.
Qed.

(** What the merge does to a matched instance of type [fpga_interconnect]
    whose record is of neither of the two cell types. *)
Lemma merge_interconnect h verilogData sdfData jn mi i ji s rec :
  valid_inputs h verilogData sdfData jn →
  jinstance jn mi i = Some ji →
  jfield ji (str "name") = Some (JStr s) → s ≠ [] →
  jfield ji (str "type") = Some (JStr (str "fpga_interconnect")) →
  sdfInstancesMap_get h sdfData (trim s) = Some rec →
  field h rec (str "cellType") ≠ VStr (str "DFF") →
  field h rec (str "cellType") ≠ VStr (str "LUT_K") →
  ∃ v' h' inst,
    mergeJsonForD3 verilogData sdfData h = Ok (v', h')
    ∧ instance_at h' v' mi i = Some inst
    ∧ same_object (parsed h jn) h' inst
    ∧ (∀ k, jfield ji k = None → own h' inst k = None)
    ∧ length (connections_of h' inst) = length (jconnections ji)
    ∧ ∀ j c jc,
        connections_of h' inst !! j = Some c → jconnections ji !! j = Some jc →
        match connection_delay h rec with
        | Some d =>
            own h' c (str "delay") = Some d
            ∧ ∀ k, k ≠ str "delay" → own h' c k = own (parsed h jn) c k
        | None =>
            same_object (parsed h jn) h' c
            ∧ ∀ k, jfield jc k = None → own h' c k = None
        end.
Proof.
  intros Hvalid Hji Hname Hs Hty Hrec Hdff Hlut.
  destruct (merge_instance _ _ _ _ _ _ _ Hvalid Hji)
    as (m & ti & Hmap & Hm & Hti & <- & Hrun & Hat).
  destruct Hvalid as (Hwf & _ & _ & Hnet).
  rewrite (sdfInstancesMap_get_Ok _ _ m) in Hrec by done.
  apply lfield_str in Hname. apply lfield_str in Hty.
  pose proof (instance_writes_interconnect h m ti s rec Hname Hs Hrec
                Hdff Hlut Hty) as Hws.
  destruct (instance_object h jn Hnet mi i ti Hti) as (l & fs & Heq & _ & Hin).
  destruct (connection_objects h jn Hnet mi i ti Hti) as [Hcs Hnd].
  assert (same_object (parsed h jn) (merged h jn m) (lval ti)) as Hsame.
  { rewrite parsed_cloned, Heq. simpl.
    apply (merged_unwritten h jn m l _ Hin).
    rewrite (writes_at_instance h jn m Hnet mi i _ Hti), Hws.
    - apply writes_at_connection_writes_root.
      eapply Forall_impl; [done|].
      intros c (lc & fsc & -> & _ & Hne & _). by rewrite Heq in Hne.
    - rewrite Heq. by apply (root_loc_in_locs (LObj l fs)). }
  exists (lval (clone h jn)), (merged h jn m), (lval ti).
  split; [done|]. split; [done|]. split; [done|]. split; [|split].
  - intros k Habs. apply (same_object_absent h jn); [|done..].
    rewrite Heq. by intros x ->%list_elem_of_singleton.
  - rewrite (connections_of_merged h jn m Hwf Hnet Hm mi i _ Hti).
    by rewrite jconnections_erase, !length_fmap.
  - intros j c jc.
    rewrite (connections_of_merged h jn m Hwf Hnet Hm mi i _ Hti).
    rewrite jconnections_erase, !list_lookup_fmap.
    destruct (lconnections ti !! j) as [tc|] eqn:Hj; [|done]. simpl.
    intros [= <-] [= <-].
    rewrite Forall_forall in Hcs.
    destruct (Hcs tc) as (lc & fsc & Hc & Hlc & _ & Hinc);
      [by eapply list_elem_of_lookup_2|].
    assert (root_cell tc ⊆ nodes (clone h jn)) as Hroot.
    { rewrite Hc. by intros x ->%list_elem_of_singleton. }
    pose proof (connection_merged h jn m Hnet mi i ti tc lc fsc Hti
                  ltac:(by eapply list_elem_of_lookup_2) Hc) as Hmerged.
    rewrite Hws in Hmerged.
    destruct (connection_delay h rec) as [d|] eqn:Hd.
    + replace lc with (root_loc tc) in Hmerged at 2 by (by rewrite Hc).
      rewrite (writes_at_connection_writes h rec _ j tc d) in Hmerged;
        [|done| |done..].
      2:{ apply Forall_forall. intros c' Hc'.
          destruct (Hcs c' Hc') as (? & ? & -> & _). done. }
      rewrite Hc. simpl. rewrite Hmerged. simpl. split.
      * apply lookup_assign_eq.
      * intros k Hk. rewrite lookup_assign_ne by (by apply str_delay_eq).
        pose proof (own_parsed_root h jn tc k Hroot) as Hp.
        rewrite Hc in Hp. simpl in Hp. rewrite Hp. apply lookup_prop_fmap.
    + assert (same_object (parsed h jn) (merged h jn m) (lval tc)) as Hsc.
      { rewrite parsed_cloned, Hc. simpl.
        apply (merged_unwritten h jn m lc _ Hinc).
        rewrite (writes_at_instance h jn m Hnet mi i _ Hti), Hws by done.
        unfold connection_writes. by rewrite Hd. }
      split; [done|]. intros k Habs. by apply (same_object_absent h jn).
Qed.

Lemma merge_deterministic verilogData sdfData h v1 h1 v2 h2 :
  mergeJsonForD3 verilogData sdfData h = Ok (v1, h1) →
  mergeJsonForD3 verilogData sdfData h = Ok (v2, h2) →
  v1 = v2 ∧ h1 = h2.
Proof. intros -> [= -> ->]. done. Qed.

(** An instance whose name matches a record of cell type [DFF] or [LUT_K]
    has its connections as [JSON.parse] made them: the writes go to the
    instance object. *)
Lemma merge_cell_connections h verilogData sdfData jn mi i ji s rec :
  valid_inputs h verilogData sdfData jn →
  jinstance jn mi i = Some ji →
  jfield ji (str "name") = Some (JStr s) → s ≠ [] →
  sdfInstancesMap_get h sdfData (trim s) = Some rec →
  field h rec (str "cellType") = VStr (str "DFF")
  ∨ field h rec (str "cellType") = VStr (str "LUT_K") →
  ∃ v' h' inst,
    mergeJsonForD3 verilogData sdfData h = Ok (v', h')
    ∧ instance_at h' v' mi i = Some inst
    ∧ length (connections_of h' inst) = length (jconnections ji)
    ∧ ∀ j c jc,
        connections_of h' inst !! j = Some c → jconnections ji !! j = Some jc →
        same_object (parsed h jn) h' c
        ∧ ∀ k, jfield jc k = None → own h' c k = None.
Proof.
  intros Hvalid Hji Hname Hs Hrec Hct.
  destruct (merge_instance _ _ _ _ _ _ _ Hvalid Hji)
    as (m & ti & Hmap & Hm & Hti & <- & Hrun & Hat).
  destruct Hvalid as (Hwf & _ & _ & Hnet).
  rewrite (sdfInstancesMap_get_Ok _ _ m) in Hrec by done.
  apply lfield_str in Hname.
  assert (lands_in [root_loc ti] (instance_writes h m ti)) as Hlands.
  { destruct Hct as [Hct|Hct].
    - rewrite (instance_writes_DFF h m ti s rec) by done.
      repeat constructor; by apply list_elem_of_singleton.
    - rewrite (instance_writes_LUT_K h m ti s rec) by done.
      repeat constructor; by apply list_elem_of_singleton. }
  pose proof (connections_unannotated h jn m Hwf Hnet Hm mi i ti _ Hti
                eq_refl Hlands) as Hconns.
  destruct (connection_objects h jn Hnet mi i ti Hti) as [Hcs _].
  exists (lval (clone h jn)), (merged h jn m), (lval ti).
  split; [done|]. split; [done|]. split.
  - rewrite (connections_of_merged h jn m Hwf Hnet Hm mi i _ Hti).
    by rewrite jconnections_erase, !length_fmap.
  - intros j c jc.
    rewrite (connections_of_merged h jn m Hwf Hnet Hm mi i _ Hti) in *.
    rewrite jconnections_erase, !list_lookup_fmap.
    destruct (lconnections ti !! j) as [tc|] eqn:Hj; [|done]. simpl.
    intros [= <-] [= <-].
    rewrite Forall_forall in Hcs. rewrite Forall_forall in Hconns.
    destruct (Hcs tc) as (lc & fsc & Hc & _ & _ & Hinc);
      [by eapply list_elem_of_lookup_2|].
    assert (same_object (parsed h jn) (merged h jn m) (lval tc)) as Hsame.
    { apply Hconns, list_elem_of_fmap_2. by eapply list_elem_of_lookup_2. }
    split; [done|]. intros k Habs.
    apply (same_object_absent h jn); [|done..].
    rewrite Hc. by intros x ->%list_elem_of_singleton.
Qed.

(** C1, as the code has it. For an instance of type [fpga_interconnect]
    whose name is not empty and matches a timing record, the cell type of
    the record is looked at first. A record of a cell type other than [DFF]
    and [LUT_K]: the instance object is as [JSON.parse] made it, and each of
    its connections gets as [delay] the delay of the record, if the record
    gives one, and keeps its other properties. A record of cell type [DFF]:
    the instance gets the record's [delays] and [timingChecks]. A record of
    cell type [LUT_K]: the instance gets the record's [delays]. In these two
    cases every connection is as [JSON.parse] made it and gets no
    [delay]. *)
Theorem interconnect_annotation_follows_record_cell_type
    h verilogData sdfData jn mi i ji s rec :
  valid_inputs h verilogData sdfData jn →
  jinstance jn mi i = Some ji →
  jfield ji (str "name") = Some (JStr s) → s ≠ [] →
  jfield ji (str "type") = Some (JStr (str "fpga_interconnect")) →
  sdfInstancesMap_get h sdfData (trim s) = Some rec →
  ∃ v' h' inst,
    mergeJsonForD3 verilogData sdfData h = Ok (v', h')
    ∧ instance_at h' v' mi i = Some inst
    ∧ length (connections_of h' inst) = length (jconnections ji)
    ∧ (field h rec (str "cellType") ≠ VStr (str "DFF") →
       field h rec (str "cellType") ≠ VStr (str "LUT_K") →
       same_object (parsed h jn) h' inst
       ∧ (∀ k, jfield ji k = None → own h' inst k = None)
       ∧ ∀ j c jc,
           connections_of h' inst !! j = Some c →
           jconnections ji !! j = Some jc →
           match connection_delay h rec with
           | Some d =>
               own h' c (str "delay") = Some d
               ∧ ∀ k, k ≠ str "delay" → own h' c k = own (parsed h jn) c k
           | None =>
               same_object (parsed h jn) h' c
               ∧ ∀ k, jfield jc k = None → own h' c k = None
           end)
    ∧ (field h rec (str "cellType") = VStr (str "DFF") →
       own h' inst (str "delays") = Some (field h rec (str "delays"))
       ∧ own h' inst (str "timingChecks")
         = Some (field h rec (str "timingChecks"))
       ∧ ∀ j c jc,
           connections_of h' inst !! j = Some c →
           jconnections ji !! j = Some jc →
           same_object (parsed h jn) h' c
           ∧ ∀ k, jfield jc k = None → own h' c k = None)
    ∧ (field h rec (str "cellType") = VStr (str "LUT_K") →
       own h' inst (str "delays") = Some (field h rec (str "delays"))
       ∧ (∀ k, k ≠ str "delays" → own h' inst k = own (parsed h jn) inst k)
       ∧ ∀ j c jc,
           connections_of h' inst !! j = Some c →
           jconnections ji !! j = Some jc →
           same_object (parsed h jn) h' c
           ∧ ∀ k, jfield jc k = None → own h' c k = None).
Proof.
  intros Hvalid Hji Hname Hs Hty Hrec.
  destruct (merge_instance _ _ _ _ _ _ _ Hvalid Hji)
    as (m & ti & Hmap & Hm & Hti & Herase & Hrun & Hat).
  exists (lval (clone h jn)), (merged h jn m), (lval ti).
  split; [done|]. split; [done|]. split; [|split; [|split]].
  - destruct Hvalid as (Hwf & _ & _ & Hnet).
    rewrite (connections_of_merged h jn m Hwf Hnet Hm mi i _ Hti).
    by rewrite <-Herase, jconnections_erase, !length_fmap.
  - intros Hdff Hlut.
    destruct (merge_interconnect _ _ _ _ _ _ _ _ _ Hvalid Hji Hname Hs Hty Hrec
                Hdff Hlut)
      as (v' & h' & inst & Hrun' & Hat' & Hsame & Habs & _ & Hconns).
    destruct (merge_deterministic _ _ _ _ _ _ _ Hrun Hrun') as [<- <-].
    rewrite Hat in Hat'. by injection Hat' as <-.
  - intros Hct.
    destruct (merge_dff _ _ _ _ _ _ _ _ _ Hvalid Hji Hname Hs Hrec Hct)
      as (v' & h' & inst & Hrun' & Hat' & Hd & Ht & _).
    destruct (merge_deterministic _ _ _ _ _ _ _ Hrun Hrun') as [<- <-].
    rewrite Hat in Hat'. injection Hat' as <-.
    destruct (merge_cell_connections _ _ _ _ _ _ _ _ _ Hvalid Hji Hname Hs
                Hrec (or_introl Hct))
      as (v' & h' & inst & Hrun2 & Hat2 & _ & Hconns).
    destruct (merge_deterministic _ _ _ _ _ _ _ Hrun Hrun2) as [<- <-].
    rewrite Hat in Hat2. by injection Hat2 as <-.
  - intros Hct.
    destruct (merge_lut _ _ _ _ _ _ _ _ _ Hvalid Hji Hname Hs Hrec Hct)
      as (v' & h' & inst & Hrun' & Hat' & Hd & Hother & _).
    destruct (merge_deterministic _ _ _ _ _ _ _ Hrun Hrun') as [<- <-].
    rewrite Hat in Hat'. injection Hat' as <-.
    destruct (merge_cell_connections _ _ _ _ _ _ _ _ _ Hvalid Hji Hname Hs
                Hrec (or_intror Hct))
      as (v' & h' & inst & Hrun2 & Hat2 & _ & Hconns).
    destruct (merge_deterministic _ _ _ _ _ _ _ Hrun Hrun2) as [<- <-].
    rewrite Hat in Hat2. by injection Hat2 as <-.
Qed.

(** C2, as the code has it. For such an instance: when the record's
    [delays] is an array with a first entry, every connection gets the
    [delay] of that entry; when it is a number, every connection gets the
    number; when it is an empty array, every connection is as [JSON.parse]
    made it, without [delay] if the netlist has none. *)
Theorem interconnect_delay_is_first_entry_or_scalar
    h verilogData sdfData jn mi i ji s rec :
  valid_inputs h verilogData sdfData jn →
  jinstance jn mi i = Some ji →
  jfield ji (str "name") = Some (JStr s) → s ≠ [] →
  jfield ji (str "type") = Some (JStr (str "fpga_interconnect")) →
  sdfInstancesMap_get h sdfData (trim s) = Some rec →
  field h rec (str "cellType") ≠ VStr (str "DFF") →
  field h rec (str "cellType") ≠ VStr (str "LUT_K") →
  ∃ v' h' inst,
    mergeJsonForD3 verilogData sdfData h = Ok (v', h')
    ∧ instance_at h' v' mi i = Some inst
    ∧ length (connections_of h' inst) = length (jconnections ji)
    ∧ ∀ j c jc,
        connections_of h' inst !! j = Some c → jconnections ji !! j = Some jc →
        (∀ first rest,
           elems_of h (field h rec (str "delays")) = Some (first :: rest) →
           own h' c (str "delay") = Some (field h first (str "delay")))
        ∧ (∀ x, field h rec (str "delays") = VNum x →
                own h' c (str "delay") = Some (VNum x))
        ∧ (elems_of h (field h rec (str "delays")) = Some [] →
           same_object (parsed h jn) h' c
           ∧ (jfield jc (str "delay") = None → own h' c (str "delay") = None)).
Proof.
  intros Hvalid Hji Hname Hs Hty Hrec Hdff Hlut.
  destruct (merge_interconnect _ _ _ _ _ _ _ _ _ Hvalid Hji Hname Hs Hty Hrec
              Hdff Hlut)
    as (v' & h' & inst & Hrun & Hat & _ & _ & Hlen & Hconns).
  exists v', h', inst. split; [done|]. split; [done|]. split; [done|].
  intros j c jc Hc Hjc. specialize (Hconns j c jc Hc Hjc).
  unfold connection_delay in Hconns. split; [|split].
  - intros first rest He. rewrite He in Hconns. by destruct Hconns.
  - intros x Hx. rewrite Hx in Hconns. simpl in Hconns. by destruct Hconns.
  - intros He. rewrite He in Hconns. destruct Hconns as [Hsame Habs].
    split; [done|]. apply Habs.
Qed.

(** Evaluation of the merge on a store given in full. *)
Ltac run_merge :=
  lazymatch goal with
  | |- ∃ v' h', mergeJsonForD3 ?vn ?vt ?h = Ok (v', h') ∧ _ =>
      let r := eval vm_compute in (mergeJsonForD3 vn vt h) in
      lazymatch r with
      | Ok (?v, ?h1) => exists v, h1; split; [vm_compute; reflexivity|]
      end
  end.

Ltac take_instance :=
  lazymatch goal with
  | |- ∃ inst, instance_at ?h ?v ?mi ?i = Some inst ∧ _ =>
      let r := eval vm_compute in (instance_at h v mi i) in
      lazymatch r with
      | Some ?x => exists x; split; [vm_compute; reflexivity|]
      end
  end.

(** C1 as the specification states it fails: the instance [r4] of the
    example is of type [fpga_interconnect] and its name matches a record of
    cell type [DFF]. The merge gives the instance the record's [delays] and
    [timingChecks], which the netlist does not have, and gives its
    connection no [delay], although the record's [delays] has a first
    entry. *)
Lemma interconnect_with_dff_record_gets_instance_delays :
  ∃ v' h',
    mergeJsonForD3 Example.verilogData Example.sdfData Example.store
    = Ok (v', h')
    ∧ ∃ inst,
        instance_at h' v' 0 5 = Some inst
        ∧ jfield (Example.instance_of 5) (str "type")
          = Some (JStr (str "fpga_interconnect"))
        ∧ jfield (Example.instance_of 5) (str "name") = Some (JStr (str "r4"))
        ∧ sdfInstancesMap_get Example.store Example.sdfData (trim (str "r4"))
          = Some (Example.record_of 6)
        ∧ field Example.store (Example.record_of 6) (str "cellType")
          = VStr (str "DFF")
        ∧ jfield (Example.instance_of 5) (str "delays") = None
        ∧ own h' inst (str "delays")
          = Some (field Example.store (Example.record_of 6) (str "delays"))
        ∧ own h' inst (str "timingChecks")
          = Some (field Example.store (Example.record_of 6)
                    (str "timingChecks"))
        ∧ is_Some (connection_delay Example.store (Example.record_of 6))
        ∧ ∃ c, connections_of h' inst = [c] ∧ own h' c (str "delay") = None.
Proof.
  run_merge. take_instance.
  repeat (split; [vm_compute; reflexivity|]).
  split; [vm_compute; eauto|].
  eexists. split; vm_compute; reflexivity.
Qed.

(** C2 as the specification states it fails: the instance [r5] of the
    example is of type [fpga_interconnect] and its name matches a record of
    cell type [LUT_K] whose [delays] is the number 7. Its connection gets no
    [delay]; the instance gets the number as [delays]. *)
Lemma interconnect_with_lut_record_gets_no_connection_delay :
  ∃ v' h',
    mergeJsonForD3 Example.verilogData Example.sdfData Example.store
    = Ok (v', h')
    ∧ ∃ inst,
        instance_at h' v' 0 10 = Some inst
        ∧ jfield (Example.instance_of 10) (str "type")
          = Some (JStr (str "fpga_interconnect"))
        ∧ jfield (Example.instance_of 10) (str "name") = Some (JStr (str "r5"))
        ∧ sdfInstancesMap_get Example.store Example.sdfData (trim (str "r5"))
          = Some (Example.record_of 10)
        ∧ field Example.store (Example.record_of 10) (str "delays") = VNum 7
        ∧ own h' inst (str "delays") = Some (VNum 7)
        ∧ ∃ c, connections_of h' inst = [c] ∧ own h' c (str "delay") = None.
Proof.
  run_merge. take_instance.
  repeat (split; [vm_compute; reflexivity|]).
  eexists. split; vm_compute; reflexivity.
Qed.

(** The instance [r1] of the example has three connections and a record
    whose [delays] is [[{delay: 5}, {delay: 9}]]: the three connections get
    the delay 5. *)
Lemma interconnect_annotation_follows_record_cell_type_witness :
  ∃ v' h' inst,
    mergeJsonForD3 Example.verilogData Example.sdfData Example.store
    = Ok (v', h')
    ∧ instance_at h' v' 0 2 = Some inst
    ∧ same_object (parsed Example.store Example.netlist) h' inst
    ∧ length (connections_of h' inst)
      = length (jconnections (Example.instance_of 2))
    ∧ ∀ j c, connections_of h' inst !! j = Some c →
             own h' c (str "delay") = Some (VNum 5).
Proof.
  destruct (interconnect_annotation_follows_record_cell_type
              Example.store Example.verilogData Example.sdfData
              Example.netlist 0 2 (Example.instance_of 2) (str "r1")
              (Example.record_of 3))
    as (v' & h' & inst & Hrun & Hat & Hlen & Hother & _).
  - repeat split; vm_compute; reflexivity.
  - vm_compute; reflexivity.
  - vm_compute; reflexivity.
  - vm_compute; discriminate.
  - vm_compute; reflexivity.
  - vm_compute; reflexivity.
  - destruct Hother as (Hsame & _ & Hconns).
    { vm_compute; discriminate. }
    { vm_compute; discriminate. }
    exists v', h', inst. split; [exact Hrun|]. split; [exact Hat|].
    split; [exact Hsame|]. split; [exact Hlen|]. intros j c Hc.
    destruct (lookup_lt_is_Some_2 (jconnections (Example.instance_of 2)) j)
      as [jc Hjc].
    { rewrite <-Hlen. exact (lookup_lt_Some _ _ _ Hc). }
    pose proof (Hconns j c jc Hc Hjc) as Hdelay.
    assert (connection_delay Example.store (Example.record_of 3)
            = Some (VNum 5)) as Hd by (vm_compute; reflexivity).
    rewrite Hd in Hdelay. exact (proj1 Hdelay).
Defined.

(** The instance [r2] of the example has a record whose [delays] is the
    number 7: its connection gets the delay 7. *)
Lemma interconnect_delay_is_first_entry_or_scalar_witness :
  ∃ v' h' inst,
    mergeJsonForD3 Example.verilogData Example.sdfData Example.store
    = Ok (v', h')
    ∧ instance_at h' v' 0 3 = Some inst
    ∧ length (connections_of h' inst)
      = length (jconnections (Example.instance_of 3))
    ∧ ∀ j c, connections_of h' inst !! j = Some c →
             own h' c (str "delay") = Some (VNum 7).
Proof.
  destruct (interconnect_delay_is_first_entry_or_scalar
              Example.store Example.verilogData Example.sdfData
              Example.netlist 0 3 (Example.instance_of 3) (str "r2")
              (Example.record_of 4))
    as (v' & h' & inst & Hrun & Hat & Hlen & Hconns).
  - repeat split; vm_compute; reflexivity.
  - vm_compute; reflexivity.
  - vm_compute; reflexivity.
  - vm_compute; discriminate.
  - vm_compute; reflexivity.
  - vm_compute; reflexivity.
  - vm_compute; discriminate.
  - vm_compute; discriminate.
  - exists v', h', inst. split; [exact Hrun|]. split; [exact Hat|].
    split; [exact Hlen|]. intros j c Hc.
    destruct (lookup_lt_is_Some_2 (jconnections (Example.instance_of 3)) j)
      as [jc Hjc].
    { rewrite <-Hlen. exact (lookup_lt_Some _ _ _ Hc). }
    destruct (Hconns j c jc Hc Hjc) as (_ & Hnum & _).
    apply Hnum. vm_compute; reflexivity.
Defined.

Lemma other_cell_type_is_skipped_witness :
  ∃ v' h' inst,
    mergeJsonForD3 Example.verilogData Example.sdfData Example.store
    = Ok (v', h')
    ∧ instance_at h' v' 0 6 = Some inst
    ∧ left_unannotated Example.store Example.netlist h' inst
        (Example.instance_of 6).
Proof.
  apply (other_cell_type_is_skipped
           Example.store Example.verilogData Example.sdfData Example.netlist
           0 6 (Example.instance_of 6) (str "mux1") (Example.record_of 7)).
  - repeat split; vm_compute; reflexivity.
  - vm_compute; reflexivity.
  - vm_compute; reflexivity.
  - vm_compute; reflexivity.
  - vm_compute; discriminate.
  - vm_compute; discriminate.
  - vm_compute; discriminate.
Defined.

Lemma unmatched_instance_is_left_unannotated_witness :
  ∃ v' h' inst,
    mergeJsonForD3 Example.verilogData Example.sdfData Example.store
    = Ok (v', h')
    ∧ instance_at h' v' 0 7 = Some inst
    ∧ left_unannotated Example.store Example.netlist h' inst
        (Example.instance_of 7).
Proof.
  apply (unmatched_instance_is_left_unannotated
           Example.store Example.verilogData Example.sdfData Example.netlist
           0 7 (Example.instance_of 7) (str "zz")).
  - repeat split; vm_compute; reflexivity.
  - vm_compute; reflexivity.
  - vm_compute; reflexivity.
  - vm_compute; reflexivity.
Defined.

(** The record [Example.record_of 8] has the [instanceName] [""] and the
    record [Example.record_of 9] has none; the instance 8 of the example
    has the [name] [""]. *)
Lemma nameless_entities_are_skipped_witness :
  (∀ k, sdfInstancesMap_get Example.store Example.sdfData k
        ≠ Some (Example.record_of 8))
  ∧ (∀ k, sdfInstancesMap_get Example.store Example.sdfData k
          ≠ Some (Example.record_of 9))
  ∧ ∃ v' h' inst,
      mergeJsonForD3 Example.verilogData Example.sdfData Example.store
      = Ok (v', h')
      ∧ instance_at h' v' 0 8 = Some inst
      ∧ left_unannotated Example.store Example.netlist h' inst
          (Example.instance_of 8).
Proof.
  destruct nameless_entities_are_skipped as [Hrecs Hinsts].
  split; [|split].
  - intros k. apply Hrecs. right. vm_compute; reflexivity.
  - intros k. apply Hrecs. left. vm_compute; reflexivity.
  - apply (Hinsts Example.store Example.verilogData Example.sdfData
             Example.netlist 0 8 (Example.instance_of 8)).
    + repeat split; vm_compute; reflexivity.
    + vm_compute; reflexivity.
    + right. vm_compute; reflexivity.
Defined.

(** ** Records of one name *)

Lemma sdfInstancesMap_of_last h sdfData m pre r post k :
  sdfInstancesMap_of h sdfData = Ok m →
  records h sdfData = pre ++ r :: post →
  normalized_name h r = Some k →
  Forall (λ r', normalized_name h r' ≠ Some k) post →
  m !! k = Some r.
Proof.
  unfold sdfInstancesMap_of, records, items, field.
  destruct (get_prop h sdfData (str "instances")) as [x| |]; try done.
  unfold mbind, result_bind. simpl.
  destruct (elems_of h x) as [es|] eqn:Hes; simpl.
  2:{ intros _ Hnil. by destruct pre. }
  assert (truthy x = true) as -> by (by destruct x).
  intros Hfill ->. by apply (sdfInstancesMap_fill_last h ∅ pre r post m k).
Qed.



(** A netlist whose instance has the empty name, and timing models whose
    records are named by white space only. *)
Module Blank.
Definition netlist : json :=
  JObj [(str "modules", JObj [(str "top", JObj [
    (str "instances", JArr [
       Example.instance "" "DFF" [Example.connection "D" "n1"]])])])].

Definition timing_dff : json :=
  JObj [(str "instances", JArr [
    Example.record "   " "DFF" (JNum 1) [Example.check "setup" 1];
    Example.record "  " "DFF" (JNum 3) [Example.check "hold" 2]])].

Definition timing_lut : json :=
  JObj [(str "instances", JArr [
    Example.record "  " "LUT_K" (JNum 5) [Example.check "setup" 1]])].

Definition verilogData : val := (build netlist []).1.

Definition dff_sdfData : val := (build timing_dff (build netlist []).2).1.
Definition dff_store : heap := (build timing_dff (build netlist []).2).2.
Definition dff_record (n : nat) : val :=
  default VUndef (records dff_store dff_sdfData !! n).

Definition lut_sdfData : val := (build timing_lut (build netlist []).2).1.
Definition lut_store : heap := (build timing_lut (build netlist []).2).2.
Definition lut_record (n : nat) : val :=
  default VUndef (records lut_store lut_sdfData !! n).

Definition instance_of (n : nat) : json :=
  default JNull (jinstance netlist 0 n).
End Blank.

(** C3 as the specification states it fails for an instance whose name is
    empty: the key made of the name is the empty string, under which the
    lookup holds a record of cell type [DFF] whose [instanceName] is white
    space, and line 21 returns before the lookup is asked. The instance gets
    neither [delays] nor [timingChecks]. *)
Lemma empty_named_instance_gets_nothing_of_a_dff_record :
  ∃ v' h',
    mergeJsonForD3 Blank.verilogData Blank.dff_sdfData Blank.dff_store
    = Ok (v', h')
    ∧ ∃ inst,
        instance_at h' v' 0 0 = Some inst
        ∧ jfield (Blank.instance_of 0) (str "name") = Some (JStr [])
        ∧ sdfInstancesMap_get Blank.dff_store Blank.dff_sdfData (trim [])
          = Some (Blank.dff_record 1)
        ∧ field Blank.dff_store (Blank.dff_record 1) (str "cellType")
          = VStr (str "DFF")
        ∧ field Blank.dff_store (Blank.dff_record 1) (str "delays") = VNum 3
        ∧ own h' inst (str "delays") = None
        ∧ own h' inst (str "timingChecks") = None
        ∧ valid_inputs Blank.dff_store Blank.verilogData Blank.dff_sdfData
            Blank.netlist.
Proof.
  run_merge. take_instance.
  repeat (split; [vm_compute; reflexivity|]).
  repeat split; vm_compute; reflexivity.
Qed.

(** C4 as the specification states it fails for an instance whose name is
    empty: the lookup holds a record of cell type [LUT_K] under the empty
    key, and the instance gets no [delays]. *)
Lemma empty_named_instance_gets_nothing_of_a_lut_record :
  ∃ v' h',
    mergeJsonForD3 Blank.verilogData Blank.lut_sdfData Blank.lut_store
    = Ok (v', h')
    ∧ ∃ inst,
        instance_at h' v' 0 0 = Some inst
        ∧ jfield (Blank.instance_of 0) (str "name") = Some (JStr [])
        ∧ sdfInstancesMap_get Blank.lut_store Blank.lut_sdfData (trim [])
          = Some (Blank.lut_record 0)
        ∧ field Blank.lut_store (Blank.lut_record 0) (str "cellType")
          = VStr (str "LUT_K")
        ∧ field Blank.lut_store (Blank.lut_record 0) (str "delays") = VNum 5
        ∧ own h' inst (str "delays") = None
        ∧ valid_inputs Blank.lut_store Blank.verilogData Blank.lut_sdfData
            Blank.netlist.
Proof.
  run_merge. take_instance.
  repeat (split; [vm_compute; reflexivity|]).
  repeat split; vm_compute; reflexivity.
Qed.


(** ** Trimming *)

Lemma trim_start_app_l ws s :
  Forall (λ c, is_white_space c = true) ws → trim_start (ws ++ s) = trim_start s.
Proof. induction 1 as [|c ws Hc _ IH]; simpl; [done|]. by rewrite Hc. Qed.

Lemma trim_start_app_r s ws :
  Forall (λ c, is_white_space c = true) ws →
  trim_start (s ++ ws)
  = match trim_start s with [] => [] | _ => trim_start s ++ ws end.
Proof.
  intros Hws. induction s as [|c s IH]; simpl.
  - rewrite <-(app_nil_r ws). by rewrite trim_start_app_l.
  - destruct (is_white_space c); [done|]. done.
Qed.

Lemma trim_end_app s ws :
  Forall (λ c, is_white_space c = true) ws → trim_end (s ++ ws) = trim_end s.
Proof.
  intros Hws. unfold trim_end. rewrite reverse_app, trim_start_app_l; [done|].
  by apply Forall_reverse.
Qed.

(** Whitespace around a string does not change what [trim] gives. *)
Lemma trim_padded ws1 s ws2 :
  Forall (λ c, is_white_space c = true) ws1 →
  Forall (λ c, is_white_space c = true) ws2 →
  trim (ws1 ++ s ++ ws2) = trim s.
Proof.
  intros H1 H2. unfold trim.
  rewrite trim_start_app_l, trim_start_app_r by done.
  destruct (trim_start s) as [|c s'] eqn:Hs; [done|].
  by rewrite trim_end_app.
Qed.

(** ** Two stores that differ in the name of a record *)

Section renamed.
Context (h : heap) (r : nat) (name : jsstring).

Local Abbreviation k0 := (str "instanceName").
Local Abbreviation h' := (do_write h (r, k0, VStr name)).

Lemma renamed_get v k : k ≠ k0 → get_prop h' v k = get_prop h v k.
Proof.
  intros Hk. destruct v as [| | | | |l]; try done. simpl.
  rewrite do_write_lookup. unfold writes_at. simpl.
  destruct (h !! l) as [c|]; simpl; [|done].
  case_bool_decide; simpl; [|by rewrite props_with_props].
  rewrite props_with_props. unfold assign_all. simpl.
  rewrite lookup_assign_ne; [done|]. congruence.
Qed.

Lemma renamed_field v k : k ≠ k0 → field h' v k = field h v k.
Proof. intros Hk. unfold field. by rewrite renamed_get. Qed.

Lemma renamed_elems v : elems_of h' v = elems_of h v.
Proof.
  destruct v as [| | | | |l]; try done. simpl.
  rewrite do_write_lookup. destruct (h !! l) as [[ps|es ps]|]; done.
Qed.

Lemma renamed_length : length h' = length h.
Proof. apply length_do_write. Qed.

Lemma renamed_connection_delay rec :
  connection_delay h' rec = connection_delay h rec.
Proof.
  unfold connection_delay.
  rewrite renamed_field, renamed_elems by done.
  destruct (elems_of h _) as [[|first es]|]; try done.
  by rewrite renamed_field.
Qed.

Lemma renamed_instance_writes m t : instance_writes h' m t = instance_writes h m t.
Proof.
  unfold instance_writes.
  destruct (lfield t (str "name")) as [[| | |s| |]|]; try done.
  case_bool_decide; [done|]. destruct (m !! trim s) as [rec|]; [|done].
  rewrite !renamed_field by done.
  destruct (is_str _ (str "DFF")); [done|].
  destruct (is_str _ (str "LUT_K")); [done|].
  destruct (lfield t (str "type")) as [[| | |ty| |]|]; try done.
  case_bool_decide; [|done]. by rewrite renamed_connection_delay.
Qed.

Lemma renamed_netlist_writes m t : netlist_writes h' m t = netlist_writes h m t.
Proof.
  unfold netlist_writes. f_equal. apply list_fmap_ext. intros _ tm _.
  unfold module_writes. f_equal. apply list_fmap_ext. intros _ ti _.
  apply renamed_instance_writes.
Qed.

Lemma renamed_records sdfData : records h' sdfData = records h sdfData.
Proof. unfold records, items. by rewrite renamed_field, renamed_elems. Qed.

(** The key of a record in the renamed store. *)
Lemma renamed_normalized_name_at :
  is_Some (h !! r) →
  normalized_name h' (VRef r)
  = if bool_decide (name = []) then None else Some (trim name).
Proof.
  intros [c Hc]. unfold normalized_name, field. simpl.
  rewrite do_write_lookup. unfold writes_at. simpl. rewrite Hc. simpl.
  rewrite bool_decide_eq_true_2 by done.
  rewrite props_with_props. unfold assign_all. simpl.
  by rewrite lookup_assign_eq.
Qed.

Lemma renamed_normalized_name_other inst :
  inst ≠ VRef r ∨ h !! r = None →
  normalized_name h' inst = normalized_name h inst.
Proof.
  intros Hother. unfold normalized_name, field.
  destruct inst as [| | | | |l]; try done. simpl.
  rewrite do_write_lookup. unfold writes_at. simpl.
  destruct (h !! l) as [c|] eqn:Hc; simpl; [|done].
  case_bool_decide as Hrl; simpl; [|by rewrite props_with_props].
  subst l. destruct Hother as [?|Hnone]; [done|congruence].
Qed.
End renamed.

Lemma sdfInstancesMap_fill_ext h1 h2 m insts m1 m2 :
  (∀ inst, normalized_name h1 inst = normalized_name h2 inst) →
  sdfInstancesMap_fill h1 m insts = Ok m1 →
  sdfInstancesMap_fill h2 m insts = Ok m2 →
  m1 = m2.
Proof.
  intros Hn. revert m. induction insts as [|inst insts IH]; intros m; simpl.
  - by intros [= ->] [= ->].
  - destruct (sdfInstancesMap_set h1 m inst) as [m1'| |] eqn:H1; try done.
    destruct (sdfInstancesMap_set h2 m inst) as [m2'| |] eqn:H2; try done.
    unfold mbind, result_bind. simpl.
    apply sdfInstancesMap_set_inv in H1, H2. rewrite Hn in H1. subst.
    apply IH.
Qed.

Lemma drop_apply_writes ws n h1 h2 cells :
  length h1 = n → length h2 = n →
  drop n (apply_writes ws (h1 ++ cells)) = drop n (apply_writes ws (h2 ++ cells)).
Proof.
  intros Hlen1 Hlen2. apply list_eq. intros j.
  rewrite !lookup_drop, !apply_writes_lookup.
  by rewrite !lookup_app_r, Hlen1, Hlen2 by lia.
Qed.

(** The merge on two stores that differ in the [instanceName] of the object
    at [r], where the two names have one trimmed form and neither is
    empty: one result value, and the same new objects. *)
Lemma merge_renamed h0 verilogData sdfData jn r name1 name2 :
  name1 ≠ [] → name2 ≠ [] → trim name1 = trim name2 →
  valid_inputs (do_write h0 (r, str "instanceName", VStr name1))
               verilogData sdfData jn →
  valid_inputs (do_write h0 (r, str "instanceName", VStr name2))
               verilogData sdfData jn →
  ∃ v' h1 h2,
    mergeJsonForD3 verilogData sdfData
      (do_write h0 (r, str "instanceName", VStr name1)) = Ok (v', h1)
    ∧ mergeJsonForD3 verilogData sdfData
        (do_write h0 (r, str "instanceName", VStr name2)) = Ok (v', h2)
    ∧ drop (length h0) h1 = drop (length h0) h2.
Proof.
  intros Hne1 Hne2 Htrim (Hwf1 & Htim1 & Hjson1 & Hnet)
    (Hwf2 & Htim2 & Hjson2 & _).
  destruct (merge_run _ sdfData jn Hwf1 Htim1 Hnet verilogData Hjson1)
    as (m1 & Hmap1 & Hm1 & Hrun1).
  destruct (merge_run _ sdfData jn Hwf2 Htim2 Hnet verilogData Hjson2)
    as (m2 & Hmap2 & Hm2 & Hrun2).
  assert (m1 = m2) as <-.
  { unfold sdfInstancesMap_of in Hmap1, Hmap2.
    rewrite renamed_get in Hmap1, Hmap2 by done.
    destruct (get_prop h0 sdfData (str "instances")) as [x| |]; try done.
    unfold mbind, result_bind in *. simpl in *.
    destruct (truthy x); [|congruence].
    rewrite renamed_elems in Hmap1, Hmap2.
    destruct (elems_of h0 x) as [es|]; [|congruence].
    eapply sdfInstancesMap_fill_ext; [|done..].
    intros inst.
    assert ((∃ c, inst = VRef r ∧ h0 !! r = Some c)
            ∨ (inst ≠ VRef r ∨ h0 !! r = None)) as [(c & -> & Hc)|Hother].
    { destruct inst as [| | | | |l]; try (by right; left).
      destruct (decide (l = r)) as [->|Hne]; [|right; left; congruence].
      destruct (h0 !! r) as [c|]; [left; eauto|by right; right]. }
    - rewrite !renamed_normalized_name_at by eauto.
      by rewrite !bool_decide_eq_false_2, Htrim by done.
    - by rewrite !renamed_normalized_name_other. }
  unfold cloned in *. unfold clone in *. rewrite !renamed_length in *.
  rewrite !renamed_netlist_writes in *.
  eexists _, _, _. split; [exact Hrun1|]. split; [exact Hrun2|].
  apply drop_apply_writes; apply renamed_length.
Qed.

(** The store [h] with [name] as the [instanceName] of the object at
    [r]. *)
Definition with_instanceName (h : heap) (r : nat) (name : jsstring) : heap :=
  do_write h (r, str "instanceName", VStr name).

(** The code points of the [WhiteSpace] and [LineTerminator] productions of
    ECMAScript, one by one: TAB, LF, VT, FF, CR, SP, NBSP, the other space
    separators of Unicode, LS, PS and ZWNBSP. *)
Definition WhiteSpace_or_LineTerminator : list N :=
  [9; 10; 11; 12; 13; 32; 160; 5760;
   8192; 8193; 8194; 8195; 8196; 8197; 8198; 8199; 8200; 8201; 8202;
   8232; 8233; 8239; 8287; 12288; 65279]%N.

Lemma is_white_space_spec c :
  is_white_space c = true ↔ c ∈ WhiteSpace_or_LineTerminator.
Proof.
  unfold is_white_space, WhiteSpace_or_LineTerminator. split.
  - intros [Hc|Hc]%orb_prop.
    + apply bool_decide_eq_true in Hc.
      repeat (apply elem_of_cons in Hc as [->|Hc];
              [by apply (bool_decide_unpack _)|]).
      by apply elem_of_nil in Hc.
    + apply andb_prop in Hc as [Hlo Hhi].
      apply N.leb_le in Hlo. apply N.leb_le in Hhi.
      assert (c = 8192 ∨ c = 8193 ∨ c = 8194 ∨ c = 8195 ∨ c = 8196
              ∨ c = 8197 ∨ c = 8198 ∨ c = 8199 ∨ c = 8200 ∨ c = 8201
              ∨ c = 8202)%N as Hcases by lia.
      repeat (destruct Hcases as [->|Hcases];
              [by apply (bool_decide_unpack _)|]).
      subst. by apply (bool_decide_unpack _).
  - intros Hc.
    repeat (apply elem_of_cons in Hc as [->|Hc]; [reflexivity|]).
    by apply elem_of_nil in Hc.
Qed.

Lemma trim_start_id s :
  (∀ c, head s = Some c → c ∉ WhiteSpace_or_LineTerminator) →
  trim_start s = s.
Proof.
  destruct s as [|c s]; simpl; [done|]. intros Hc.
  destruct (is_white_space c) eqn:Hws; [|done].
  apply is_white_space_spec in Hws. by destruct (Hc c).
Qed.

Lemma trim_id s :
  (∀ c, head s = Some c → c ∉ WhiteSpace_or_LineTerminator) →
  (∀ c, last s = Some c → c ∉ WhiteSpace_or_LineTerminator) →
  trim s = s.
Proof.
  intros Hhead Hlast. unfold trim, trim_end.
  rewrite (trim_start_id s Hhead), (trim_start_id (reverse s)).
  - apply reverse_involutive.
  - intros c. rewrite head_reverse. apply Hlast.
Qed.

Lemma Forall_is_white_space ws :
  Forall (λ c, c ∈ WhiteSpace_or_LineTerminator) ws →
  Forall (λ c, is_white_space c = true) ws.
Proof.
  intros Hws. eapply Forall_impl; [done|].
  intros c Hc. by apply is_white_space_spec.
Qed.

(** C7, as the code has it. The names are compared after [trim], and as
    they are: an instance named [s] is matched only by a record whose
    [instanceName] is a string that trims to what [s] trims to, code unit by
    code unit. [trim] strips white space and line terminators at both ends
    and nothing else: a name that neither begins nor ends with one of them
    is its own key. For a name [s] that is not empty, the merge with a
    timing record named [s] between such characters and the merge with that
    record named [s] return the same value and make the same objects. *)
Theorem matching_is_exact_up_to_surrounding_white_space :
  (∀ h0 verilogData sdfData jn r s ws1 ws2,
     s ≠ [] →
     Forall (λ c, c ∈ WhiteSpace_or_LineTerminator) ws1 →
     Forall (λ c, c ∈ WhiteSpace_or_LineTerminator) ws2 →
     valid_inputs (with_instanceName h0 r s) verilogData sdfData jn →
     valid_inputs (with_instanceName h0 r (ws1 ++ s ++ ws2))
       verilogData sdfData jn →
     ∃ v' h1 h2,
       mergeJsonForD3 verilogData sdfData (with_instanceName h0 r s)
       = Ok (v', h1)
       ∧ mergeJsonForD3 verilogData sdfData
           (with_instanceName h0 r (ws1 ++ s ++ ws2)) = Ok (v', h2)
       ∧ drop (length h0) h1 = drop (length h0) h2)
  ∧ (∀ h sdfData s rec,
       sdfInstancesMap_get h sdfData (trim s) = Some rec →
       ∃ n, field h rec (str "instanceName") = VStr n ∧ trim n = trim s)
  ∧ (∀ s,
       (∀ c, head s = Some c → c ∉ WhiteSpace_or_LineTerminator) →
       (∀ c, last s = Some c → c ∉ WhiteSpace_or_LineTerminator) →
       trim s = s).
Proof.
  split; [|split].
  - intros h0 verilogData sdfData jn r s ws1 ws2 Hs Hws1 Hws2 Hvalid1 Hvalid2.
    apply Forall_is_white_space in Hws1, Hws2.
    apply (merge_renamed h0 verilogData sdfData jn);
      [done| |by rewrite trim_padded|done..].
    intros Hnil. apply app_eq_nil in Hnil as [_ Hnil].
    by apply app_eq_nil in Hnil as [? _].
  - intros h sdfData s rec Hget. unfold sdfInstancesMap_get in Hget.
    destruct (sdfInstancesMap_of h sdfData) as [m| |] eqn:Hmap; try done.
    apply (sdfInstancesMap_of_lookup _ _ _ _ _ Hmap) in Hget as [Hn _].
    unfold normalized_name in Hn. destruct (truthy rec); [|done].
    destruct (field h rec (str "instanceName")) as [| | | |n|]; try done.
    case_bool_decide; [done|]. injection Hn as Hn. by exists n.
  - apply trim_id.
Qed.

Module Padding.
Definition netlist : json :=
  JObj [(str "modules", JObj [(str "top", JObj [
    (str "instances", JArr [
       Example.instance " " "DFF" [];
       Example.instance "u1" "DFF" []])])])].

Definition timing : json :=
  JObj [(str "instances", JArr [Example.record "x" "DFF" (JNum 4) []])].

Definition verilogData : val := (build netlist []).1.
Definition sdfData : val := (build timing (build netlist []).2).1.
Definition store : heap := (build timing (build netlist []).2).2.

(** The address of the timing record. *)
Definition record_loc : nat :=
  match records store sdfData with
  | VRef l :: _ => l
  | _ => 0
  end.
End Padding.

(** The record of the padding example named [u1] and named [u1] between
    spaces; the record [  ff1 ] of the example, which the instance [ff1]
    matches; and the name [FF 1], which is its own key. *)
Lemma matching_is_exact_up_to_surrounding_white_space_witness :
  (∃ v' h1 h2,
     mergeJsonForD3 Padding.verilogData Padding.sdfData
       (with_instanceName Padding.store Padding.record_loc (str "u1"))
     = Ok (v', h1)
     ∧ mergeJsonForD3 Padding.verilogData Padding.sdfData
         (with_instanceName Padding.store Padding.record_loc
            (str "  " ++ str "u1" ++ str "  "))
       = Ok (v', h2)
     ∧ drop (length Padding.store) h1 = drop (length Padding.store) h2)
  ∧ (∃ n, field Example.store (Example.record_of 1) (str "instanceName")
          = VStr n
          ∧ trim n = trim (str "ff1"))
  ∧ trim (str "FF 1") = str "FF 1".
Proof.
  destruct matching_is_exact_up_to_surrounding_white_space
    as (Hpadded & Hexact & Htrim).
  split; [|split].
  - apply (Hpadded Padding.store Padding.verilogData Padding.sdfData
             Padding.netlist Padding.record_loc (str "u1") (str "  ")
             (str "  ")).
    + vm_compute; discriminate.
    + apply (bool_decide_unpack _). vm_compute. exact I.
    + apply (bool_decide_unpack _). vm_compute. exact I.
    + repeat split; vm_compute; reflexivity.
    + repeat split; vm_compute; reflexivity.
  - apply (Hexact Example.store Example.sdfData (str "ff1")
             (Example.record_of 1)).
    vm_compute; reflexivity.
  - apply (Htrim (str "FF 1")).
    + intros c Hc. vm_compute in Hc. injection Hc as <-.
      apply (bool_decide_unpack _). vm_compute. exact I.
    + intros c Hc. vm_compute in Hc. injection Hc as <-.
      apply (bool_decide_unpack _). vm_compute. exact I.
Defined.

(** C7 as the specification states it fails for the empty name: a record
    whose [instanceName] is empty is not entered in the lookup, a record
    whose [instanceName] is four spaces is entered under the empty key, and
    an instance whose [name] is one space then matches it. *)
Lemma empty_instance_name_padded_is_matched :
  ∃ v1 h1,
    mergeJsonForD3 Padding.verilogData Padding.sdfData
      (with_instanceName Padding.store Padding.record_loc [])
    = Ok (v1, h1)
    ∧ ∃ v2 h2,
        mergeJsonForD3 Padding.verilogData Padding.sdfData
          (with_instanceName Padding.store Padding.record_loc
             (str "  " ++ [] ++ str "  "))
        = Ok (v2, h2)
        ∧ ∃ inst,
            instance_at h1 v1 0 0 = Some inst
            ∧ instance_at h2 v2 0 0 = Some inst
            ∧ own h1 inst (str "delays") = None
            ∧ own h2 inst (str "delays") = Some (VNum 4)
            ∧ drop (length Padding.store) h1 ≠ drop (length Padding.store) h2
            ∧ valid_inputs
                (with_instanceName Padding.store Padding.record_loc [])
                Padding.verilogData Padding.sdfData Padding.netlist
            ∧ valid_inputs
                (with_instanceName Padding.store Padding.record_loc
                   (str "  " ++ [] ++ str "  "))
                Padding.verilogData Padding.sdfData Padding.netlist.
Proof.
  run_merge. run_merge. take_instance.
  split; [vm_compute; reflexivity|].
  split; [vm_compute; reflexivity|].
  split; [vm_compute; reflexivity|].
  split; [vm_compute; discriminate|].
  split; repeat split; vm_compute; reflexivity.
Qed.

(** * Sharing between the inputs and the result *)

(** The objects of a value: [reach h v l] when [v] is the object at [l], or
    keeps it, directly or through other objects, in a property or an
    element. *)
Inductive reach (h : heap) : val → nat → Prop :=
  | reach_here l : reach h (VRef l) l
  | reach_step l c x l' :
      h !! l = Some c → x ∈ cell_vals c → reach h x l' → reach h (VRef l) l'.

(** The value [x] is a primitive value or an object of [v]. *)
Definition shared (h : heap) (v x : val) : Prop :=
  match x with
  | VRef l => reach h v l
  | _ => True
  end.

Lemma reach_trans h v l l' : reach h v l → reach h (VRef l) l' → reach h v l'.
Proof.
  induction 1 as [l|l0 c x l Hc Hx _ IH]; intros Hl'; [done|].
  eapply reach_step; [done..|]. by apply IH.
Qed.

Lemma shared_self h v : shared h v v.
Proof. destruct v; simpl; try done. apply reach_here. Qed.

Lemma shared_kept h v l c x :
  reach h v l → h !! l = Some c → x ∈ cell_vals c → shared h v x.
Proof.
  intros Hl Hc Hx. destruct x as [| | | | |l']; simpl; try done.
  eapply reach_trans; [done|].
  eapply reach_step; [done..|]. apply reach_here.
Qed.

Lemma shared_field h v x k : shared h v x → shared h v (field h x k).
Proof.
  intros Hx. unfold field, get_prop.
  destruct x as [| | | | |l]; simpl; try done.
  destruct (h !! l) as [c|] eqn:Hc; [|done].
  destruct (lookup_prop k (props_of c)) as [y|] eqn:Hk; [|done]. simpl.
  eapply shared_kept; [done..|].
  by eapply props_vals_cell_vals, lookup_prop_elem_snd.
Qed.

Lemma shared_item h v x y : shared h v x → y ∈ items h x → shared h v y.
Proof.
  unfold items, elems_of. intros Hx Hy.
  destruct x as [| | | | |l]; simpl in *; try by apply elem_of_nil in Hy.
  destruct (h !! l) as [[ps|es ps]|] eqn:Hc; simpl in Hy;
    try by apply elem_of_nil in Hy.
  eapply shared_kept; [done..|]. simpl. apply elem_of_app. by left.
Qed.

Lemma shared_record h sdfData rec :
  rec ∈ records h sdfData → shared h sdfData rec.
Proof. apply shared_item, shared_field, shared_self. Qed.

Lemma shared_connection_delay h v rec d :
  shared h v rec → connection_delay h rec = Some d → shared h v d.
Proof.
  intros Hrec. unfold connection_delay.
  pose proof (shared_field h v rec (str "delays") Hrec) as Hdelays.
  destruct (elems_of h (field h rec (str "delays"))) as [[|first es]|] eqn:Hes.
  - done.
  - intros [= <-]. apply shared_field.
    eapply shared_item; [exact Hdelays|].
    unfold items. rewrite Hes. apply list_elem_of_here.
  - destruct (is_number _); [|done]. by intros [= <-].
Qed.

(** Every value the merge writes is a primitive value or an object of the
    timing model. *)
Lemma instance_writes_shared h sdfData m t :
  (∀ k rec, m !! k = Some rec → shared h sdfData rec) →
  Forall (λ w : write, shared h sdfData w.2) (instance_writes h m t).
Proof.
  intros Hm. unfold instance_writes.
  destruct (lfield t (str "name")) as [[| | |s| |]|]; try by constructor.
  case_bool_decide; [by constructor|].
  destruct (m !! trim s) as [rec|] eqn:Hrec; [|by constructor].
  apply Hm in Hrec.
  destruct (is_str (field h rec (str "cellType")) (str "DFF")).
  { constructor; [by apply shared_field|].
    constructor; [by apply shared_field|constructor]. }
  destruct (is_str (field h rec (str "cellType")) (str "LUT_K")).
  { constructor; [by apply shared_field|constructor]. }
  destruct (lfield t (str "type")) as [[| | |ty| |]|]; try by constructor.
  case_bool_decide; [|by constructor].
  destruct (connection_delay h rec) as [d|] eqn:Hd; [|by constructor].
  apply Forall_fmap, Forall_forall. intros c _. simpl.
  by eapply shared_connection_delay.
Qed.

Lemma Forall_concat_fmap {A B} (P : B → Prop) (f : A → list B) xs :
  (∀ x, Forall P (f x)) → Forall P (concat (f <$> xs)).
Proof.
  intros Hf. induction xs as [|x xs IH]; simpl; [constructor|].
  apply Forall_app. by split.
Qed.

Lemma netlist_writes_shared h sdfData m t :
  (∀ k rec, m !! k = Some rec → shared h sdfData rec) →
  Forall (λ w : write, shared h sdfData w.2) (netlist_writes h m t).
Proof.
  intros Hm. unfold netlist_writes, module_writes.
  apply Forall_concat_fmap. intros tm.
  apply Forall_concat_fmap. intros ti.
  by apply instance_writes_shared.
Qed.

(** The objects of a located tree keep objects of the tree only. *)
Lemma lval_in_locs t l : lval t = VRef l → l ∈ locs t.
Proof.
  intros Hl. rewrite locs_children. apply elem_of_app. right.
  destruct t; simpl in *; try done; injection Hl as ->; apply list_elem_of_here.
Qed.

Lemma root_cell_vals t l c x :
  (l, c) ∈ root_cell t → x ∈ cell_vals c → x ∈ lval <$> children t.
Proof.
  destruct t as [| | | |l0 es|l0 fs]; simpl;
    try (by intros ?%elem_of_nil).
  - intros [= -> ->]%list_elem_of_singleton. simpl. by rewrite app_nil_r.
  - intros [= -> ->]%list_elem_of_singleton. simpl. unfold lprops.
    by rewrite <-!list_fmap_compose.
Qed.

Lemma nodes_closed t l c l' :
  (l, c) ∈ nodes t → VRef l' ∈ cell_vals c → l' ∈ locs t.
Proof.
  induction t as [| | | |l0 es IH|l0 fs IH] using ltree_ind;
    try (by intros ?%elem_of_nil).
  - rewrite nodes_children. intros [Hin|Hin]%elem_of_app Hx.
    + apply list_elem_of_In, in_concat in Hin as (ns & Hns & Hin).
      apply list_elem_of_In, list_elem_of_fmap in Hns as (e & -> & He).
      apply list_elem_of_In in Hin.
      rewrite Forall_forall in IH.
      eapply elem_of_sublist; [|by apply (child_locs_sublist (LArr l0 es))].
      by apply IH.
    + apply (root_cell_vals _ _ _ _ Hin), list_elem_of_fmap in Hx
        as (e & He & Hin').
      eapply elem_of_sublist; [|by apply (child_locs_sublist (LArr l0 es))].
      by apply lval_in_locs.
  - rewrite nodes_children. intros [Hin|Hin]%elem_of_app Hx.
    + apply list_elem_of_In, in_concat in Hin as (ns & Hns & Hin).
      apply list_elem_of_In, list_elem_of_fmap in Hns as (e & -> & He).
      apply list_elem_of_In in Hin.
      pose proof He as He'.
      apply list_elem_of_fmap in He' as ([k e'] & -> & Hke).
      rewrite Forall_forall in IH.
      eapply elem_of_sublist; [|by apply (child_locs_sublist (LObj l0 fs))].
      by apply (IH _ Hke).
    + apply (root_cell_vals _ _ _ _ Hin), list_elem_of_fmap in Hx
        as (e & He & Hin').
      eapply elem_of_sublist; [|by apply (child_locs_sublist (LObj l0 fs))].
      by apply lval_in_locs.
Qed.

Lemma assign_vals k x ps y : y ∈ (assign k x ps).*2 → y = x ∨ y ∈ ps.*2.
Proof.
  induction ps as [|[k' v] ps IH]; simpl.
  - intros ->%list_elem_of_singleton. by left.
  - case_bool_decide; simpl.
    + intros [->|Hy]%elem_of_cons; [by left|]. right. by apply elem_of_cons; right.
    + intros [->|Hy]%elem_of_cons; [right; apply list_elem_of_here|].
      destruct (IH Hy) as [->|?]; [by left|]. right. by apply elem_of_cons; right.
Qed.

Lemma assign_all_vals kxs ps y :
  y ∈ (assign_all kxs ps).*2 → y ∈ kxs.*2 ∨ y ∈ ps.*2.
Proof.
  revert ps. induction kxs as [|[k x] kxs IH]; intros ps; simpl; [by right|].
  intros [Hy|Hy]%IH.
  - left. by apply elem_of_cons; right.
  - apply assign_vals in Hy as [->|Hy]; [left; apply list_elem_of_here|by right].
Qed.

Lemma with_props_vals c ps y :
  y ∈ cell_vals (with_props c ps) → y ∈ cell_vals c ∨ y ∈ ps.*2.
Proof.
  destruct c as [ps0|es ps0]; simpl; [by right|].
  intros [?|?]%elem_of_app; [left; apply elem_of_app; by left|by right].
Qed.

Lemma writes_at_vals l ws y :
  y ∈ (writes_at l ws).*2 → ∃ w : write, w ∈ ws ∧ w.2 = y.
Proof.
  intros ([k x] & -> & Hin)%list_elem_of_fmap.
  apply list_elem_of_omap in Hin as (w & Hw & Heq).
  exists w. split; [done|]. by case_bool_decide; [injection Heq as _ <-|].
Qed.

(** A value of the result store: an object the merge made, or a primitive
    value or object of the timing model. *)
Definition made_or_shared (h : heap) (sdfData x : val) : Prop :=
  match x with
  | VRef l => length h ≤ l ∨ reach h sdfData l
  | _ => True
  end.

Lemma shared_made_or_shared h sdfData x :
  shared h sdfData x → made_or_shared h sdfData x.
Proof. destruct x; simpl; try done. by right. Qed.

Section sharing.
Context (h : heap) (sdfData : val) (jn : json) (m : gmap jsstring val).
Context (Hwf : heap_wf h = true) (Hnet : netlist_ok jn = true).
Context (Hm : map_ok h m).
Context (Hrecords : ∀ k rec, m !! k = Some rec → rec ∈ records h sdfData).

Local Abbreviation h' := (merged h jn m).

Lemma length_merged : length h' = length h + length (nodes (clone h jn)).
Proof.
  unfold merged. rewrite length_apply_writes. unfold cloned.
  by rewrite length_app, length_fmap.
Qed.

Lemma merged_take : take (length h) h' = h.
Proof.
  apply list_eq. intros i. destruct (decide (i < length h)) as [Hi|Hi].
  - rewrite lookup_take_lt by done. by apply merged_old.
  - rewrite lookup_take_ge by lia. symmetry. apply lookup_ge_None. lia.
Qed.

Lemma merged_kept l c x :
  made_or_shared h sdfData (VRef l) → h' !! l = Some c → x ∈ cell_vals c →
  made_or_shared h sdfData x.
Proof.
  intros Hl Hc Hx. destruct (decide (l < length h)) as [Hlt|Hge].
  - destruct Hl as [?|Hl]; [lia|].
    rewrite merged_old in Hc by done.
    apply shared_made_or_shared. by eapply shared_kept.
  - clear Hl. unfold merged in Hc. rewrite apply_writes_lookup in Hc.
    destruct (cloned h jn !! l) as [c0|] eqn:Hc0; [|done].
    injection Hc as <-.
    apply with_props_vals in Hx as [Hx|Hx]; [|apply assign_all_vals in Hx as [Hx|Hx]].
    + unfold cloned in Hc0. rewrite lookup_app_r in Hc0 by lia.
      apply list_elem_of_lookup_2, list_elem_of_fmap in Hc0 as ([l0 c1] & -> & Hin).
      destruct x as [| | | | |lx]; simpl; try done. left.
      pose proof (nodes_closed _ _ _ _ Hin Hx) as Hlx.
      unfold clone in Hlx. rewrite locs_locate in Hlx.
      apply elem_of_seq in Hlx. lia.
    + apply writes_at_vals in Hx as (w & Hw & <-).
      apply shared_made_or_shared.
      pose proof (netlist_writes_shared h sdfData m (clone h jn)) as Hws.
      rewrite Forall_forall in Hws. apply Hws; [|done].
      intros k rec Hk. by eapply shared_record, Hrecords.
    + unfold cloned in Hc0. rewrite lookup_app_r in Hc0 by lia.
      apply list_elem_of_lookup_2, list_elem_of_fmap in Hc0 as ([l0 c1] & -> & Hin).
      destruct x as [| | | | |lx]; simpl; try done. left.
      assert (VRef lx ∈ cell_vals c1) as Hx' by by apply props_vals_cell_vals.
      pose proof (nodes_closed _ _ _ _ Hin Hx') as Hlx.
      unfold clone in Hlx. rewrite locs_locate in Hlx.
      apply elem_of_seq in Hlx. lia.
Qed.

(** An old object of the result is an object of the timing model. *)
Lemma merged_reach x l :
  reach h' x l → made_or_shared h sdfData x → l < length h →
  reach h sdfData l.
Proof.
  induction 1 as [l|l0 c x l Hc Hx _ IH]; intros Hgood Hl.
  - destruct Hgood as [?|?]; [lia|done].
  - apply IH; [|done]. by eapply merged_kept.
Qed.

Lemma clone_root : ∃ l, lval (clone h jn) = VRef l ∧ length h ≤ l.
Proof.
  destruct (clone_modules h jn Hnet) as (_ & _ & _ & Hobj & _).
  apply erase_jobj in Hobj as (l & fs & Hclone).
  exists l. rewrite Hclone. split; [done|].
  assert (l ∈ locs (clone h jn)) as Hin.
  { apply lval_in_locs. by rewrite Hclone. }
  unfold clone in Hin. rewrite locs_locate in Hin.
  apply elem_of_seq in Hin. lia.
Qed.

End sharing.




(** * The fuel of [stringify]

    In a store of a JavaScript program [stringify] has fuel enough: it gives
    a text or throws, and is never [Stuck]. *)

Lemma serialize_elems_not_Stuck (f : val → result (option json)) vs :
  Forall (λ v, f v ≠ Stuck) vs → serialize_elems f vs ≠ Stuck.
Proof.
  induction 1 as [|v vs Hv _ IH]; simpl; [done|].
  unfold mbind, result_bind, rbind.
  destruct (f v); [|done..].
  by destruct (serialize_elems f vs).
Qed.

Lemma serialize_props_not_Stuck (f : val → result (option json))
    (ps : list (jsstring * val)) :
  Forall (λ v, f v ≠ Stuck) ps.*2 → serialize_props f ps ≠ Stuck.
Proof.
  induction ps as [|[k v] ps IH]; simpl; [done|].
  intros [Hv Hps]%Forall_cons.
  unfold mbind, result_bind, rbind.
  destruct (f v); [|done..].
  specialize (IH Hps). by destruct (serialize_props f ps).
Qed.

Lemma stack_length (n : nat) (stack : list nat) :
  NoDup stack → Forall (λ l, l < n) stack → length stack ≤ n.
Proof.
  intros Hnd Hlt.
  transitivity (length (seq 0 n)); [|by rewrite length_seq].
  apply submseteq_length, NoDup_submseteq; [done|].
  intros l Hl. rewrite Forall_forall in Hlt. apply elem_of_seq.
  specialize (Hlt l Hl). lia.
Qed.

Lemma serialize_not_Stuck fuel h stack v :
  heap_wf h = true → val_in (length h) v = true →
  NoDup stack → Forall (λ l, l < length h) stack →
  length h < fuel + length stack →
  serialize fuel h stack v ≠ Stuck.
Proof.
  intros Hwf. revert stack v.
  induction fuel as [|fuel IH]; intros stack v Hv Hnd Hlt Hfuel;
    destruct v as [| | | | |l]; simpl; try done.
  - pose proof (stack_length _ _ Hnd Hlt). lia.
  - case_bool_decide as Hl; [done|].
    apply val_in_ref in Hv.
    destruct (h !! l) as [c|] eqn:Hc;
      [|apply lookup_ge_None in Hc; lia].
    pose proof (heap_wf_lookup h l c Hwf Hc) as Hvals.
    assert (∀ v, val_in (length h) v = true →
                 serialize fuel h (l :: stack) v ≠ Stuck) as Hrec.
    { intros v' Hv'. apply IH; [done| | |simpl; lia].
      - by constructor.
      - by constructor. }
    destruct c as [ps|es ps]; simpl in Hvals.
    + assert (serialize_props (serialize fuel h (l :: stack)) ps ≠ Stuck)
        as Hps.
      { apply serialize_props_not_Stuck.
        eapply Forall_impl; [exact Hvals|]. intros v'. apply Hrec. }
      unfold mbind, result_bind, rbind.
      by destruct (serialize_props _ ps).
    + assert (serialize_elems (serialize fuel h (l :: stack)) es ≠ Stuck)
        as Hes.
      { apply serialize_elems_not_Stuck.
        apply Forall_app in Hvals as [Hvals _].
        eapply Forall_impl; [exact Hvals|]. intros v'. apply Hrec. }
      unfold mbind, result_bind, rbind.
      by destruct (serialize_elems _ es).
Qed.

Lemma stringify_not_Stuck h v :
  heap_wf h = true → val_in (length h) v = true → stringify h v ≠ Stuck.
Proof.
  intros Hwf Hv. apply serialize_not_Stuck; try done; [constructor..|simpl; lia].
Qed.

(** * Further properties of the merge

    ** What the merge throws *)

Lemma get_prop_throws h v k e : get_prop h v k = Throw e → e = TypeError.
Proof.
  destruct v as [| | | | |l]; simpl; try done; try (by intros [= <-]).
  by destruct (h !! l).
Qed.

(** [JSON.stringify] throws for a cyclic structure only, and returns
    [undefined] for [undefined] only. *)
Lemma serialize_throws fuel h stack v e :
  serialize fuel h stack v = Throw e → e = TypeError.
Proof.
  revert stack v. induction fuel as [|fuel IH]; intros stack v;
    destruct v as [| | | | |l]; simpl; try done.
  case_bool_decide; [by intros [= <-]|].
  destruct (h !! l) as [[ps|es ps]|]; [| |done].
  - assert (serialize_props (serialize fuel h (l :: stack)) ps = Throw e
            → e = TypeError) as Hps.
    { induction ps as [|[k x] ps IHps]; simpl; [done|].
      unfold mbind, result_bind, rbind.
      destruct (serialize fuel h (l :: stack) x) as [j| |] eqn:Hx.
      - destruct (serialize_props _ ps); [done|by intros [= <-]; apply IHps|done].
      - intros [= <-]. by eapply IH.
      - done. }
    unfold mbind, result_bind, rbind.
    destruct (serialize_props _ ps); [done|by intros [= <-]; apply Hps|done].
  - assert (serialize_elems (serialize fuel h (l :: stack)) es = Throw e
            → e = TypeError) as Hes.
    { induction es as [|x es IHes]; simpl; [done|].
      unfold mbind, result_bind, rbind.
      destruct (serialize fuel h (l :: stack) x) as [j| |] eqn:Hx.
      - destruct (serialize_elems _ es); [done|by intros [= <-]; apply IHes|done].
      - intros [= <-]. by eapply IH.
      - done. }
    unfold mbind, result_bind, rbind.
    destruct (serialize_elems _ es); [done|by intros [= <-]; apply Hes|done].
Qed.

Lemma serialize_undefined fuel h stack v :
  serialize fuel h stack v = Ok None → v = VUndef.
Proof.
  destruct fuel, v as [| | | | |l]; simpl; try done.
  case_bool_decide; [done|].
  destruct (h !! l) as [[ps|es ps]|]; [| |done];
    unfold mbind, result_bind, rbind.
  - by destruct (serialize_props _ ps).
  - by destruct (serialize_elems _ es).
Qed.

(** X2. Line 7 reads [sdfData.instances] before anything is looked up: for a
    timing model that is [null] or [undefined] the merge never returns, and
    it throws a TypeError whenever the netlist could be cloned. *)
Theorem nullish_timing_model_throws verilogData sdfData h :
  is_nullish sdfData = true →
  (∀ r, mergeJsonForD3 verilogData sdfData h ≠ Ok r)
  ∧ (∀ jn, stringify h verilogData = Ok (Some jn) →
           mergeJsonForD3 verilogData sdfData h = Throw TypeError).
Proof.
  intros Hnull.
  assert (∀ jn, stringify h verilogData = Ok (Some jn) →
                mergeJsonForD3 verilogData sdfData h = Throw TypeError) as Hthrow.
  { intros jn Hjson. unfold mergeJsonForD3.
    erewrite bind_Ok by (by apply reading_Ok).
    erewrite bind_Ok by (simpl; by rewrite build_locate).
    unfold mbind, M_bind, reading, sdfInstancesMap_of.
    by destruct sdfData. }
  split; [|done]. intros r.
  unfold mergeJsonForD3, JSON_stringify.
  unfold mbind at 1. unfold M_bind, reading.
  destruct (stringify h verilogData) as [[jn|]| |] eqn:Hjson; try done.
  specialize (Hthrow jn eq_refl). unfold mergeJsonForD3, JSON_stringify in Hthrow.
  unfold mbind at 1 in Hthrow. unfold M_bind, reading in Hthrow.
  rewrite Hjson in Hthrow. by rewrite Hthrow.
Qed.

Lemma nullish_timing_model_throws_witness :
  (∀ r, mergeJsonForD3 Example.verilogData VNull Example.store ≠ Ok r)
  ∧ (∀ jn, stringify Example.store Example.verilogData = Ok (Some jn) →
           mergeJsonForD3 Example.verilogData VNull Example.store
           = Throw TypeError).
Proof.
  apply (nullish_timing_model_throws Example.verilogData VNull Example.store).
  reflexivity.
Defined.

(** The run of the merge up to line 18: the clone is made and the lookup is
    built. *)
Lemma merge_cloned h verilogData sdfData jn :
  heap_wf h = true → timing_ok h sdfData = true →
  stringify h verilogData = Ok (Some jn) →
  ∃ m, sdfInstancesMap_of h sdfData = Ok m ∧ map_ok h m
       ∧ mergeJsonForD3 verilogData sdfData h
         = (modules ← get (lval (clone h jn)) (str "modules");
            ms ← Object_values modules;
            _ ← forEach ms (annotate_module m);
            modules' ← get (lval (clone h jn)) (str "modules");
            ms' ← Object_values modules';
            _ ← forEach ms' count_module;
            mret (lval (clone h jn))) (cloned h jn).
Proof.
  intros Hwf Htiming Hjson.
  destruct (sdfInstancesMap_of_Ok h sdfData Hwf Htiming) as (m & Hmap & Hm).
  exists m. split; [done|]. split; [done|].
  unfold mergeJsonForD3.
  erewrite bind_Ok by (by apply reading_Ok).
  erewrite bind_Ok by (simpl; by rewrite build_locate).
  fold (clone h jn). fold (cloned h jn).
  erewrite bind_Ok; [done|].
  apply reading_Ok. rewrite (sdfInstancesMap_of_agrees _ h); [done..| |].
  - apply agrees_app.
  - unfold timing_ok in Htiming. apply andb_prop in Htiming as [Ht _].
    by apply andb_prop in Ht as [_ ?].
Qed.

Lemma lfield_locate h jn k :
  jfield jn k = erase <$> lfield (clone h jn) k.
Proof. rewrite <-jfield_erase. unfold clone. by rewrite erase_locate. Qed.

(** X3. Line 18 takes [Object.values(finalJSON.modules)]: for a netlist whose
    text has no [modules], or has [null] there, the merge throws a
    TypeError. A netlist that is [null], a primitive value or an array is
    such a netlist. *)
Theorem netlist_without_modules_throws h verilogData sdfData jn :
  heap_wf h = true → timing_ok h sdfData = true →
  stringify h verilogData = Ok (Some jn) →
  jfield jn (str "modules") = None ∨ jfield jn (str "modules") = Some JNull →
  mergeJsonForD3 verilogData sdfData h = Throw TypeError.
Proof.
  intros Hwf Htiming Hjson Hmods.
  destruct (merge_cloned h verilogData sdfData jn Hwf Htiming Hjson)
    as (m & _ & _ & ->).
  assert (clone h jn = LNull ∨ clone h jn ≠ LNull) as [Hnull|Hnn].
  { destruct (clone h jn); (by left) || (by right). }
  { rewrite Hnull. done. }
  pose proof (inv_built h jn) as [_ Htr _].
  fold (clone h jn) in Htr. fold (cloned h jn) in Htr.
  erewrite bind_Ok
    by (apply get_Ok, tracks_get; [done..|apply modules_not_annotation]).
  assert (is_nullish (lget (clone h jn) (str "modules")) = true) as Hv.
  { unfold lget. rewrite (lfield_locate h) in Hmods.
    destruct (lfield (clone h jn) (str "modules")) as [t|]; [|done].
    destruct Hmods as [?|Hmods]; [done|].
    injection Hmods as Hmods. by destruct t. }
  unfold mbind, M_bind, Object_values, reading.
  by destruct (lget _ _).
Qed.

Lemma netlist_without_modules_throws_witness :
  mergeJsonForD3 Example.sdfData Example.sdfData Example.store
  = Throw TypeError.
Proof.
  apply (netlist_without_modules_throws
           Example.store Example.sdfData Example.sdfData Example.timing).
  - vm_compute; reflexivity.
  - vm_compute; reflexivity.
  - vm_compute; reflexivity.
  - left. vm_compute; reflexivity.
Defined.

(** ** The final check *)

(** A computation that leaves the store as it finds it. *)
Definition read_only {A} (m : M A) : Prop :=
  ∀ h a h', m h = Ok (a, h') → h' = h.

Lemma read_only_ret {A} (a : A) : read_only (mret a).
Proof. by intros h a' h' [= _ <-]. Qed.

Lemma read_only_bind {A B} (m : M A) (f : A → M B) :
  read_only m → (∀ a, read_only (f a)) → read_only (m ≫= f).
Proof.
  intros Hm Hf h b h'. unfold mbind, M_bind.
  destruct (m h) as [[a h1]| |] eqn:Hmh; try done.
  apply Hm in Hmh as ->. apply Hf.
Qed.

Lemma read_only_reading {A} (f : heap → result A) : read_only (reading f).
Proof. intros h a h'. unfold reading. destruct (f h); by intros [= _ <-]. Qed.

Lemma read_only_forEach {A} (xs : list A) (f : A → M unit) :
  (∀ x, read_only (f x)) → read_only (forEach xs f).
Proof.
  intros Hf. induction xs as [|x xs IH]; simpl.
  - apply read_only_ret.
  - by apply read_only_bind.
Qed.

Lemma read_only_call_forEach v (f : val → M unit) :
  (∀ x, read_only (f x)) → read_only (call_forEach v f).
Proof.
  intros Hf h a h'. unfold call_forEach.
  destruct v as [| | | | |l]; try done.
  destruct (h !! l) as [[ps|es ps]|]; try done.
  by apply read_only_forEach.
Qed.

Lemma read_only_some xs (f : val → M bool) :
  (∀ x, read_only (f x)) → read_only (some xs f).
Proof.
  intros Hf. induction xs as [|x xs IH]; simpl.
  - apply read_only_ret.
  - apply read_only_bind; [done|]. intros [|]; [apply read_only_ret|done].
Qed.

Lemma read_only_call_some v (f : val → M bool) :
  (∀ x, read_only (f x)) → read_only (call_some v f).
Proof.
  intros Hf h a h'. unfold call_some.
  destruct v as [| | | | |l]; try done.
  destruct (h !! l) as [[ps|es ps]|]; try done.
  by apply read_only_some.
Qed.

Ltac read_only :=
  repeat match goal with
  | |- read_only (mret _) => apply read_only_ret
  | |- read_only (get _ _) => apply read_only_reading
  | |- read_only (_ ≫= _) => apply read_only_bind; [|intros ?]
  | |- read_only (if ?b then _ else _) => destruct b
  end.

Lemma read_only_count_module module : read_only (count_module module).
Proof.
  unfold count_module. read_only.
  apply read_only_call_forEach. intros x.
  unfold count_instance, has_delay. read_only.
  apply read_only_call_some. intros c. read_only.
Qed.

(** X4. The final check of lines 62-71 writes nothing: whenever the pass over
    the modules returns, the store is what it was before the pass, so the
    pass can only matter by throwing. *)
Theorem final_check_writes_nothing (ms : list val) (h : heap) :
  match forEach ms count_module h with
  | Ok (_, h') => h' = h
  | _ => True
  end.
Proof.
  destruct (forEach ms count_module h) as [[u h']| |] eqn:Hrun; [|done..].
  eapply read_only_forEach; [|done]. apply read_only_count_module.
Qed.

(** ** The lookup *)

(** X5. Lines 6-15, in full: under each key, the lookup holds the last timing
    record in source order whose trimmed [instanceName] is the key, and it
    has no key that is not the trimmed, non-empty [instanceName] of a
    record. *)
Theorem lookup_holds_last_record_of_each_name h sdfData m k :
  sdfInstancesMap_of h sdfData = Ok m →
  m !! k = last (filter (λ r, normalized_name h r = Some k) (records h sdfData)).
Proof.
  assert (∀ insts m0 m',
            sdfInstancesMap_fill h m0 insts = Ok m' →
            m' !! k = match last (filter (λ r, normalized_name h r = Some k)
                                         insts) with
                      | Some r => Some r
                      | None => m0 !! k
                      end) as Hfill.
  { induction insts as [|inst insts IH]; intros m0 m'; simpl.
    - by intros [= ->].
    - destruct (sdfInstancesMap_set h m0 inst) as [m1| |] eqn:Hset; try done.
      unfold mbind, result_bind. simpl. intros Hfill.
      rewrite (IH _ _ Hfill).
      apply sdfInstancesMap_set_inv in Hset as ->.
      rewrite filter_cons. case_decide as Hk.
      + rewrite Hk, last_cons.
        destruct (last (filter _ insts)); [done|apply lookup_insert_eq].
      + destruct (last (filter _ insts)); [done|].
        destruct (normalized_name h inst) as [k'|]; [|done].
        apply lookup_insert_ne. congruence. }
  unfold sdfInstancesMap_of, records, items, field.
  destruct (get_prop h sdfData (str "instances")) as [x| |]; try done.
  unfold mbind, result_bind. simpl.
  destruct (truthy x) eqn:Hx.
  - destruct (elems_of h x) as [es|]; simpl.
    + intros Hm. rewrite (Hfill _ _ _ Hm), lookup_empty.
      by destruct (last _).
    + by intros [= <-].
  - intros [= <-]. rewrite lookup_empty.
    destruct (elems_of h x) as [es|] eqn:Hes; [|done].
    by destruct x.
Qed.

Lemma lookup_holds_last_record_of_each_name_witness :
  ∃ m, sdfInstancesMap_of Example.store Example.sdfData = Ok m
       ∧ m !! trim (str "ff1")
         = last (filter (λ r, normalized_name Example.store r
                              = Some (trim (str "ff1")))
                        (records Example.store Example.sdfData)).
Proof.
  eexists. split; [vm_compute; reflexivity|].
  apply (lookup_holds_last_record_of_each_name Example.store Example.sdfData).
  vm_compute; reflexivity.
Defined.

(** ** What the merge writes *)

Lemma concat_fmap_nil {A B} (f : A → list B) xs :
  (∀ x, x ∈ xs → f x = []) → concat (f <$> xs) = [].
Proof.
  induction xs as [|x xs IH]; intros Hf; simpl; [done|].
  rewrite Hf by apply list_elem_of_here. apply IH.
  intros y Hy. by apply Hf, list_elem_of_further.
Qed.

(** X6. When no instance of the netlist has a name that is a key of the lookup,
    the merge returns the clone as [JSON.parse] made it: its value and its
    store are those of [JSON.parse(JSON.stringify(verilogData))]. This is so
    for a timing model without [instances], with [instances] that is no
    array, and with records for other instances only. *)
Theorem unmatched_netlist_is_returned_as_cloned h verilogData sdfData jn :
  valid_inputs h verilogData sdfData jn →
  (∀ mi i ji s,
     jinstance jn mi i = Some ji → jfield ji (str "name") = Some (JStr s) →
     s ≠ [] → sdfInstancesMap_get h sdfData (trim s) = None) →
  mergeJsonForD3 verilogData sdfData h = Ok (build jn h).
Proof.
  intros (Hwf & Htiming & Hjson & Hnet) Hnone.
  destruct (merge_run h sdfData jn Hwf Htiming Hnet verilogData Hjson)
    as (m & Hmap & Hm & ->).
  rewrite build_locate. fold (clone h jn). fold (cloned h jn).
  assert (netlist_writes h m (clone h jn) = []) as ->; [|done].
  unfold netlist_writes, module_writes.
  apply concat_fmap_nil. intros tm [mi Hmi]%list_elem_of_lookup_1.
  apply concat_fmap_nil. intros ti [i Hi]%list_elem_of_lookup_1.
  assert (linstance (clone h jn) mi i = Some ti) as Hti.
  { unfold linstance. rewrite Hmi. simpl. exact Hi. }
  assert (jinstance jn mi i = Some (erase ti)) as Hji.
  { rewrite <-(erase_locate jn (length h)). fold (clone h jn).
    by rewrite jinstance_erase, Hti. }
  unfold instance_writes.
  destruct (lfield ti (str "name")) as [[| | |s| |]|] eqn:Hname; try done.
  case_bool_decide as Hs; [done|].
  rewrite <-(sdfInstancesMap_get_Ok h sdfData m) by done.
  rewrite (Hnone mi i (erase ti) s); [done..| |done].
  by rewrite jfield_erase, Hname.
Qed.

Lemma unmatched_netlist_is_returned_as_cloned_witness :
  mergeJsonForD3 Padding.verilogData Padding.sdfData Padding.store
  = Ok (build Padding.netlist Padding.store).
Proof.
  apply (unmatched_netlist_is_returned_as_cloned
           Padding.store Padding.verilogData Padding.sdfData Padding.netlist).
  - repeat split; vm_compute; reflexivity.
  - intros [|mi] [|[|i]] ji s Hji Hname Hs;
      try (vm_compute in Hji; discriminate).
    + vm_compute in Hji. injection Hji as <-.
      vm_compute in Hname. injection Hname as <-.
      vm_compute; reflexivity.
    + vm_compute in Hji. injection Hji as <-.
      vm_compute in Hname. injection Hname as <-.
      vm_compute; reflexivity.
Defined.

(** X7. Whatever the timing model, the merge writes the three properties
    [delays], [timingChecks] and [delay] and nothing else: it returns the
    root object that [JSON.parse] made, allocates no object after the clone,
    and every object of the store, old or new, has the elements and, under
    every other name, the property that it had when [JSON.parse]
    returned. *)
Theorem merge_writes_annotations_only h verilogData sdfData jn :
  valid_inputs h verilogData sdfData jn →
  ∃ h',
    mergeJsonForD3 verilogData sdfData h = Ok ((build jn h).1, h')
    ∧ length h' = length (parsed h jn)
    ∧ ∀ l,
        elems_of h' (VRef l) = elems_of (parsed h jn) (VRef l)
        ∧ ∀ k, k ∉ annotations →
               own h' (VRef l) k = own (parsed h jn) (VRef l) k.
Proof.
  intros (Hwf & Htiming & Hjson & Hnet).
  destruct (merge_run h sdfData jn Hwf Htiming Hnet verilogData Hjson)
    as (m & Hmap & Hm & Hrun).
  eexists. split.
  { rewrite build_locate. exact Hrun. }
  rewrite parsed_cloned. split; [apply length_apply_writes|].
  intros l. simpl. rewrite apply_writes_lookup.
  destruct (cloned h jn !! l) as [c|]; simpl; [|done].
  split; [by destruct c|]. intros k Hk.
  symmetry. eapply cell_sim_assign_all; [|done].
  eapply writes_at_annotations. by apply netlist_writes_ok.
Qed.

Lemma merge_writes_annotations_only_witness :
  ∃ h',
    mergeJsonForD3 Example.verilogData Example.sdfData Example.store
    = Ok ((build Example.netlist Example.store).1, h')
    ∧ length h' = length (parsed Example.store Example.netlist)
    ∧ ∀ l,
        elems_of h' (VRef l)
        = elems_of (parsed Example.store Example.netlist) (VRef l)
        ∧ ∀ k, k ∉ annotations →
               own h' (VRef l) k
               = own (parsed Example.store Example.netlist) (VRef l) k.
Proof.
  apply (merge_writes_annotations_only
           Example.store Example.verilogData Example.sdfData Example.netlist).
  repeat split; vm_compute; reflexivity.
Defined.

(** ** Cyclic netlists *)

(** The values of an object that [JSON.stringify] writes: the properties of
    an ordinary object, the elements of an array. *)
Definition serialized_vals (c : cell) : list val :=
  match c with
  | Obj ps => ps.*2
  | Arr es _ => es
  end.

(** The objects that are written when [v] is: [v] itself and the objects
    written for its properties or elements. *)
Inductive in_text (h : heap) : val → nat → Prop :=
  | in_text_here l : in_text h (VRef l) l
  | in_text_step l c x l' :
      h !! l = Some c → x ∈ serialized_vals c → in_text h x l' →
      in_text h (VRef l) l'.

Lemma serialize_elems_Ok_inv (f : val → result (option json)) vs js x :
  serialize_elems f vs = Ok js → x ∈ vs → ∃ oj, f x = Ok oj.
Proof.
  revert js. induction vs as [|v vs IH]; intros js; simpl.
  - by intros _ ?%elem_of_nil.
  - unfold mbind, result_bind, rbind.
    destruct (f v) as [oj| |] eqn:Hv; try done.
    destruct (serialize_elems f vs) as [js'| |]; try done.
    intros _ [->|Hx]%elem_of_cons; [by eexists|by eapply IH].
Qed.

Lemma serialize_props_Ok_inv (f : val → result (option json))
    (ps : list (jsstring * val)) fs x :
  serialize_props f ps = Ok fs → x ∈ ps.*2 → ∃ oj, f x = Ok oj.
Proof.
  revert fs. induction ps as [|[k v] ps IH]; intros fs; simpl.
  - by intros _ ?%elem_of_nil.
  - unfold mbind, result_bind, rbind.
    destruct (f v) as [oj| |] eqn:Hv; try done.
    destruct (serialize_props f ps) as [fs'| |]; try done.
    intros _ [->|Hx]%elem_of_cons; [by eexists|by eapply IH].
Qed.

Lemma serialize_ref_inv fuel h stack l oj :
  serialize fuel h stack (VRef l) = Ok oj →
  ∃ fuel' c,
    fuel = S fuel' ∧ (l ∉ stack) ∧ h !! l = Some c
    ∧ ∀ x, x ∈ serialized_vals c →
           ∃ ox, serialize fuel' h (l :: stack) x = Ok ox.
Proof.
  destruct fuel as [|fuel]; simpl; [done|].
  case_bool_decide as Hl; [done|].
  destruct (h !! l) as [[ps|es ps]|] eqn:Hc; [| |done];
    unfold mbind, result_bind, rbind.
  - destruct (serialize_props _ ps) as [fs| |] eqn:Hps; try done.
    intros _. eexists _, _. repeat split; try done.
    intros x Hx. by eapply serialize_props_Ok_inv.
  - destruct (serialize_elems _ es) as [js| |] eqn:Hes; try done.
    intros _. eexists _, _. repeat split; try done.
    intros x Hx. by eapply serialize_elems_Ok_inv.
Qed.

(** No object that is written is one of those being written. *)
Lemma serialize_Ok_stack fuel h stack v oj l :
  serialize fuel h stack v = Ok oj → in_text h v l → l ∉ stack.
Proof.
  revert stack v oj. induction fuel as [|fuel IH]; intros stack v oj Hv Hl.
  - destruct Hl; by apply serialize_ref_inv in Hv as (? & ? & ? & _).
  - destruct Hl as [l|l0 c x l Hc Hx Hl].
    + by apply serialize_ref_inv in Hv as (? & ? & _ & ? & _).
    + apply serialize_ref_inv in Hv as (fuel' & c' & [= <-] & _ & Hc' & Hxs).
      rewrite Hc in Hc'. injection Hc' as <-.
      destruct (Hxs x Hx) as [ox Hox].
      apply (IH _ _ _ Hox) in Hl. by apply not_elem_of_cons in Hl as [_ ?].
Qed.

Lemma serialize_Ok_in_text fuel h stack v oj l :
  serialize fuel h stack v = Ok oj → in_text h v l →
  ∃ fuel' stack' oj', serialize fuel' h stack' (VRef l) = Ok oj'.
Proof.
  intros Hv Hl. revert fuel stack oj Hv.
  induction Hl as [l|l0 c x l Hc Hx _ IH]; intros fuel stack oj Hv.
  - by eexists _, _, _.
  - apply serialize_ref_inv in Hv as (fuel' & c' & _ & _ & Hc' & Hxs).
    rewrite Hc in Hc'. injection Hc' as <-.
    destruct (Hxs x Hx) as [ox Hox]. by eapply IH.
Qed.

(** What [JSON.stringify] gives a text for has no cycle. *)
Lemma stringify_Ok_acyclic h v oj l c x :
  stringify h v = Ok oj → in_text h v l →
  h !! l = Some c → x ∈ serialized_vals c → ¬ in_text h x l.
Proof.
  intros Hv Hl Hc Hx Hcycle.
  destruct (serialize_Ok_in_text _ _ _ _ _ _ Hv Hl) as (fuel & stack & oj' & Hl').
  apply serialize_ref_inv in Hl' as (fuel' & c' & _ & _ & Hc' & Hxs).
  rewrite Hc in Hc'. injection Hc' as <-.
  destruct (Hxs x Hx) as [ox Hox].
  apply (serialize_Ok_stack _ _ _ _ _ _ Hox) in Hcycle.
  apply Hcycle, list_elem_of_here.
Qed.

(** X8. A netlist in which an object is written within itself makes
    [JSON.stringify] of line 3 throw: the merge throws a TypeError, whatever
    the timing model. *)
Theorem cyclic_netlist_throws h verilogData sdfData l c x :
  heap_wf h = true → val_in (length h) verilogData = true →
  in_text h verilogData l → h !! l = Some c → x ∈ serialized_vals c →
  in_text h x l →
  mergeJsonForD3 verilogData sdfData h = Throw TypeError.
Proof.
  intros Hwf Hin Hl Hc Hx Hcycle.
  unfold mergeJsonForD3, JSON_stringify.
  unfold mbind at 1. unfold M_bind, reading.
  destruct (stringify h verilogData) as [oj|e|] eqn:Hjson.
  - by destruct (stringify_Ok_acyclic _ _ _ _ _ _ Hjson Hl Hc Hx).
  - by apply serialize_throws in Hjson as ->.
  - by destruct (stringify_not_Stuck h verilogData Hwf Hin).
Qed.

Lemma cyclic_netlist_throws_witness :
  mergeJsonForD3 (VRef 1) VUndef
    [Obj [(str "top", VRef 1)]; Obj [(str "modules", VRef 0)]]
  = Throw TypeError.
Proof.
  apply (cyclic_netlist_throws _ (VRef 1) VUndef 1
           (Obj [(str "modules", VRef 0)]) (VRef 0)).
  - reflexivity.
  - reflexivity.
  - apply in_text_here.
  - reflexivity.
  - simpl. apply list_elem_of_here.
  - apply (in_text_step _ 0 (Obj [(str "top", VRef 1)]) (VRef 1));
      [reflexivity|simpl; apply list_elem_of_here|apply in_text_here].
Defined.

(** ** The clone and the text of the netlist *)

(** The texts [JSON.stringify] writes: every number is finite, and zero is
    written without sign. *)
#[local] Unset Elimination Schemes.
Inductive canonical : json → Prop :=
  | canonical_null : canonical JNull
  | canonical_bool b : canonical (JBool b)
  | canonical_num x :
      PrimFloat.is_finite x = true →
      (PrimFloat.is_zero x = true → x = 0%float) →
      canonical (JNum x)
  | canonical_str s : canonical (JStr s)
  | canonical_arr js : Forall canonical js → canonical (JArr js)
  | canonical_obj fs : Forall (λ kj, canonical kj.2) fs → canonical (JObj fs).
#[local] Set Elimination Schemes.

Lemma serialize_canonical fuel h stack v j :
  serialize fuel h stack v = Ok (Some j) → canonical j.
Proof.
  revert stack v j. induction fuel as [|fuel IH]; intros stack v j;
    destruct v as [| |b|x|s|l]; simpl; try done;
    try (intros [= <-]; by constructor).
  - intros [= <-]. destruct (PrimFloat.is_finite x) eqn:Hfin; [|constructor].
    destruct (PrimFloat.is_zero x) eqn:Hzero.
    + apply canonical_num; [reflexivity|done].
    + apply canonical_num; [done|congruence].
  - intros [= <-]. destruct (PrimFloat.is_finite x) eqn:Hfin; [|constructor].
    destruct (PrimFloat.is_zero x) eqn:Hzero.
    + apply canonical_num; [reflexivity|done].
    + apply canonical_num; [done|congruence].
  - case_bool_decide; [done|].
    destruct (h !! l) as [[ps|es ps]|]; [| |done];
      unfold mbind, result_bind, rbind.
    + destruct (serialize_props _ ps) as [fs| |] eqn:Hps; try done.
      intros [= <-]. constructor.
      revert fs Hps. induction ps as [|[k x] ps IHps]; intros fs; simpl.
      * intros [= <-]. constructor.
      * unfold mbind, result_bind, rbind.
        destruct (serialize fuel h (l :: stack) x) as [ox| |] eqn:Hx; try done.
        destruct (serialize_props _ ps) as [fs'| |]; try done.
        specialize (IHps fs' eq_refl).
        destruct ox as [jx|]; intros [= <-]; [|done].
        constructor; [|done]. by eapply IH.
    + destruct (serialize_elems _ es) as [js| |] eqn:Hes; try done.
      intros [= <-]. constructor.
      revert js Hes. induction es as [|x es IHes]; intros js; simpl.
      * intros [= <-]. constructor.
      * unfold mbind, result_bind, rbind.
        destruct (serialize fuel h (l :: stack) x) as [ox| |] eqn:Hx; try done.
        destruct (serialize_elems _ es) as [js'| |]; try done.
        specialize (IHes js' eq_refl). intros [= <-].
        constructor; [|done].
        destruct ox as [jx|]; [by eapply IH|constructor].
Qed.

Lemma serialize_elems_located (f : val → result (option json)) es :
  Forall (λ e, f (lval e) = Ok (Some (erase e))) es →
  serialize_elems f (lval <$> es) = Ok (erase <$> es).
Proof.
  induction 1 as [|e es He _ IH]; [done|].
  rewrite !fmap_cons. cbn [serialize_elems].
  unfold mbind, result_bind, rbind. by rewrite He, IH.
Qed.

Lemma serialize_props_located (f : val → result (option json))
    (fs : list (jsstring * ltree)) :
  Forall (λ kt, f (lval kt.2) = Ok (Some (erase kt.2))) fs →
  serialize_props f (lprops fs) = Ok ((λ kt, (kt.1, erase kt.2)) <$> fs).
Proof.
  induction 1 as [|[k t] fs Ht _ IH]; [done|].
  unfold lprops in *. rewrite !fmap_cons. cbn [serialize_props fst snd].
  unfold mbind, result_bind, rbind. simpl in Ht. by rewrite Ht, IH.
Qed.

Lemma child_nodes_length t t' :
  t' ∈ children t → length (nodes t') < length (nodes t).
Proof.
  intros Hin. rewrite (nodes_children t), length_app.
  pose proof (sublist_length _ _ (sublist_concat_elem nodes t' _ Hin)) as Hle.
  destruct t; simpl in *; try (by apply elem_of_nil in Hin); lia.
Qed.

(** [JSON.stringify] of a value that [JSON.parse] made of a text gives the
    text back. *)
Lemma serialize_located h t :
  canonical (erase t) → NoDup (locs t) →
  (∀ l c, (l, c) ∈ nodes t → h !! l = Some c) →
  ∀ fuel stack,
    (∀ l, l ∈ stack → l ∉ locs t) → length (nodes t) < fuel →
    serialize fuel h stack (lval t) = Ok (Some (erase t)).
Proof.
  induction t as [|b|x|s|l es IH|l fs IH] using ltree_ind;
    intros Hcan Hnd Hh fuel stack Hstack Hfuel;
    try (by destruct fuel).
  - inversion Hcan as [| |x' Hfin Hzero| | |]; subst. cbn [lval erase].
    assert (serialize fuel h stack (VNum x)
            = Ok (Some (if PrimFloat.is_finite x
                        then JNum (if PrimFloat.is_zero x then 0%float else x)
                        else JNull))) as -> by (by destruct fuel).
    rewrite Hfin. destruct (PrimFloat.is_zero x); [|done].
    by rewrite Hzero.
  - destruct fuel as [|fuel]; [lia|]. simpl.
    rewrite bool_decide_eq_false_2.
    2:{ intros Hl. apply (Hstack l Hl). rewrite locs_children.
        apply elem_of_app. right. apply list_elem_of_here. }
    rewrite (Hh l (Arr (lval <$> es) [])).
    2:{ apply root_cell_nodes, list_elem_of_here. }
    rewrite serialize_elems_located; [done|].
    inversion Hcan as [| | | |js Hjs|]; subst.
    rewrite Forall_fmap in Hjs. rewrite Forall_forall in IH, Hjs.
    apply Forall_forall. intros e He. apply IH; [done|by apply Hjs|..].
    + by eapply (NoDup_sub_locs (LArr l es)).
    + intros l' c Hin. apply Hh. by eapply (child_subseteq (LArr l es)).
    + intros l' [->|Hl']%elem_of_cons Hin.
      * apply (root_loc_not_in_children (LArr l es) l Hnd eq_refl).
        apply (elem_of_concat _ _ (locs e)); [|done].
        by apply list_elem_of_fmap_2.
      * apply (Hstack l' Hl').
        eapply elem_of_sublist; [done|].
        by apply (child_locs_sublist (LArr l es)).
    + pose proof (child_nodes_length (LArr l es) e He). lia.
  - destruct fuel as [|fuel]; [lia|]. simpl.
    rewrite bool_decide_eq_false_2.
    2:{ intros Hl. apply (Hstack l Hl). rewrite locs_children.
        apply elem_of_app. right. apply list_elem_of_here. }
    rewrite (Hh l (Obj (lprops fs))).
    2:{ apply root_cell_nodes, list_elem_of_here. }
    rewrite serialize_props_located; [done|].
    inversion Hcan as [| | | | |js Hjs]; subst.
    rewrite Forall_fmap in Hjs. rewrite Forall_forall in IH, Hjs.
    apply Forall_forall. intros [k e] He. simpl.
    assert (e ∈ children (LObj l fs)) as Hchild.
    { simpl. apply list_elem_of_fmap. by exists (k, e). }
    apply (IH _ He); [by apply (Hjs _ He)|..].
    + by eapply (NoDup_sub_locs (LObj l fs)).
    + intros l' c Hin. apply Hh. by eapply (child_subseteq (LObj l fs)).
    + intros l' [->|Hl']%elem_of_cons Hin.
      * apply (root_loc_not_in_children (LObj l fs) l Hnd eq_refl).
        apply (elem_of_concat _ _ (locs e)); [|done].
        by apply list_elem_of_fmap_2.
      * apply (Hstack l' Hl').
        eapply elem_of_sublist; [done|].
        by apply (child_locs_sublist (LObj l fs)).
    + pose proof (child_nodes_length (LObj l fs) e Hchild). simpl in *. lia.
Qed.

(** X9. Line 3 is a round trip: the text of the clone is the text of the
    netlist. Whatever [JSON.stringify] shows of the netlist, it shows of the
    clone, in the same order. *)
Theorem clone_has_the_text_of_the_netlist h verilogData jn :
  stringify h verilogData = Ok (Some jn) →
  stringify (parsed h jn) (build jn h).1 = Ok (Some jn).
Proof.
  intros Hjson. unfold parsed. rewrite build_locate. simpl.
  rewrite <-(erase_locate jn (length h)) at 3.
  apply serialize_located.
  - rewrite erase_locate. by eapply serialize_canonical.
  - apply NoDup_locs_locate.
  - intros l c Hin. by apply lookup_built.
  - by intros l ?%elem_of_nil.
  - rewrite length_app, length_fmap. lia.
Qed.

Lemma clone_has_the_text_of_the_netlist_witness :
  stringify (parsed Example.store Example.netlist)
            (build Example.netlist Example.store).1
  = Ok (Some Example.netlist).
Proof.
  apply (clone_has_the_text_of_the_netlist Example.store Example.verilogData).
  vm_compute; reflexivity.
Defined.

(** ** Names that are no strings *)

Lemma sdfInstancesMap_set_throws h m inst e :
  sdfInstancesMap_set h m inst = Throw e → e = TypeError.
Proof.
  unfold sdfInstancesMap_set. destruct (truthy inst); [|done].
  destruct (get_prop h inst (str "instanceName")) as [x| |] eqn:Hx;
    simpl; try done.
  - unfold mbind, result_bind. simpl. destruct (truthy x); [|done].
    destruct x; simpl; try done; by intros [= <-].
  - intros [= <-]. by eapply get_prop_throws.
Qed.

Lemma sdfInstancesMap_set_not_Stuck h m inst :
  val_in (length h) inst = true → sdfInstancesMap_set h m inst ≠ Stuck.
Proof.
  intros Hin. unfold sdfInstancesMap_set.
  destruct (truthy inst) eqn:Htr; [|done].
  rewrite get_closed by (auto using truthy_not_nullish).
  unfold mbind, result_bind. simpl.
  destruct (truthy (field _ _ _)); [|done].
  by destruct (field _ _ _).
Qed.

Lemma sdfInstancesMap_set_non_string h m rec :
  val_in (length h) rec = true → truthy rec = true →
  truthy (field h rec (str "instanceName")) = true →
  is_string (field h rec (str "instanceName")) = false →
  sdfInstancesMap_set h m rec = Throw TypeError.
Proof.
  intros Hin Htr Hname Hstr. unfold sdfInstancesMap_set. rewrite Htr.
  rewrite get_closed by (auto using truthy_not_nullish).
  unfold mbind, result_bind. simpl. rewrite Hname.
  by destruct (field _ _ _).
Qed.

Lemma sdfInstancesMap_fill_non_string h m insts rec :
  Forall (λ x, val_in (length h) x = true) insts → rec ∈ insts →
  truthy rec = true →
  truthy (field h rec (str "instanceName")) = true →
  is_string (field h rec (str "instanceName")) = false →
  sdfInstancesMap_fill h m insts = Throw TypeError.
Proof.
  intros Hin Hrec Htr Hname Hstr. revert m.
  induction Hin as [|inst insts Hi Hin IH]; intros m.
  - by apply elem_of_nil in Hrec.
  - simpl. unfold mbind, result_bind, rbind.
    destruct (sdfInstancesMap_set h m inst) as [m'|e|] eqn:Hset.
    + apply elem_of_cons in Hrec as [->|Hrec]; [|by apply IH].
      by rewrite sdfInstancesMap_set_non_string in Hset.
    + by apply sdfInstancesMap_set_throws in Hset as ->.
    + by destruct (sdfInstancesMap_set_not_Stuck h m inst Hi).
Qed.

(** X10. Line 11 calls [trim] on every truthy [instanceName]: a timing record
    whose [instanceName] is truthy and no string, a number for one, makes
    the merge throw a TypeError, wherever in the timing model the record is
    and whether or not the netlist names it. *)
Theorem record_with_non_string_name_throws h verilogData sdfData jn rec :
  heap_wf h = true → val_in (length h) sdfData = true →
  stringify h verilogData = Ok (Some jn) →
  rec ∈ records h sdfData → truthy rec = true →
  truthy (field h rec (str "instanceName")) = true →
  is_string (field h rec (str "instanceName")) = false →
  mergeJsonForD3 verilogData sdfData h = Throw TypeError.
Proof.
  intros Hwf Hin Hjson Hrec Htr Hname Hstr.
  unfold mergeJsonForD3.
  erewrite bind_Ok by (by apply reading_Ok).
  erewrite bind_Ok by (simpl; by rewrite build_locate).
  assert (sdfInstancesMap_of h sdfData = Throw TypeError) as Hmap.
  { unfold records, items, field in Hrec. unfold sdfInstancesMap_of.
    destruct (get_prop h sdfData (str "instances")) as [x| |] eqn:Hx;
      try by apply elem_of_nil in Hrec.
    unfold mbind, result_bind. simpl.
    destruct (elems_of h x) as [es|] eqn:Hes; [|by apply elem_of_nil in Hrec].
    assert (truthy x = true) as -> by (by destruct x).
    simpl in Hrec. eapply sdfInstancesMap_fill_non_string; [|done..].
    eapply elems_closed; [done|]. exact Hes. }
  unfold mbind, M_bind, reading.
  rewrite (sdfInstancesMap_of_agrees _ h); [by rewrite Hmap|done| |done].
  apply agrees_app.
Qed.

Module Numbered.
(** A timing model whose second record is named by a number. *)
Definition timing : json :=
  JObj [(str "instances", JArr [
    Example.record "ff1" "DFF" (JNum 1) [];
    JObj [(str "instanceName", JNum 7); (str "cellType", Example.jstr "DFF")]])].

Definition sdfData : val := (build timing (build Example.netlist []).2).1.
Definition store : heap := (build timing (build Example.netlist []).2).2.
Definition record_of (n : nat) : val :=
  default VUndef (records store sdfData !! n).
End Numbered.

Lemma record_with_non_string_name_throws_witness :
  mergeJsonForD3 Example.verilogData Numbered.sdfData Numbered.store
  = Throw TypeError.
Proof.
  apply (record_with_non_string_name_throws
           Numbered.store Example.verilogData Numbered.sdfData Example.netlist
           (Numbered.record_of 1)).
  - vm_compute; reflexivity.
  - vm_compute; reflexivity.
  - vm_compute; reflexivity.
  - apply (list_elem_of_lookup_2 _ 1). vm_compute; reflexivity.
  - vm_compute; reflexivity.
  - vm_compute; reflexivity.
  - vm_compute; reflexivity.
Defined.

(** ** Modules whose [instances] is no array *)

(** A module whose [instances] is truthy and no array: an object keyed by
    instance name, say, or a string. *)
Definition instances_not_array (j : json) : bool :=
  is_jobj j
  && match jfield j (str "instances") with
     | None | Some (JArr _) => false
     | Some x => jtruthy x
     end.

Lemma forEach_app {A} (xs ys : list A) (f : A → M unit) h :
  forEach (xs ++ ys) f h
  = match forEach xs f h with
    | Ok (_, h') => forEach ys f h'
    | Throw e => Throw e
    | Stuck => Stuck
    end.
Proof.
  revert h. induction xs as [|x xs IH]; intros h; simpl; [done|].
  unfold mbind, M_bind. destruct (f x h) as [[[] h1]| |]; [apply IH|done..].
Qed.

Lemma erase_obj_inv t fs :
  erase t = JObj fs →
  ∃ l lfs, t = LObj l lfs ∧ fs = (λ kt, (kt.1, erase kt.2)) <$> lfs.
Proof. destruct t; try done. intros [= <-]. by eexists _, _. Qed.

Section not_array.
Context (h0 : heap) (ns : list (nat * cell)) (m : gmap jsstring val).
Context (t : ltree) (h : heap).
Context (Hinv : inv h0 ns h) (Hsub : nodes t ⊆ ns).
Context (Hshape : instances_not_array (erase t) = true).

Lemma instances_not_array_field :
  ∃ x, lfield t (str "instances") = Some x
       ∧ t ≠ LNull
       ∧ truthy (lval x) = true
       ∧ litems (Some x) = []
       ∧ match x with
         | LObj l fs => ∃ ps, h !! l = Some (Obj ps)
         | LArr _ _ => False
         | _ => True
         end.
Proof.
  unfold instances_not_array in Hshape.
  apply andb_prop in Hshape as [Hobj Hx].
  rewrite jfield_erase in Hx.
  destruct (lfield t (str "instances")) as [x|] eqn:Hfield; [|done].
  exists x. split; [done|]. split.
  { intros ->. done. }
  simpl in Hx. rewrite truthy_lval.
  destruct x as [| | | |l es|l fs]; try done.
  repeat split; try done.
  destruct Hinv as [_ Htr _].
  destruct (Htr l (Obj (lprops fs))) as (c' & Hc' & Hsim & _).
  { apply Hsub. eapply child_subseteq; [by eapply lfield_child|].
    apply root_cell_nodes, list_elem_of_here. }
  rewrite Hc'. destruct c'; [by eexists|done].
Qed.

(** The annotation pass passes over such a module. *)
Lemma annotate_module_not_array :
  annotate_module m (lval t) h = Ok (tt, apply_writes (module_writes h0 m t) h)
  ∧ module_writes h0 m t = [].
Proof.
  destruct instances_not_array_field as (x & Hfield & Hnn & Htr & Hitems & Hx).
  assert (module_writes h0 m t = []) as Hnone.
  { unfold module_writes. by rewrite Hfield, Hitems. }
  split; [|done]. rewrite Hnone. unfold annotate_module.
  erewrite bind_Ok by (by eapply inv_get, instances_not_annotation).
  erewrite bind_Ok by (by apply reading_Ok).
  unfold lget, is_array. rewrite Hfield. simpl.
  assert (elems_of h (lval x) = None) as ->.
  { destruct x as [| | | |l es|l fs]; try done.
    destruct Hx as [ps Hl]. simpl. by rewrite Hl. }
  rewrite bool_decide_eq_false_2 by (by intros [? ?]).
  by rewrite andb_false_r.
Qed.

(** The final check calls [forEach] on its [instances]. *)
Lemma count_module_not_array : count_module (lval t) h = Throw TypeError.
Proof.
  destruct instances_not_array_field as (x & Hfield & Hnn & Htr & Hitems & Hx).
  unfold count_module.
  erewrite bind_Ok by (by eapply inv_get, instances_not_annotation).
  unfold lget. rewrite Hfield. simpl. rewrite Htr.
  unfold call_forEach.
  destruct x as [| | | |l es|l fs]; try done.
  destruct Hx as [ps Hl]. simpl. by rewrite Hl.
Qed.
End not_array.

Lemma module_writes_not_array h m t :
  instances_not_array (erase t) = true → module_writes h m t = [].
Proof.
  unfold instances_not_array, module_writes. rewrite jfield_erase.
  intros [_ Hx]%andb_prop.
  destruct (lfield t (str "instances")) as [x|]; [|done].
  by destruct x.
Qed.

Lemma get_Ok_inv v k h x h' : get v k h = Ok (x, h') → field h v k = x.
Proof.
  unfold get, reading, field. destruct (get_prop h v k); [|done..].
  by intros [= -> _].
Qed.

(** The run of the merge for a netlist one of whose modules has [instances]
    that is truthy and no array, the modules before it having an array of
    instances or none: the annotation pass returns over every module and
    passes over that one, and the final check throws at it. *)
Lemma merge_not_array_run h verilogData sdfData jn lm lpre k tm lpost :
  heap_wf h = true → timing_ok h sdfData = true →
  stringify h verilogData = Ok (Some jn) →
  lfield (clone h jn) (str "modules")
  = Some (LObj lm (lpre ++ (k, tm) :: lpost)) →
  Forall (λ t, module_ok (erase t) = true) lpre.*2 →
  instances_not_array (erase tm) = true →
  Forall (λ t, module_ok (erase t) = true
               ∨ instances_not_array (erase t) = true) lpost.*2 →
  ∃ m h1 h2,
    sdfInstancesMap_of h sdfData = Ok m
    ∧ field (cloned h jn) (lval (clone h jn)) (str "modules") = VRef lm
    ∧ values_of (cloned h jn) (VRef lm)
      = Ok (lval <$> (lpre ++ (k, tm) :: lpost).*2)
    ∧ forEach (lval <$> lpre.*2) (annotate_module m) (cloned h jn)
      = Ok (tt, h1)
    ∧ annotate_module m (lval tm) h1 = Ok (tt, h1)
    ∧ forEach (lval <$> lpost.*2) (annotate_module m) h1 = Ok (tt, h2)
    ∧ field h2 (lval (clone h jn)) (str "modules") = VRef lm
    ∧ values_of h2 (VRef lm) = Ok (lval <$> (lpre ++ (k, tm) :: lpost).*2)
    ∧ forEach (lval <$> lpre.*2) count_module h2 = Ok (tt, h2)
    ∧ count_module (lval tm) h2 = Throw TypeError
    ∧ mergeJsonForD3 verilogData sdfData h = Throw TypeError.
Proof.
  intros Hwf Htiming Hjson Hmods Hpre Hna Hpost.
  destruct (merge_cloned h verilogData sdfData jn Hwf Htiming Hjson)
    as (m & Hmap & Hm & Hmerge).
  assert (clone h jn ≠ LNull) as Hnn.
  { intros Hc. by rewrite Hc in Hmods. }
  assert (Forall (λ t, nodes t ⊆ nodes (clone h jn))
            (lpre ++ (k, tm) :: lpost).*2) as Hsubs.
  { apply Forall_forall. intros t Ht x Hx.
    eapply child_subseteq; [by eapply lfield_child|].
    eapply child_subseteq; [exact Ht|done]. }
  pose proof Hsubs as Hsubs'.
  rewrite fmap_app, fmap_cons in Hsubs'.
  apply Forall_app in Hsubs' as [Hsubpre Hsubs'].
  apply Forall_cons in Hsubs' as [Hsub Hsubpost].
  pose proof (inv_built h jn) as Hinv.
  fold (clone h jn) in Hinv. fold (cloned h jn) in Hinv.
  assert (∀ h', inv h (nodes (clone h jn)) h' →
            get (lval (clone h jn)) (str "modules") h' = Ok (VRef lm, h'))
    as Hget.
  { intros h' Hinv'.
    rewrite (inv_get h (nodes (clone h jn))) by
      (done || apply modules_not_annotation).
    unfold lget. by rewrite Hmods. }
  assert ((lm, Obj (lprops (lpre ++ (k, tm) :: lpost))) ∈ nodes (clone h jn))
    as Hlm.
  { eapply child_subseteq; [by eapply lfield_child|].
    apply root_cell_nodes, list_elem_of_here. }
  assert (values_of (cloned h jn) (VRef lm)
          = Ok (lval <$> (lpre ++ (k, tm) :: lpost).*2)) as Hvalues.
  { simpl. unfold cloned, clone. apply lookup_built in Hlm as [-> _].
    unfold lprops. by rewrite <-!list_fmap_compose. }
  (* the annotation pass *)
  destruct (forEach_modules_run h (nodes (clone h jn)) m Hwf Hm lpre.*2
              (cloned h jn)) as [Hrun1 Hws1]; [done| |].
  { rewrite Forall_forall in Hpre, Hsubpre. apply Forall_forall.
    intros t Ht. split; [by apply Hpre|by apply Hsubpre]. }
  set (ws1 := concat (module_writes h m <$> lpre.*2)) in *.
  assert (inv h (nodes (clone h jn)) (apply_writes ws1 (cloned h jn)))
    as Hinv1 by (by apply inv_apply_writes).
  destruct (annotate_module_not_array h (nodes (clone h jn)) m tm _
              Hinv1 Hsub Hna) as [Hrun Hnone].
  rewrite Hnone in Hrun. simpl in Hrun.
  destruct (forEach_run h (nodes (clone h jn)) (annotate_module m)
              (module_writes h m)
              (λ t, (module_ok (erase t) = true
                     ∨ instances_not_array (erase t) = true)
                    ∧ nodes t ⊆ nodes (clone h jn))
              lpost.*2 (apply_writes ws1 (cloned h jn)))
    as [Hrun2 Hws2]; [| |done|].
  { intros t h' [[Hok|Hna'] Hsub'] Hinv'.
    - by apply (annotate_module_run h (nodes (clone h jn)) m Hwf Hm).
    - destruct (annotate_module_not_array h (nodes (clone h jn)) m t h'
                  Hinv' Hsub' Hna') as [Hrun' Hnone'].
      split; [done|]. rewrite Hnone'. constructor. }
  { rewrite Forall_forall in Hpost, Hsubpost. apply Forall_forall.
    intros t Ht. split; [by apply Hpost|by apply Hsubpost]. }
  set (ws2 := concat (module_writes h m <$> lpost.*2)) in *.
  set (h1 := apply_writes ws1 (cloned h jn)) in *.
  assert (inv h (nodes (clone h jn)) (apply_writes ws2 h1)) as Hinv2
    by (by apply inv_apply_writes).
  (* the final check *)
  assert (values_of (apply_writes ws2 h1) (VRef lm)
          = Ok (lval <$> (lpre ++ (k, tm) :: lpost).*2)) as Hvalues2.
  { assert (ws1 ++ ws2
            = concat (module_writes h m <$> (lpre ++ (k, tm) :: lpost).*2))
      as Hws.
    { rewrite !fmap_app, !fmap_cons, concat_app. simpl. by rewrite Hnone. }
    assert (writes_at lm (ws1 ++ ws2) = []) as Hnot.
    { rewrite Hws. eapply writes_at_notin.
      - apply lands_in_concat. rewrite fmap_app, fmap_cons.
        apply Forall_app. split; [|constructor].
        + eapply Forall_impl; [exact Hpre|].
          intros t Hok. by apply module_writes_lands.
        + simpl. rewrite Hnone. constructor.
        + eapply Forall_impl; [exact Hpost|].
          intros t [Hok|Hna']; [by apply module_writes_lands|].
          rewrite module_writes_not_array by done. constructor.
      - apply (root_loc_not_in_children (LObj lm (lpre ++ (k, tm) :: lpost)));
          [|done].
        eapply NoDup_sub_locs; [apply NoDup_clone|by eapply lfield_child]. }
    unfold h1. rewrite <-apply_writes_app. simpl. rewrite apply_writes_lookup.
    unfold cloned, clone in *. apply lookup_built in Hlm as [-> _]. simpl.
    rewrite Hnot. simpl. unfold lprops. by rewrite <-!list_fmap_compose. }
  assert (forEach (lval <$> lpre.*2) count_module (apply_writes ws2 h1)
          = Ok (tt, apply_writes ws2 h1)) as Hcount.
  { apply (forEach_count_run h (nodes (clone h jn))); [done|].
    rewrite Forall_forall in Hpre, Hsubpre. apply Forall_forall.
    intros t Ht. split; [by apply Hpre|by apply Hsubpre]. }
  pose proof (count_module_not_array h (nodes (clone h jn)) tm _
                Hinv2 Hsub Hna) as Hthrow.
  exists m, h1, (apply_writes ws2 h1).
  split; [done|]. split; [by eapply get_Ok_inv, Hget|]. split; [done|].
  split; [done|]. split; [done|]. split; [done|].
  split; [by eapply get_Ok_inv, Hget|]. split; [done|]. split; [done|].
  split; [done|].
  rewrite Hmerge.
  erewrite bind_Ok by (by apply Hget).
  erewrite bind_Ok by (by apply reading_Ok).
  assert (forEach (lval <$> (lpre ++ (k, tm) :: lpost).*2) (annotate_module m)
            (cloned h jn) = Ok (tt, apply_writes ws2 h1)) as Hpass.
  { rewrite !fmap_app, !fmap_cons, forEach_app, Hrun1. simpl.
    by erewrite bind_Ok by exact Hrun. }
  erewrite bind_Ok by exact Hpass.
  erewrite bind_Ok by (by apply Hget).
  erewrite bind_Ok by (by apply reading_Ok).
  unfold mbind, M_bind.
  rewrite !fmap_app, !fmap_cons, forEach_app, Hcount. simpl.
  unfold mbind, M_bind. by rewrite Hthrow.
Qed.


Module Keyed.
(** A netlist whose second module keeps its instances in an object keyed by
    instance name. *)
Definition top : json :=
  JObj [(str "instances", JArr [Example.instance "ff1" "DFF" []])].

Definition cells : json :=
  JObj [(str "instances",
         JObj [(str "u1", Example.instance "u1" "DFF" [])])].

Definition netlist : json :=
  JObj [(str "modules", JObj [(str "top", top); (str "cells", cells)])].

Definition verilogData : val := (build netlist []).1.
Definition sdfData : val := (build Example.timing (build netlist []).2).1.
Definition store : heap := (build Example.timing (build netlist []).2).2.
End Keyed.


(** ** Instances whose [name] is no string *)

(** An instance whose [name] is truthy and no string: a number, say. *)
Definition name_not_string (j : json) : bool :=
  is_jobj j
  && match jfield j (str "name") with
     | None | Some (JStr _) => false
     | Some x => jtruthy x
     end.

Lemma erase_arr_inv t js :
  erase t = JArr js → ∃ l es, t = LArr l es ∧ js = erase <$> es.
Proof. destruct t; try done. intros [= <-]. by eexists _, _. Qed.

Lemma annotate_instance_non_string h0 ns m t h :
  inv h0 ns h → nodes t ⊆ ns → name_not_string (erase t) = true →
  annotate_instance m (lval t) h = Throw TypeError.
Proof.
  intros Hinv Hsub [Hobj Hname]%andb_prop.
  assert (t ≠ LNull) as Hnn by (by intros ->).
  rewrite jfield_erase in Hname.
  unfold annotate_instance.
  erewrite bind_Ok by (by eapply inv_get, name_not_annotation).
  unfold lget. destruct (lfield t (str "name")) as [x|]; [|done].
  simpl in *. rewrite truthy_lval.
  destruct (erase x) eqn:Hx; try done; rewrite Hname; simpl;
    unfold mbind, M_bind, reading; by destruct x.
Qed.


Module Indexed.
(** A netlist whose second instance is named by a number. *)
Definition first : json := Example.instance "ff1" "DFF" [].

Definition second : json :=
  JObj [(str "name", JNum 2); (str "type", Example.jstr "DFF")].

Definition top : json := JObj [(str "instances", JArr [first; second])].

Definition netlist : json := JObj [(str "modules", JObj [(str "top", top)])].

Definition verilogData : val := (build netlist []).1.
Definition sdfData : val := (build Example.timing (build netlist []).2).1.
Definition store : heap := (build Example.timing (build netlist []).2).2.
End Indexed.


(** ** Saving the result

    The caller of the merge writes [JSON.stringify] of the result to a
    file. The result refers to objects of the timing model, so whether it
    has a text depends on them. *)

(** No array of the store has properties besides its elements. *)
Definition arrays_plain (h : heap) : bool :=
  forallb (λ c, match c with
                | Arr _ (_ :: _) => false
                | _ => true
                end) h.

(** The value [x] is written by [JSON.stringify], with the fuel of a store
    of [n] objects at most. *)
Definition has_text (n : nat) (h : heap) (x : val) : Prop :=
  ∃ fuel stack oj, fuel ≤ S n ∧ serialize fuel h stack x = Ok oj.

Lemma has_text_undefined n h : has_text n h VUndef.
Proof. exists 0, [], None. split; [lia|done]. Qed.

Lemma has_text_kept n h l c x :
  has_text n h (VRef l) → h !! l = Some c → x ∈ serialized_vals c →
  has_text n h x.
Proof.
  intros (fuel & stack & oj & Hfuel & Hl) Hc Hx.
  apply serialize_ref_inv in Hl as (fuel' & c' & -> & _ & Hc' & Hxs).
  rewrite Hc in Hc'. injection Hc' as <-.
  destruct (Hxs x Hx) as [ox Hox].
  exists fuel', (l :: stack), ox. split; [lia|done].
Qed.

Lemma arrays_plain_lookup h l es ps :
  arrays_plain h = true → h !! l = Some (Arr es ps) → ps = [].
Proof.
  unfold arrays_plain. rewrite forallb_forall. intros Hplain Hl.
  apply list_elem_of_lookup_2, list_elem_of_In, Hplain in Hl.
  by destruct ps.
Qed.

Lemma has_text_field n h x k :
  arrays_plain h = true → has_text n h x → has_text n h (field h x k).
Proof.
  intros Hplain Hx. unfold field, get_prop.
  destruct x as [| | | | |l]; try apply has_text_undefined.
  destruct (h !! l) as [c|] eqn:Hc; [|apply has_text_undefined].
  destruct (lookup_prop k (props_of c)) as [y|] eqn:Hk;
    [|apply has_text_undefined].
  simpl. eapply has_text_kept; [done..|].
  destruct c as [ps|es ps]; simpl in *.
  - by eapply lookup_prop_elem_snd.
  - by rewrite (arrays_plain_lookup h l es ps) in Hk.
Qed.

Lemma has_text_item n h x y :
  has_text n h x → y ∈ items h x → has_text n h y.
Proof.
  unfold items, elems_of. intros Hx Hy.
  destruct x as [| | | | |l]; simpl in *; try by apply elem_of_nil in Hy.
  destruct (h !! l) as [[ps|es ps]|] eqn:Hc; simpl in Hy;
    try by apply elem_of_nil in Hy.
  by eapply has_text_kept.
Qed.

(** What holds of the timing model, of its properties and of its elements
    holds of every value the merge writes. *)
Lemma instance_writes_values (P : val → Prop) h m t :
  (∀ k rec, m !! k = Some rec → P rec) →
  (∀ x k, P x → P (field h x k)) →
  (∀ x y, P x → y ∈ items h x → P y) →
  Forall (λ w : write, P w.2) (instance_writes h m t).
Proof.
  intros Hm Hfield Hitem. unfold instance_writes.
  destruct (lfield t (str "name")) as [[| | |s| |]|]; try by constructor.
  case_bool_decide; [by constructor|].
  destruct (m !! trim s) as [rec|] eqn:Hrec; [|by constructor].
  apply Hm in Hrec.
  destruct (is_str (field h rec (str "cellType")) (str "DFF")).
  { constructor; [by apply Hfield|].
    constructor; [by apply Hfield|constructor]. }
  destruct (is_str (field h rec (str "cellType")) (str "LUT_K")).
  { constructor; [by apply Hfield|constructor]. }
  destruct (lfield t (str "type")) as [[| | |ty| |]|]; try by constructor.
  case_bool_decide; [|by constructor].
  destruct (connection_delay h rec) as [d|] eqn:Hd; [|by constructor].
  apply Forall_fmap, Forall_forall. intros c _. simpl.
  unfold connection_delay in Hd.
  destruct (elems_of h (field h rec (str "delays"))) as [[|first es]|] eqn:Hes.
  - done.
  - injection Hd as <-. apply Hfield.
    apply (Hitem (field h rec (str "delays"))); [by apply Hfield|].
    unfold items. rewrite Hes. apply list_elem_of_here.
  - destruct (is_number _); [|done]. injection Hd as <-. by apply Hfield.
Qed.

Lemma netlist_writes_values (P : val → Prop) h m t :
  (∀ k rec, m !! k = Some rec → P rec) →
  (∀ x k, P x → P (field h x k)) →
  (∀ x y, P x → y ∈ items h x → P y) →
  Forall (λ w : write, P w.2) (netlist_writes h m t).
Proof.
  intros Hm Hfield Hitem. unfold netlist_writes, module_writes.
  apply Forall_concat_fmap. intros tm.
  apply Forall_concat_fmap. intros ti.
  by apply instance_writes_values.
Qed.

Lemma serialize_elems_ext (f g : val → result (option json)) vs js :
  (∀ x oj, x ∈ vs → f x = Ok oj → g x = Ok oj) →
  serialize_elems f vs = Ok js → serialize_elems g vs = Ok js.
Proof.
  revert js. induction vs as [|v vs IH]; intros js Hfg; simpl; [done|].
  unfold mbind, result_bind, rbind.
  destruct (f v) as [oj| |] eqn:Hv; try done.
  rewrite (Hfg v oj) by (done || apply list_elem_of_here).
  destruct (serialize_elems f vs) as [js'| |]; try done.
  rewrite (IH js'); [done| |done].
  intros x ox Hx. apply Hfg. by apply list_elem_of_further.
Qed.

Lemma serialize_props_ext (f g : val → result (option json))
    (ps : list (jsstring * val)) fs :
  (∀ x oj, x ∈ ps.*2 → f x = Ok oj → g x = Ok oj) →
  serialize_props f ps = Ok fs → serialize_props g ps = Ok fs.
Proof.
  revert fs. induction ps as [|[k v] ps IH]; intros fs Hfg; simpl; [done|].
  unfold mbind, result_bind, rbind.
  destruct (f v) as [oj| |] eqn:Hv; try done.
  rewrite (Hfg v oj) by (done || apply list_elem_of_here).
  destruct (serialize_props f ps) as [fs'| |]; try done.
  rewrite (IH fs'); [done| |done].
  intros x ox Hx. apply Hfg. by apply list_elem_of_further.
Qed.

(** The text of an old value is the same in a store that has the old
    objects as they were, with more fuel and with new objects on the
    stack. *)
Lemma serialize_old h h' :
  heap_wf h = true → agrees (length h) h' h →
  ∀ fuel fuel' stack stack' x oj,
    val_in (length h) x = true →
    (∀ l, l ∈ stack' → l ∈ stack ∨ length h ≤ l) →
    fuel ≤ fuel' →
    serialize fuel h stack x = Ok oj → serialize fuel' h' stack' x = Ok oj.
Proof.
  intros Hwf Hag. induction fuel as [|fuel IH];
    intros fuel' stack stack' x oj Hin Hstack Hfuel;
    destruct x as [| | | | |l]; try (by destruct fuel'); try done.
  destruct fuel' as [|fuel']; [lia|]. simpl.
  apply val_in_ref in Hin.
  case_bool_decide as Hl; [done|].
  rewrite bool_decide_eq_false_2.
  2:{ intros Hl'. destruct (Hstack l Hl'); [done|lia]. }
  rewrite (Hag l Hin).
  destruct (h !! l) as [c|] eqn:Hc; [|done].
  pose proof (heap_wf_lookup h l c Hwf Hc) as Hvals.
  rewrite Forall_forall in Hvals.
  assert (∀ x ox, x ∈ cell_vals c →
            serialize fuel h (l :: stack) x = Ok ox →
            serialize fuel' h' (l :: stack') x = Ok ox) as Hrec.
  { intros x ox Hx. apply IH; [by apply Hvals| |lia].
    intros l' [->|Hl']%elem_of_cons.
    - left. apply list_elem_of_here.
    - destruct (Hstack l' Hl'); [left; by apply list_elem_of_further|by right]. }
  destruct c as [ps|es ps]; unfold mbind, result_bind, rbind.
  - destruct (serialize_props (serialize fuel h (l :: stack)) ps)
      as [fs| |] eqn:Hps; try done.
    by rewrite (serialize_props_ext _ _ _ _ Hrec Hps).
  - destruct (serialize_elems (serialize fuel h (l :: stack)) es)
      as [js| |] eqn:Hes; try done.
    rewrite (serialize_elems_ext (serialize fuel h (l :: stack))
               (serialize fuel' h' (l :: stack')) es js); [done| |done].
    intros x ox Hx. apply Hrec. simpl. apply elem_of_app. by left.
Qed.

Lemma serialize_elems_Ok (f : val → result (option json)) vs :
  Forall (λ v, ∃ oj, f v = Ok oj) vs → ∃ js, serialize_elems f vs = Ok js.
Proof.
  induction 1 as [|v vs [oj Hv] _ [js IH]]; simpl; [by eexists|].
  unfold mbind, result_bind, rbind. rewrite Hv, IH. by eexists.
Qed.

Lemma serialize_props_Ok (f : val → result (option json))
    (ps : list (jsstring * val)) :
  Forall (λ v, ∃ oj, f v = Ok oj) ps.*2 → ∃ fs, serialize_props f ps = Ok fs.
Proof.
  induction ps as [|[k v] ps IH]; simpl; [by eexists|].
  intros [[oj Hv] Hps]%Forall_cons. destruct (IH Hps) as [fs Hfs].
  unfold mbind, result_bind, rbind. rewrite Hv, Hfs. by eexists.
Qed.

(** The value that [x] is in the store [h]: an object of [h], written by
    [JSON.stringify]. *)
Definition old_text (h : heap) (x : val) : Prop :=
  val_in (length h) x = true ∧ has_text (length h) h x.

(** A tree of the clone to some objects of which old values with a text
    have been assigned has a text. *)
Lemma serialize_annotated h h' t :
  heap_wf h = true → agrees (length h) h' h → NoDup (locs t) →
  (∀ l c, (l, c) ∈ nodes t →
     length h ≤ l
     ∧ ∃ kxs, h' !! l = Some (with_props c (assign_all kxs (props_of c)))
              ∧ Forall (λ kx, old_text h kx.2) kxs) →
  ∀ fuel stack,
    (∀ l, l ∈ stack → length h ≤ l ∧ l ∉ locs t) →
    length (nodes t) + length h < fuel →
    ∃ oj, serialize fuel h' stack (lval t) = Ok oj.
Proof.
  intros Hwf Hag.
  induction t as [|b|x|s|l es IH|l fs IH] using ltree_ind;
    intros Hnd Hnodes fuel stack Hstack Hfuel;
    try (destruct fuel; by eexists).
  - destruct fuel as [|fuel]; [lia|]. simpl.
    assert (l ∈ locs (LArr l es)) as Hl.
    { rewrite locs_children. apply elem_of_app. right. apply list_elem_of_here. }
    rewrite bool_decide_eq_false_2 by (intros Hin; by apply (Hstack l Hin)).
    destruct (Hnodes l (Arr (lval <$> es) [])) as (Hfresh & kxs & -> & _).
    { apply root_cell_nodes, list_elem_of_here. }
    simpl.
    destruct (serialize_elems_Ok (serialize fuel h' (l :: stack)) (lval <$> es))
      as [js Hjs].
    { apply Forall_fmap. rewrite Forall_forall in IH. apply Forall_forall.
      intros e He. apply IH; [done|..].
      - by eapply (NoDup_sub_locs (LArr l es)).
      - intros l' c Hin. apply Hnodes. by eapply (child_subseteq (LArr l es)).
      - intros l' [->|Hl']%elem_of_cons.
        + split; [done|]. intros Hin.
          apply (root_loc_not_in_children (LArr l es) l Hnd eq_refl).
          apply (elem_of_concat _ _ (locs e)); [|done].
          by apply list_elem_of_fmap_2.
        + destruct (Hstack l' Hl') as [? Hnot]. split; [done|]. intros Hin.
          apply Hnot. eapply elem_of_sublist; [done|].
          by apply (child_locs_sublist (LArr l es)).
      - pose proof (child_nodes_length (LArr l es) e He). lia. }
    unfold mbind, result_bind, rbind. rewrite Hjs. by eexists.
  - destruct fuel as [|fuel]; [lia|]. simpl.
    assert (l ∈ locs (LObj l fs)) as Hl.
    { rewrite locs_children. apply elem_of_app. right. apply list_elem_of_here. }
    rewrite bool_decide_eq_false_2 by (intros Hin; by apply (Hstack l Hin)).
    destruct (Hnodes l (Obj (lprops fs))) as (Hfresh & kxs & -> & Hkxs).
    { apply root_cell_nodes, list_elem_of_here. }
    simpl.
    destruct (serialize_props_Ok (serialize fuel h' (l :: stack))
                (assign_all kxs (lprops fs))) as [js Hjs].
    { apply Forall_forall. intros y [Hy|Hy]%assign_all_vals.
      - apply list_elem_of_fmap in Hy as (kx & -> & Hkx).
        rewrite Forall_forall in Hkxs.
        destruct (Hkxs kx Hkx) as (Hin & fuel0 & stack0 & oj & Hf0 & Hoj).
        exists oj. eapply (serialize_old h h' Hwf Hag); [done| | |exact Hoj].
        + intros l' [->|Hl']%elem_of_cons; right; [done|].
          by destruct (Hstack l' Hl').
        + simpl in Hfuel. rewrite length_app in Hfuel. simpl in Hfuel. lia.
      - unfold lprops in Hy. rewrite <-list_fmap_compose in Hy.
        apply list_elem_of_fmap in Hy as ([k e] & -> & Hke). simpl.
        assert (e ∈ children (LObj l fs)) as Hchild.
        { simpl. apply list_elem_of_fmap. by exists (k, e). }
        rewrite Forall_forall in IH. apply (IH _ Hke).
        + by eapply (NoDup_sub_locs (LObj l fs)).
        + intros l' c Hin. apply Hnodes.
          by eapply (child_subseteq (LObj l fs)).
        + intros l' [->|Hl']%elem_of_cons.
          * split; [done|]. intros Hin.
            apply (root_loc_not_in_children (LObj l fs) l Hnd eq_refl).
            apply (elem_of_concat _ _ (locs e)); [|done].
            by apply list_elem_of_fmap_2.
          * destruct (Hstack l' Hl') as [? Hnot]. split; [done|]. intros Hin.
            apply Hnot. eapply elem_of_sublist; [done|].
            by apply (child_locs_sublist (LObj l fs)).
        + pose proof (child_nodes_length (LObj l fs) e Hchild).
          simpl in *. lia. }
    unfold mbind, result_bind, rbind. rewrite Hjs. by eexists.
Qed.

(** X13. The caller can save what the merge returns: when the timing model has a
    JSON text, so has the result, although the result refers to objects of
    the timing model. Sharing an object is no cycle. *)
Theorem result_has_a_text h verilogData sdfData jn jt :
  valid_inputs h verilogData sdfData jn → arrays_plain h = true →
  stringify h sdfData = Ok (Some jt) →
  ∃ v' h' j',
    mergeJsonForD3 verilogData sdfData h = Ok (v', h')
    ∧ stringify h' v' = Ok (Some j').
Proof.
  intros (Hwf & Htiming & Hjson & Hnet) Hplain Htext.
  destruct (merge_run h sdfData jn Hwf Htiming Hnet verilogData Hjson)
    as (m & Hmap & Hm & Hrun).
  fold (merged h jn m) in Hrun.
  assert (Forall (λ w : write, old_text h w.2)
            (netlist_writes h m (clone h jn))) as Hws.
  { apply netlist_writes_values.
    - intros k rec Hk.
      apply (sdfInstancesMap_of_lookup _ _ _ _ _ Hmap) in Hk as [_ Hrec].
      unfold records in Hrec. split.
      + pose proof (items_closed h (field h sdfData (str "instances")) Hwf)
          as Hin.
        rewrite Forall_forall in Hin. by apply Hin.
      + eapply has_text_item; [|exact Hrec].
        apply has_text_field; [done|].
        exists (S (length h)), [], (Some jt). split; [lia|done].
    - intros x k [Hin Hx]. split; [by apply field_closed|].
      by apply has_text_field.
    - intros x y [Hin Hx] Hy. split; [|by eapply has_text_item].
      pose proof (items_closed h x Hwf) as Hall.
      rewrite Forall_forall in Hall. by apply Hall. }
  destruct (serialize_annotated h (merged h jn m) (clone h jn) Hwf)
    with (fuel := S (length (merged h jn m))) (stack := @nil nat) as [oj Hoj].
  - intros l Hl. by apply merged_old.
  - apply NoDup_clone.
  - intros l c Hin. split.
    + unfold clone in Hin. by apply lookup_built in Hin as [_ ?].
    + eexists. split; [by apply merged_node|].
      apply Forall_forall. intros kx Hkx.
      destruct (writes_at_vals l (netlist_writes h m (clone h jn)) kx.2)
        as (w & Hw & <-).
      { by apply list_elem_of_fmap_2. }
      rewrite Forall_forall in Hws. by apply Hws.
  - by intros l ?%elem_of_nil.
  - unfold merged. rewrite length_apply_writes. unfold cloned.
    rewrite length_app, length_fmap. lia.
  - destruct (clone_root h jn Hnet) as (l' & Hroot & _).
    exists (lval (clone h jn)), (merged h jn m).
    destruct oj as [j'|].
    + by exists j'.
    + apply serialize_undefined in Hoj. by rewrite Hroot in Hoj.
Qed.

Lemma result_has_a_text_witness :
  ∃ v' h' j',
    mergeJsonForD3 Example.verilogData Example.sdfData Example.store
    = Ok (v', h')
    ∧ stringify h' v' = Ok (Some j').
Proof.
  apply (result_has_a_text
           Example.store Example.verilogData Example.sdfData Example.netlist
           Example.timing).
  - repeat split; vm_compute; reflexivity.
  - vm_compute; reflexivity.
  - vm_compute; reflexivity.
Defined.

(** ** Calling the merge again *)

Lemma val_in_le n n' v : val_in n v = true → n ≤ n' → val_in n' v = true.
Proof.
  destruct v as [| | | | |l]; simpl; try done.
  rewrite !bool_decide_eq_true. lia.
Qed.

Lemma agrees_field h h0 v k :
  agrees (length h0) h h0 → val_in (length h0) v = true →
  field h v k = field h0 v k.
Proof. intros Hag Hin. unfold field. by rewrite (agrees_get h h0). Qed.

Lemma record_ok_agrees h h0 rec :
  heap_wf h0 = true → agrees (length h0) h h0 →
  val_in (length h0) rec = true → record_ok h rec = record_ok h0 rec.
Proof.
  intros Hwf Hag Hin. unfold record_ok.
  rewrite !(agrees_field h h0) by done.
  by rewrite (agrees_elems h h0) by (done || by apply field_closed).
Qed.

Lemma timing_ok_agrees h h0 sdfData :
  heap_wf h0 = true → agrees (length h0) h h0 → length h0 ≤ length h →
  timing_ok h0 sdfData = true → timing_ok h sdfData = true.
Proof.
  intros Hwf Hag Hlen. unfold timing_ok.
  intros [[Hnull Hin]%andb_prop Hrecs]%andb_prop.
  rewrite Hnull, (val_in_le _ _ _ Hin Hlen). simpl.
  unfold items in *. rewrite (agrees_field h h0) by done.
  rewrite (agrees_elems h h0) by (done || by apply field_closed).
  pose proof (items_closed h0 (field h0 sdfData (str "instances")) Hwf) as Hall.
  unfold items in Hall.
  rewrite forallb_forall in Hrecs. apply forallb_forall. intros rec Hrec.
  rewrite Forall_forall in Hall.
  rewrite (record_ok_agrees h h0); [by apply Hrecs|done..|].
  by apply Hall, list_elem_of_In.
Qed.

Lemma heap_wf_keys h l c :
  heap_wf h = true → h !! l = Some c → NoDup (props_of c).*1.
Proof.
  unfold heap_wf. rewrite forallb_forall. intros Hwf Hl.
  apply list_elem_of_lookup_2, list_elem_of_In, Hwf in Hl.
  apply andb_prop in Hl as [_ Hl]. by apply bool_decide_eq_true in Hl.
Qed.

Lemma heap_wf_intro h :
  (∀ l c, h !! l = Some c →
          Forall (λ v, val_in (length h) v = true) (cell_vals c)
          ∧ NoDup (props_of c).*1) →
  heap_wf h = true.
Proof.
  intros Hcells. unfold heap_wf. apply forallb_forall.
  intros c [l Hl]%list_elem_of_In%list_elem_of_lookup_1.
  destruct (Hcells l c Hl) as [Hvals Hkeys].
  apply andb_true_intro. split.
  - apply forallb_forall. intros v Hv. rewrite Forall_forall in Hvals.
    by apply Hvals, list_elem_of_In.
  - by apply bool_decide_eq_true.
Qed.

(** The texts of a store in which no object has two properties of one
    name. *)
#[local] Unset Elimination Schemes.
Inductive distinct_keys : json → Prop :=
  | distinct_keys_null : distinct_keys JNull
  | distinct_keys_bool b : distinct_keys (JBool b)
  | distinct_keys_num x : distinct_keys (JNum x)
  | distinct_keys_str s : distinct_keys (JStr s)
  | distinct_keys_arr js : Forall distinct_keys js → distinct_keys (JArr js)
  | distinct_keys_obj fs :
      NoDup fs.*1 → Forall (λ kj, distinct_keys kj.2) fs →
      distinct_keys (JObj fs).
#[local] Set Elimination Schemes.

Lemma serialize_props_keys (f : val → result (option json))
    (ps : list (jsstring * val)) fs :
  serialize_props f ps = Ok fs → fs.*1 `sublist_of` ps.*1.
Proof.
  revert fs. induction ps as [|[k v] ps IH]; intros fs; simpl.
  - by intros [= <-].
  - unfold mbind, result_bind, rbind.
    destruct (f v) as [oj| |]; try done.
    destruct (serialize_props f ps) as [fs'| |]; try done.
    specialize (IH fs' eq_refl).
    destruct oj as [j|]; intros [= <-]; simpl.
    + by apply sublist_skip.
    + by apply sublist_cons.
Qed.

Lemma serialize_distinct_keys fuel h stack v j :
  heap_wf h = true → serialize fuel h stack v = Ok (Some j) → distinct_keys j.
Proof.
  intros Hwf. revert stack v j. induction fuel as [|fuel IH]; intros stack v j;
    destruct v as [| |b|x|s|l]; simpl; try done;
    try (intros [= <-]; by constructor).
  - intros [= <-]. destruct (PrimFloat.is_finite x); constructor.
  - intros [= <-]. destruct (PrimFloat.is_finite x); constructor.
  - case_bool_decide; [done|].
    destruct (h !! l) as [[ps|es ps]|] eqn:Hl; [| |done];
      unfold mbind, result_bind, rbind.
    + destruct (serialize_props _ ps) as [fs| |] eqn:Hps; try done.
      intros [= <-]. constructor.
      { eapply sublist_NoDup; [|by eapply serialize_props_keys].
        by apply (heap_wf_keys h l (Obj ps)). }
      clear Hl. revert fs Hps.
      induction ps as [|[k x] ps IHps]; intros fs; simpl.
      * intros [= <-]. constructor.
      * unfold mbind, result_bind, rbind.
        destruct (serialize fuel h (l :: stack) x) as [ox| |] eqn:Hx; try done.
        destruct (serialize_props _ ps) as [fs'| |]; try done.
        specialize (IHps fs' eq_refl).
        destruct ox as [jx|]; intros [= <-]; [|done].
        constructor; [|done]. by eapply IH.
    + destruct (serialize_elems _ es) as [js| |] eqn:Hes; try done.
      intros [= <-]. constructor.
      clear Hl. revert js Hes. induction es as [|x es IHes]; intros js; simpl.
      * intros [= <-]. constructor.
      * unfold mbind, result_bind, rbind.
        destruct (serialize fuel h (l :: stack) x) as [ox| |] eqn:Hx; try done.
        destruct (serialize_elems _ es) as [js'| |]; try done.
        specialize (IHes js' eq_refl). intros [= <-].
        constructor; [|done].
        destruct ox as [jx|]; [by eapply IH|constructor].
Qed.

Lemma nodes_distinct_keys t l c :
  distinct_keys (erase t) → (l, c) ∈ nodes t → NoDup (props_of c).*1.
Proof.
  induction t as [| | | |l0 es IH|l0 fs IH] using ltree_ind;
    try (by intros _ ?%elem_of_nil).
  - intros Hkeys. rewrite nodes_children. intros [Hin|Hin]%elem_of_app.
    + apply list_elem_of_In, in_concat in Hin as (ns & Hns & Hin).
      apply list_elem_of_In, list_elem_of_fmap in Hns as (e & -> & He).
      apply list_elem_of_In in Hin. rewrite Forall_forall in IH.
      apply (IH e He); [|done].
      inversion Hkeys as [| | | |js Hjs|]; subst.
      rewrite Forall_fmap, Forall_forall in Hjs. by apply Hjs.
    + apply list_elem_of_singleton in Hin as [= -> ->]. constructor.
  - intros Hkeys. rewrite nodes_children. intros [Hin|Hin]%elem_of_app.
    + apply list_elem_of_In, in_concat in Hin as (ns & Hns & Hin).
      apply list_elem_of_In, list_elem_of_fmap in Hns as (e & -> & He).
      apply list_elem_of_In in Hin.
      apply list_elem_of_fmap in He as ([k e'] & -> & Hke).
      rewrite Forall_forall in IH. apply (IH _ Hke); [|done].
      inversion Hkeys as [| | | | |js Hnd Hjs]; subst.
      rewrite Forall_fmap, Forall_forall in Hjs. by apply (Hjs _ Hke).
    + apply list_elem_of_singleton in Hin as [= -> ->]. simpl.
      inversion Hkeys as [| | | | |js Hnd Hjs]; subst.
      unfold lprops. rewrite <-list_fmap_compose in Hnd.
      rewrite <-list_fmap_compose. exact Hnd.
Qed.

Lemma assign_keys k x ps y : y ∈ (assign k x ps).*1 → y = k ∨ y ∈ ps.*1.
Proof.
  induction ps as [|[k' v] ps IH]; simpl.
  - intros ->%list_elem_of_singleton. by left.
  - case_bool_decide; simpl.
    + intros [->|Hy]%elem_of_cons; [by left|].
      right. by apply list_elem_of_further.
    + intros [->|Hy]%elem_of_cons; [right; apply list_elem_of_here|].
      destruct (IH Hy) as [->|?]; [by left|].
      right. by apply list_elem_of_further.
Qed.

Lemma NoDup_assign k x ps : NoDup ps.*1 → NoDup (assign k x ps).*1.
Proof.
  induction ps as [|[k' v] ps IH]; simpl.
  - intros _. apply NoDup_singleton.
  - intros [Hk' Hps]%NoDup_cons. case_bool_decide as Hk; simpl.
    + subst. by apply NoDup_cons.
    + apply NoDup_cons. split; [|by apply IH].
      intros [->|?]%assign_keys; done.
Qed.

Lemma NoDup_assign_all kxs ps : NoDup ps.*1 → NoDup (assign_all kxs ps).*1.
Proof.
  revert ps. induction kxs as [|[k x] kxs IH]; intros ps Hps; simpl; [done|].
  by apply IH, NoDup_assign.
Qed.

Lemma stringify_closed h v oj :
  stringify h v = Ok oj → val_in (length h) v = true.
Proof.
  destruct v as [| | | | |l]; try done.
  intros (_ & c & _ & _ & Hc & _)%serialize_ref_inv.
  apply val_in_ref. by eapply lookup_lt_Some.
Qed.

Section rerun.
Context (h : heap) (sdfData : val) (jn : json) (m : gmap jsstring val).
Context (Hwf : heap_wf h = true) (Hnet : netlist_ok jn = true).
Context (Hm : map_ok h m) (Hkeys : distinct_keys jn).

Lemma merged_cell l c :
  merged h jn m !! l = Some c → length h ≤ l →
  ∃ c0, (l, c0) ∈ nodes (clone h jn)
        ∧ c = with_props c0
                (assign_all (writes_at l (netlist_writes h m (clone h jn)))
                   (props_of c0)).
Proof.
  intros Hc Hl. unfold merged in Hc. rewrite apply_writes_lookup in Hc.
  destruct (cloned h jn !! l) as [c0|] eqn:Hc0; [|done].
  injection Hc as <-. exists c0. split; [|done].
  unfold cloned in Hc0. rewrite lookup_app_r in Hc0 by done.
  rewrite list_lookup_fmap in Hc0.
  destruct (nodes (clone h jn) !! (l - length h)) as [[l0 c1]|] eqn:Hnode;
    [|done].
  injection Hc0 as ->.
  assert (locs (clone h jn) !! (l - length h) = Some l0) as Hl0.
  { unfold locs. by rewrite list_lookup_fmap, Hnode. }
  unfold clone in Hl0. rewrite locs_locate in Hl0.
  apply lookup_seq in Hl0 as [-> _].
  replace (length h + (l - length h)) with l in Hnode by lia.
  by eapply list_elem_of_lookup_2.
Qed.

Lemma heap_wf_merged : heap_wf (merged h jn m) = true.
Proof.
  apply heap_wf_intro. intros l c Hc.
  destruct (decide (l < length h)) as [Hl|Hl].
  - rewrite (merged_old h jn m Hwf Hnet Hm l Hl) in Hc. split.
    + eapply Forall_impl; [by eapply heap_wf_lookup|].
      intros v Hv. simpl in Hv.
      apply (val_in_le (length h)); [done|]. rewrite length_merged. lia.
    + by eapply heap_wf_keys.
  - destruct (merged_cell l c Hc) as (c0 & Hin & ->); [lia|]. split.
    + apply Forall_forall. intros y Hy.
      apply with_props_vals in Hy as [Hy|Hy];
        [|apply assign_all_vals in Hy as [Hy|Hy]].
      * destruct y as [| | | | |ly]; try done. apply val_in_ref.
        pose proof (nodes_closed _ _ _ _ Hin Hy) as Hly.
        unfold clone in Hly. rewrite locs_locate in Hly.
        apply elem_of_seq in Hly. rewrite length_merged.
        unfold clone. rewrite length_nodes_locate. lia.
      * apply writes_at_vals in Hy as (w & Hw & <-).
        pose proof (netlist_writes_values
                      (λ x, val_in (length h) x = true) h m (clone h jn))
          as Hws.
        rewrite Forall_forall in Hws.
        eapply val_in_le; [apply Hws; [| | |exact Hw]|].
        -- intros k rec Hk. by destruct (Hm k rec Hk).
        -- intros x k _. by apply field_closed.
        -- intros x y _ Hy. pose proof (items_closed h x Hwf) as Hall.
           rewrite Forall_forall in Hall. by apply Hall.
        -- rewrite length_merged. lia.
      * destruct y as [| | | | |ly]; try done. apply val_in_ref.
        assert (VRef ly ∈ cell_vals c0) as Hy' by by apply props_vals_cell_vals.
        pose proof (nodes_closed _ _ _ _ Hin Hy') as Hly.
        unfold clone in Hly. rewrite locs_locate in Hly.
        apply elem_of_seq in Hly. rewrite length_merged.
        unfold clone. rewrite length_nodes_locate. lia.
    + rewrite props_with_props. apply NoDup_assign_all.
      eapply nodes_distinct_keys; [|done].
      unfold clone. by rewrite erase_locate.
Qed.
End rerun.

(** X14. The merge keeps what it needs: when it has returned, the netlist and
    the timing model are in the new store what they were in the old one and
    the store is again a store of a JavaScript program, so the merge of the
    same netlist with the same timing model returns again. *)
Theorem merge_can_be_called_again h verilogData sdfData jn :
  valid_inputs h verilogData sdfData jn →
  ∃ v' h',
    mergeJsonForD3 verilogData sdfData h = Ok (v', h')
    ∧ valid_inputs h' verilogData sdfData jn
    ∧ ∃ r, mergeJsonForD3 verilogData sdfData h' = Ok r.
Proof.
  intros (Hwf & Htiming & Hjson & Hnet).
  destruct (merge_run h sdfData jn Hwf Htiming Hnet verilogData Hjson)
    as (m & Hmap & Hm & Hrun).
  fold (merged h jn m) in Hrun.
  exists (lval (clone h jn)), (merged h jn m). split; [done|].
  assert (agrees (length h) (merged h jn m) h) as Hag.
  { intros l Hl. by apply merged_old. }
  assert (valid_inputs (merged h jn m) verilogData sdfData jn) as Hvalid.
  { split; [|split; [|split; [|done]]].
    - apply heap_wf_merged; [done..|].
      by eapply serialize_distinct_keys.
    - apply (timing_ok_agrees _ h); [done..| |done].
      rewrite length_merged. lia.
    - apply (serialize_old h (merged h jn m) Hwf Hag (S (length h)) _ []);
        [by eapply stringify_closed| |rewrite length_merged; lia|done].
      by intros l ?%elem_of_nil. }
  split; [done|].
  destruct Hvalid as (Hwf' & Htiming' & Hjson' & _).
  destruct (merge_run _ sdfData jn Hwf' Htiming' Hnet verilogData Hjson')
    as (m' & _ & _ & Hrun').
  by eexists.
Qed.

Lemma merge_can_be_called_again_witness :
  ∃ v' h',
    mergeJsonForD3 Example.verilogData Example.sdfData Example.store
    = Ok (v', h')
    ∧ valid_inputs h' Example.verilogData Example.sdfData Example.netlist
    ∧ ∃ r, mergeJsonForD3 Example.verilogData Example.sdfData h' = Ok r.
Proof.
  apply (merge_can_be_called_again
           Example.store Example.verilogData Example.sdfData Example.netlist).
  repeat split; vm_compute; reflexivity.
Defined.
